(** * SpreadingCascade: the cascade engine of [scascade.c] and the ring
    buffer of [queue.c], embedded as pure functions over explicit state.

    C [int] values are modelled as [Z].  Signed overflow is undefined in C
    and the engine counts nodes and arcs of a graph whose sizes are
    themselves [int]s, so no wrap-around is written out.  Arrays are lists read and
    written through [aget] and [aset], which report an access outside the
    allocated block as [OutOfBounds]; a failed [assert] is reported as
    [AssertionFailed]. *)

From Stdlib Require Import QArith.
From stdpp Require Import base numbers list sorting.

Open Scope Z_scope.

(** ** Outcomes of fallible code *)

Inductive error := AssertionFailed | OutOfBounds.

Inductive result (A : Type) :=
| Ok (a : A)
| Err (e : error).
Arguments Ok {A} a.
Arguments Err {A} e.

(** The error monad, so that [x ← r; k] sequences fallible steps. *)
#[global] Instance result_bind : MBind result := λ A B k r,
  match r with
  | Ok a => k a
  | Err e => Err e
  end.

(** [a[i]] and [a[i] = x] on a C array held in a list. *)
Definition aget (a : list Z) (i : Z) : result Z :=
  if i <? 0 then Err OutOfBounds
  else match a !! Z.to_nat i with
       | Some x => Ok x
       | None => Err OutOfBounds
       end.

Definition aset (a : list Z) (i x : Z) : result (list Z) :=
  if (0 <=? i) && (i <? Z.of_nat (length a))
  then Ok (<[Z.to_nat i := x]> a)
  else Err OutOfBounds.

(** ** queue.c *)

Record Queue := mkQueue {
  qsize : Z;          (* size  *)
  qbegin : Z;         (* begin *)
  qend : Z;           (* end   *)
  qnodes : list Z     (* nodes *)
}.

Definition queue_empty (q : Queue) : bool := qbegin q =? qend q.

Definition queue_full (q : Queue) : bool :=
  qbegin q =? Z.rem (qend q + 1) (qsize q).

(** [malloc] is taken to succeed; the fresh storage is never read before it
    is written, zeros stand for its indeterminate content. *)
Definition queue_new (size : Z) : Queue :=
  {| qsize := size + 1;
     qbegin := 0;
     qend := 0;
     qnodes := replicate (Z.to_nat (size + 1)) 0 |}.

Definition queue_add (q : Queue) (e : Z) : result Queue :=
  if queue_full q then Err AssertionFailed
  else
    nodes' ← aset (qnodes q) (qend q) e;
    Ok {| qsize := qsize q;
          qbegin := qbegin q;
          qend := Z.rem (qend q + 1) (qsize q);
          qnodes := nodes' |}.

Definition queue_get (q : Queue) : result (Z * Queue) :=
  _ ← aget (qnodes q) (qbegin q);
  if queue_empty q then Err AssertionFailed
  else
    r ← aget (qnodes q) (qbegin q);
    Ok (r, {| qsize := qsize q;
              qbegin := Z.rem (qbegin q + 1) (qsize q);
              qend := qend q;
              qnodes := qnodes q |}).

(** ** scascade.c: data *)

(** Modelled from the spec: the [graph] type of [prelim.c], which is not
    part of the sources at hand.  The engine reads the node count [n], the
    arc count [m] and, for a node [u], its out-neighbours [links[u][0..]]
    in stored order; [degrees[u]] is the length of that sequence. *)
Record graph := mkGraph {
  g_n : Z;
  g_m : Z;
  g_links : list (list Z)
}.

Definition links_of (g : graph) (u : Z) : result (list Z) :=
  if u <? 0 then Err OutOfBounds
  else match g_links g !! Z.to_nat u with
       | Some vs => Ok vs
       | None => Err OutOfBounds
       end.

Inductive Stopc := MaxTime | NumInfected.

Definition Stopc_eqb (a b : Stopc) : bool :=
  match a, b with
  | MaxTime, MaxTime | NumInfected, NumInfected => true
  | _, _ => false
  end.

(** The pair ([num_infected], [infected]) of the C struct is the list
    [ic_infected]; [ic_init] keeps the count equal to the array length. *)
Record InitialCondition := mkIC {
  ic_id : Z;
  ic_infected : list Z;
  ic_bound : Z;
  ic_stop_criterion : Stopc
}.

Definition ic_num_infected (ic : InitialCondition) : Z :=
  Z.of_nat (length (ic_infected ic)).

(** [e_output] tells whether the [FILE *output] of the struct is non-NULL;
    the content written to it lives in the [World]. *)
Record Epidemic := mkEpidemic {
  e_id : Z;
  e_t : Z;
  e_num_infected : Z;
  e_cascade_links : Z;
  e_bound : Z;
  e_stop_criterion : Stopc;
  e_p : Q;
  e_g : graph;
  e_output : bool;
  e_infected : list Z;
  e_active : Queue
}.

(** What lies outside the struct: how many times [rand()] was called and
    the lines printed so far to the trace file, each [t u v id]. *)
Record World := mkWorld {
  rand_calls : nat;
  trace : list (Z * Z * Z * Z)
}.

(** [RAND_MAX] of the C library (glibc); [rand()] returns a value between
    0 and [RAND_MAX]. *)
Definition RAND_MAX : Z := 2147483647.

(** ** scascade.c: construction *)

Fixpoint seed_loop (seeds : list Z) (q : Queue) (inf : list Z)
  : result (Queue * list Z) :=
  match seeds with
  | [] => Ok (q, inf)
  | s :: rest =>
      q' ← queue_add q s;
      inf' ← aset inf s 1;
      seed_loop rest q' inf'
  end.

Definition epidemic_new (p : Q) (g : graph) (ic : InitialCondition)
    (output : bool) : result Epidemic :=
  '(q, inf) ← seed_loop (ic_infected ic) (queue_new (g_n g))
                (replicate (Z.to_nat (g_n g)) 0);
  Ok {| e_id := ic_id ic;
        e_t := 1;
        e_num_infected := ic_num_infected ic;
        e_cascade_links := 0;
        e_bound := ic_bound ic;
        e_stop_criterion := ic_stop_criterion ic;
        e_p := p;
        e_g := g;
        e_output := output;
        e_infected := inf;
        e_active := q |}.

(** ** scascade.c: the run *)

Definition set_active (e : Epidemic) (q : Queue) : Epidemic :=
  {| e_id := e_id e; e_t := e_t e; e_num_infected := e_num_infected e;
     e_cascade_links := e_cascade_links e; e_bound := e_bound e;
     e_stop_criterion := e_stop_criterion e; e_p := e_p e; e_g := e_g e;
     e_output := e_output e; e_infected := e_infected e; e_active := q |}.

Definition incr_links (e : Epidemic) : Epidemic :=
  {| e_id := e_id e; e_t := e_t e; e_num_infected := e_num_infected e;
     e_cascade_links := e_cascade_links e + 1; e_bound := e_bound e;
     e_stop_criterion := e_stop_criterion e; e_p := e_p e; e_g := e_g e;
     e_output := e_output e; e_infected := e_infected e;
     e_active := e_active e |}.

(** Lines 121-125: the state after a first infection of a node at time [t]. *)
Definition infect (e : Epidemic) (inf : list Z) (q : Queue) (t : Z)
  : Epidemic :=
  {| e_id := e_id e; e_t := t; e_num_infected := e_num_infected e + 1;
     e_cascade_links := e_cascade_links e + 1; e_bound := e_bound e;
     e_stop_criterion := e_stop_criterion e; e_p := e_p e; e_g := e_g e;
     e_output := e_output e; e_infected := inf; e_active := q |}.

Definition draw (w : World) : World :=
  {| rand_calls := S (rand_calls w); trace := trace w |}.

(** [if (epidemic->output) fprintf(epidemic->output, "%d %d %d %d\n", ...)] *)
Definition print_record (e : Epidemic) (w : World) (t u v : Z) : World :=
  if e_output e
  then {| rand_calls := rand_calls w;
          trace := trace w ++ [(t, u, v, e_id e)] |}
  else w.

(** Whether a [return] statement was reached. *)
Inductive flow := Continue | Return.

Section Engine.

(** The values returned by the successive calls to [rand()]. *)
Variable rand_seq : nat -> Z.

(** [(double)rand() <= (double)RAND_MAX * epidemic->p], the doubles taken
    as the rationals they denote; for [p = 1] the comparison of the C code
    is exact, an [int] being a [double]. *)
Definition success (p : Q) (r : Z) : bool :=
  Qle_bool (inject_Z r) (inject_Z RAND_MAX * p).

(** The body of the [for] loop of [epidemic_run], lines 118-135. *)
Definition trial (e : Epidemic) (w : World) (u t v : Z)
  : result (flow * Epidemic * World) :=
  let w1 := draw w in
  if success (e_p e) (rand_seq (rand_calls w)) then
    iv ← aget (e_infected e) v;
    if iv =? 0 then
      inf' ← aset (e_infected e) v (t + 1);
      q' ← queue_add (e_active e) v;
      let e' := infect e inf' q' t in
      if Stopc_eqb (e_stop_criterion e') NumInfected
         && (e_bound e' =? e_num_infected e')
      then Ok (Return, e', print_record e' w1 t u v)
      else Ok (Continue, e', print_record e' w1 t u v)
    else
      let e' := if iv =? t + 1 then incr_links e else e in
      Ok (Continue, e', print_record e' w1 t u v)
  else Ok (Continue, e, w1).

(** The [for] loop over the out-neighbours of [u], lines 117-136. *)
Fixpoint for_links (e : Epidemic) (w : World) (u t : Z) (vs : list Z)
  : result (flow * Epidemic * World) :=
  match vs with
  | [] => Ok (Continue, e, w)
  | v :: vs' =>
      '(f, e', w') ← trial e w u t v;
      match f with
      | Return => Ok (Return, e', w')
      | Continue => for_links e' w' u t vs'
      end
  end.

(** One iteration of the [while] loop, entered with a non-empty queue. *)
Definition run_body (e : Epidemic) (w : World)
  : result (flow * Epidemic * World) :=
  '(u, q') ← queue_get (e_active e);
  let e1 := set_active e q' in
  t ← aget (e_infected e1) u;
  if Stopc_eqb (e_stop_criterion e1) MaxTime && (e_bound e1 <? t)
  then Ok (Return, e1, w)
  else
    vs ← links_of (e_g e1) u;
    for_links e1 w u t vs.

(** The [while] loop, at most [fuel] iterations; [None] when they do not
    suffice. *)
Fixpoint run_fuel (fuel : nat) (e : Epidemic) (w : World)
  : option (result (Epidemic * World)) :=
  match fuel with
  | O => None
  | S fuel' =>
      if queue_empty (e_active e) then Some (Ok (e, w))
      else match run_body e w with
           | Err x => Some (Err x)
           | Ok (Return, e', w') => Some (Ok (e', w'))
           | Ok (Continue, e', w') => run_fuel fuel' e' w'
           end
  end.

(** [epidemic_run]: a node is dequeued at each iteration and at most
    [n] nodes are ever enqueued, hence the fuel (see [epidemic_run_total]). *)
Definition epidemic_run (e : Epidemic) (w : World)
  : option (result (Epidemic * World)) :=
  run_fuel (S (Z.to_nat (g_n (e_g e)))) e w.

(** The loop heads of a run started in [(e0, w0)]: the start and every
    state left by an iteration that did not [return]. *)
Inductive at_loop_head (e0 : Epidemic) (w0 : World)
  : Epidemic → World → Prop :=
| head_start : at_loop_head e0 w0 e0 w0
| head_next e w e' w' :
    at_loop_head e0 w0 e w →
    queue_empty (e_active e) = false →
    run_body e w = Ok (Continue, e', w') →
    at_loop_head e0 w0 e' w'.

(** The observable points of a run: after construction, after each
    dequeued node is processed, and the state in which an iteration
    returned. *)
Definition observable (e0 : Epidemic) (w0 : World) (e : Epidemic)
    (w : World) : Prop :=
  at_loop_head e0 w0 e w ∨
  ∃ e1 w1, at_loop_head e0 w0 e1 w1 ∧ queue_empty (e_active e1) = false ∧
           run_body e1 w1 = Ok (Return, e, w).

(** The run started in [(e0, w0)] ends in [(e, w)]: the queue is found
    empty at a loop head, or an iteration returns. *)
Definition finished (e0 : Epidemic) (w0 : World) (e : Epidemic)
    (w : World) : Prop :=
  (at_loop_head e0 w0 e w ∧ queue_empty (e_active e) = true) ∨
  ∃ e1 w1, at_loop_head e0 w0 e1 w1 ∧ queue_empty (e_active e1) = false ∧
           run_body e1 w1 = Ok (Return, e, w).

(** The values [t = infected[u]] read at line 114 by the successive
    iterations of the [while] loop. *)
Fixpoint dequeue_times (fuel : nat) (e : Epidemic) (w : World) : list Z :=
  match fuel with
  | O => []
  | S fuel' =>
      if queue_empty (e_active e) then []
      else match queue_get (e_active e) with
           | Ok (u, _) =>
               match aget (e_infected e) u with
               | Ok t =>
                   t :: match run_body e w with
                        | Ok (Continue, e', w') => dequeue_times fuel' e' w'
                        | _ => []
                        end
               | Err _ => []
               end
           | Err _ => []
           end
  end.

End Engine.

(** ** Test scenarios *)

Definition world0 : World := {| rand_calls := 0; trace := [] |}.

Definition line5 : graph :=
  {| g_n := 5; g_m := 4; g_links := [[1]; [2]; [3]; [4]; []] |}.

Definition star5 : graph :=
  {| g_n := 5; g_m := 4; g_links := [[1; 2; 3; 4]; []; []; []; []] |}.

Definition triangle : graph :=
  {| g_n := 3; g_m := 3; g_links := [[1; 2]; [2]; []] |}.

(** Run epidemic [ic] on [g] from a fresh world, tracing enabled. *)
Definition simulate (rand_seq : nat -> Z) (p : Q) (g : graph)
    (ic : InitialCondition) : option (result (Epidemic * World)) :=
  match epidemic_new p g ic true with
  | Ok e => epidemic_run rand_seq e world0
  | Err x => Some (Err x)
  end.

(** ** Vocabulary of the statements *)

(** The number of nodes [v] with [infected[v] > 0]. *)
Definition count_infected (inf : list Z) : Z :=
  Z.of_nat (length (filter (λ t : Z, 0 < t) inf)).

Definition in_range (g : graph) (v : Z) : Prop := 0 ≤ v < g_n g.

(** What the loader of [prelim.c] delivers: [n] adjacency lists whose
    entries are node identifiers. *)
Definition graph_wf (g : graph) : Prop :=
  0 ≤ g_n g ∧
  Z.of_nat (length (g_links g)) = g_n g ∧
  Forall (Forall (in_range g)) (g_links g).

(** Distinct seeds inside [[0, n)]. *)
Definition seeds_ok (g : graph) (ic : InitialCondition) : Prop :=
  NoDup (ic_infected ic) ∧ Forall (in_range g) (ic_infected ic).

(** [within g seeds d v]: a walk of [d] arcs leads from a seed to [v]. *)
Inductive within (g : graph) (seeds : list Z) : nat → Z → Prop :=
| within_seed s : s ∈ seeds → within g seeds 0 s
| within_arc d u v vs :
    within g seeds d u → links_of g u = Ok vs → v ∈ vs →
    within g seeds (S d) v.

(** The elements held by the ring buffer, oldest first. *)
Definition queue_contents (q : Queue) : list Z :=
  let len := Z.to_nat ((qend q - qbegin q) `mod` qsize q) in
  (λ k : nat,
     nth (Z.to_nat ((qbegin q + Z.of_nat k) `mod` qsize q)) (qnodes q) 0)
  <$> seq 0 len.

(** The slots of the buffer written so far.  The buffer of an epidemic
    never wraps around (see [Inv]), so this is the sequence of all nodes
    ever enqueued, and its part from [qbegin] on is [queue_contents]. *)
Definition pushed (q : Queue) : list Z := take (Z.to_nat (qend q)) (qnodes q).
Definition popped (q : Queue) : list Z := take (Z.to_nat (qbegin q)) (qnodes q).
Definition pending (q : Queue) : list Z := drop (Z.to_nat (qbegin q)) (pushed q).

(** [infected[v]], 0 where [v] is not an index of the array. *)
Definition time_of (inf : list Z) (v : Z) : Z :=
  match aget inf v with
  | Ok t => t
  | Err _ => 0
  end.

(** The assertions of [main] on its parameters, lines 323-327; a path is
    represented by whether it was given. *)
Definition main_asserts (p : Q) (sample_epidemics : Z)
    (graph_path ic_list_path bounds_list_path : bool) (maxtime threads : Z)
  : result unit :=
  if negb (negb (Qle_bool p 0) && Qle_bool p 1) then Err AssertionFailed
  else if negb (0 <? sample_epidemics) then Err AssertionFailed
  else if negb (graph_path || ic_list_path) then Err AssertionFailed
  else if negb (bounds_list_path || (0 <? maxtime)) then Err AssertionFailed
  else if negb (0 <? threads) then Err AssertionFailed
  else Ok ().

(** [qlin q]: the buffer has not wrapped around. *)
Definition qlin (q : Queue) : Prop :=
  0 ≤ qbegin q ≤ qend q ∧ qend q < qsize q ∧
  Z.of_nat (length (qnodes q)) = qsize q.

(** The state invariant of an epidemic built from the seeds [seeds]. *)
Record Inv (seeds : list Z) (e : Epidemic) : Prop := {
  inv_graph : graph_wf (e_g e);
  inv_len : Z.of_nat (length (e_infected e)) = g_n (e_g e);
  inv_qsize : qsize (e_active e) = g_n (e_g e) + 1;
  inv_qlen : Z.of_nat (length (qnodes (e_active e))) = g_n (e_g e) + 1;
  inv_begin : 0 ≤ qbegin (e_active e) ≤ qend (e_active e);
  inv_end : qend (e_active e) = e_num_infected e;
  inv_count : e_num_infected e = count_infected (e_infected e);
  inv_nonneg : Forall (λ t, 0 ≤ t) (e_infected e);
  inv_pushed : ∀ v, v ∈ pushed (e_active e) ↔ 0 < time_of (e_infected e) v;
  inv_nodup : NoDup (pushed (e_active e));
  inv_seeds : ∀ s, s ∈ seeds → time_of (e_infected e) s = 1
}.

(** The state after [u = queue_get(epidemic->active)]. *)
Definition dequeued (e : Epidemic) : Epidemic :=
  set_active e (mkQueue (qsize (e_active e)) (qbegin (e_active e) + 1)
                  (qend (e_active e)) (qnodes (e_active e))).

(** What the [for] loop leaves untouched. *)
Record frame (e e' : Epidemic) : Prop := {
  fr_g : e_g e' = e_g e;
  fr_bound : e_bound e' = e_bound e;
  fr_stop : e_stop_criterion e' = e_stop_criterion e;
  fr_p : e_p e' = e_p e;
  fr_id : e_id e' = e_id e;
  fr_output : e_output e' = e_output e;
  fr_begin : qbegin (e_active e') = qbegin (e_active e);
  fr_popped : popped (e_active e') = popped (e_active e)
}.

(** The struct while [epidemic_new] is seeding: [k] seeds entered. *)
Definition seeding (p : Q) (g : graph) (ic : InitialCondition)
    (output : bool) (k : Z) (q : Queue) (inf : list Z) : Epidemic :=
  {| e_id := ic_id ic; e_t := 1; e_num_infected := k;
     e_cascade_links := 0; e_bound := ic_bound ic;
     e_stop_criterion := ic_stop_criterion ic; e_p := p; e_g := g;
     e_output := output; e_infected := inf; e_active := q |}.

#[global] Instance in_range_dec g v : Decision (in_range g v).
Proof. unfold in_range. apply _. Defined.

#[global] Instance graph_wf_dec g : Decision (graph_wf g).
Proof. unfold graph_wf. apply _. Defined.

#[global] Instance seeds_ok_dec g ic : Decision (seeds_ok g ic).
Proof. unfold seeds_ok. apply _. Defined.

(** The fields the run never writes. *)
Record static (e e' : Epidemic) : Prop := {
  st_g : e_g e' = e_g e;
  st_bound : e_bound e' = e_bound e;
  st_stop : e_stop_criterion e' = e_stop_criterion e;
  st_p : e_p e' = e_p e;
  st_id : e_id e' = e_id e;
  st_output : e_output e' = e_output e
}.

(** The size criterion with a bound already reached by the seeds. *)
Definition no_size_stop (e : Epidemic) : Prop :=
  e_stop_criterion e = NumInfected ∧ e_bound e ≤ e_num_infected e.

(** The infection times never decrease along the list of nodes [l]. *)
Definition sorted_times (inf : list Z) (l : list Z) : Prop :=
  ∀ i j x y, (i ≤ j)%nat → l !! i = Some x → l !! j = Some y →
             time_of inf x ≤ time_of inf y.

(** Breadth-first order at a loop head. *)
Record Bfs (e : Epidemic) : Prop := {
  bf_sorted : sorted_times (e_infected e) (pushed (e_active e));
  bf_upper : ∀ h y, head (pending (e_active e)) = Some h →
                    time_of (e_infected e) y ≤ time_of (e_infected e) h + 1
}.

(** Breadth-first order while a node dequeued with time [t] is processed. *)
Record BfsL (t : Z) (e : Epidemic) : Prop := {
  bl_sorted : sorted_times (e_infected e) (pushed (e_active e));
  bl_upper : ∀ y, time_of (e_infected e) y ≤ t + 1;
  bl_lower : ∀ y, y ∈ pending (e_active e) → t ≤ time_of (e_infected e) y
}.

(** From [e] to [e'] the nodes [new] were enqueued, each with time
    [t + 1], and no infection time already set was changed. *)
Definition grows (t : Z) (e e' : Epidemic) (new : list Z) : Prop :=
  pushed (e_active e') = pushed (e_active e) ++ new ∧
  (∀ v, v ∈ new → aget (e_infected e') v = Ok (t + 1)) ∧
  (∀ y, 0 < time_of (e_infected e) y →
        time_of (e_infected e') y = time_of (e_infected e) y).

(** Node [x] has passed the infection on: when its time is within the
    bound, each of its out-neighbours is infected, at most one step later. *)
Definition closed (e : Epidemic) (x : Z) : Prop :=
  time_of (e_infected e) x ≤ e_bound e →
  ∀ vs v, links_of (e_g e) x = Ok vs → v ∈ vs →
          0 < time_of (e_infected e) v ≤ time_of (e_infected e) x + 1.

(** Every node that has left the queue has passed the infection on. *)
Definition Closure (e : Epidemic) : Prop :=
  ∀ x, x ∈ popped (e_active e) → closed e x.

(** Every trial of the epidemic succeeds under the draws [rand_seq]. *)
Definition certain (rand_seq : nat → Z) (e : Epidemic) : Prop :=
  ∀ k, success (e_p e) (rand_seq k) = true.

(** A trace record [t u v id] counts as a cascade link with respect to
    the infection times [inf] when its client [v] has time [t + 1]. *)
Definition is_link (inf : list Z) (r : Z * Z * Z * Z) : Prop :=
  time_of inf r.1.2 = r.1.1.1 + 1.

#[global] Instance is_link_dec inf r : Decision (is_link inf r).
Proof. unfold is_link. apply _. Defined.

Definition count_links (inf : list Z) (tr : list (Z * Z * Z * Z)) : Z :=
  Z.of_nat (length (filter (is_link inf) tr)).

(** [cascade_links] against the records printed so far. *)
Record Links (e : Epidemic) (w : World) : Prop := {
  lk_output : e_output e = true;
  lk_count : e_cascade_links e = count_links (e_infected e) (trace w);
  lk_targets : ∀ r, r ∈ trace w → 0 < time_of (e_infected e) r.1.2
}.

(** States of the scenarios, as the runs produce them. *)

(** The star epidemic (bound 3 on size) after construction. *)
Definition star_start : Epidemic :=
  mkEpidemic 7 1 1 0 3 NumInfected 1 star5 true [1; 0; 0; 0; 0]
    (mkQueue 6 0 1 [0; 0; 0; 0; 0; 0]).

(** The same once node 0 is dequeued and its first neighbour infected. *)
Definition star_mid : Epidemic :=
  mkEpidemic 7 1 2 1 3 NumInfected 1 star5 true [1; 2; 0; 0; 0]
    (mkQueue 6 1 2 [0; 1; 0; 0; 0; 0]).

(** The triangle epidemic (depth bound 10) when node 1 has been dequeued. *)
Definition triangle_at_1 : Epidemic :=
  mkEpidemic 7 1 3 2 10 MaxTime 1 triangle true [1; 2; 2]
    (mkQueue 4 2 3 [0; 1; 2; 0]).

(** The line epidemic with bound 1 on size, after construction and after
    its first iteration. *)
Definition line_start : Epidemic :=
  mkEpidemic 7 1 1 0 1 NumInfected 1 line5 true [1; 0; 0; 0; 0]
    (mkQueue 6 0 1 [0; 0; 0; 0; 0; 0]).

Definition line_next : Epidemic :=
  mkEpidemic 7 1 2 1 1 NumInfected 1 line5 true [1; 2; 0; 0; 0]
    (mkQueue 6 1 2 [0; 1; 0; 0; 0; 0]).

(** ** Vocabulary for the ring buffer in general *)

(** A buffer as [queue_new] makes it and [queue_add], [queue_get] keep it. *)
Definition wf_queue (q : Queue) : Prop :=
  0 < qsize q ∧ 0 ≤ qbegin q < qsize q ∧ 0 ≤ qend q < qsize q ∧
  Z.of_nat (length (qnodes q)) = qsize q.

#[global] Instance wf_queue_dec q : Decision (wf_queue q).
Proof. unfold wf_queue. apply _. Defined.

(** Number of elements held, and the slot of the [k]-th of them. *)
Definition qlen (q : Queue) : nat :=
  Z.to_nat ((qend q - qbegin q) `mod` qsize q).
Definition qslot (q : Queue) (k : nat) : nat :=
  Z.to_nat ((qbegin q + Z.of_nat k) `mod` qsize q).

(** Operations issued to a queue. *)
Inductive qop := QAdd (x : Z) | QGet.

(** A sequence of calls to [queue_add] and [queue_get]; the values the
    gets return are collected in order. *)
Fixpoint queue_ops (ops : list qop) (q : Queue) : result (list Z * Queue) :=
  match ops with
  | [] => Ok ([], q)
  | QAdd x :: ops' => q' ← queue_add q x; queue_ops ops' q'
  | QGet :: ops' =>
      '(r, q') ← queue_get q;
      '(rs, q'') ← queue_ops ops' q';
      Ok (r :: rs, q'')
  end.

(** The same calls on a first-in first-out list that holds at most [cap]
    elements: the behaviour the ring buffer is compared with. *)
Fixpoint fifo_ops (cap : nat) (ops : list qop) (l : list Z)
  : result (list Z * list Z) :=
  match ops with
  | [] => Ok ([], l)
  | QAdd x :: ops' =>
      if decide (length l = cap) then Err AssertionFailed
      else fifo_ops cap ops' (l ++ [x])
  | QGet :: ops' =>
      match l with
      | [] => Err AssertionFailed
      | r :: l' =>
          '(rs, l'') ← fifo_ops cap ops' l';
          Ok (r :: rs, l'')
      end
  end.

(** [queue_ops] and [fifo_ops] end alike: same error, or same values
    returned and same content left. *)
Definition same_outcome (a : result (list Z * Queue))
    (b : result (list Z * list Z)) : Prop :=
  match a, b with
  | Ok (rs, q), Ok (rs', l) =>
      rs = rs' ∧ queue_contents q = l ∧ wf_queue q
  | Err x, Err y => x = y
  | _, _ => False
  end.

(** ** Vocabulary for the further properties of the run *)

(** The size criterion with the bound not yet reached. *)
Definition size_ok (e : Epidemic) : Prop :=
  e_stop_criterion e = NumInfected ∧ e_num_infected e < e_bound e.

(** A printed record [t u v i] is sound for the epidemic [id] on [g] with
    infection times [inf]: it carries the id, [u] has time [t > 0], [v] is
    an out-neighbour of [u], and [v] is infected, at [t + 1] at the latest. *)
Definition record_ok (g : graph) (id : Z) (inf : list Z)
    (r : Z * Z * Z * Z) : Prop :=
  r.2 = id ∧ 0 < r.1.1.1 ∧ aget inf r.1.1.2 = Ok r.1.1.1 ∧
  (∃ vs, links_of g r.1.1.2 = Ok vs ∧ r.1.2 ∈ vs) ∧
  0 < time_of inf r.1.2 ≤ r.1.1.1 + 1.

(** The step [t] of a record [t u v i]. *)
Definition rec_t (r : Z * Z * Z * Z) : Z := r.1.1.1.

(** [degrees[u]] as a number, 0 outside the graph, and the number of arcs
    of the graph. *)
Definition degree (g : graph) (u : Z) : nat :=
  match links_of g u with
  | Ok vs => length vs
  | Err _ => 0%nat
  end.

Definition total_arcs (g : graph) : nat := sum_list (length <$> g_links g).

(** ** scascade.c: initial conditions *)

(** [calloc(1, sizeof(InitialCondition))]: every field zero, and [MaxTime]
    is the enumerator 0. *)
Definition ic_zero : InitialCondition :=
  {| ic_id := 0; ic_infected := []; ic_bound := 0;
     ic_stop_criterion := MaxTime |}.

Definition ic_with_infected (ic : InitialCondition) (inf : list Z)
  : InitialCondition :=
  {| ic_id := ic_id ic; ic_infected := inf; ic_bound := ic_bound ic;
     ic_stop_criterion := ic_stop_criterion ic |}.

Definition ic_with_id (ic : InitialCondition) (id : Z) : InitialCondition :=
  {| ic_id := id; ic_infected := ic_infected ic; ic_bound := ic_bound ic;
     ic_stop_criterion := ic_stop_criterion ic |}.

Definition ic_with_bound (ic : InitialCondition) (bound : Z) (stop : Stopc)
  : InitialCondition :=
  {| ic_id := ic_id ic; ic_infected := ic_infected ic; ic_bound := bound;
     ic_stop_criterion := stop |}.

(** [ic_init]: [n] zeroed slots; [num_infected] is their number.  A
    negative [n] makes [calloc] fail, and the assertion with it; for
    [n = 0] the pointer glibc returns is not NULL. *)
Definition ic_init (ic : InitialCondition) (n : Z) : result InitialCondition :=
  if n <? 0 then Err AssertionFailed
  else Ok (ic_with_infected ic (replicate (Z.to_nat n) 0)).

(** [ic_clean]: the seed array is freed, [num_infected] is 0. *)
Definition ic_clean (ic : InitialCondition) : InitialCondition :=
  ic_with_infected ic [].

Definition ic_trivial : result InitialCondition :=
  ic ← ic_init ic_zero 1;
  inf ← aset (ic_infected ic) 0 0;
  Ok (ic_with_infected ic inf).

(** The condition of the second loop of [ic_infect_randomly],
    [(num_infected < total_nodes/2 && infected[v]) ||
     (num_infected > total_nodes/2 && !infected[v])],
    with the reads of [infected[v]] that C's short-circuit evaluation
    makes. *)
Definition selected (num total : Z) (marks : list Z) (v : Z) : result bool :=
  a ← (if num <? total ÷ 2
       then m ← aget marks v; Ok (negb (m =? 0))
       else Ok false);
  if (a : bool) then Ok true
  else if total ÷ 2 <? num
       then m ← aget marks v; Ok (m =? 0)
       else Ok false.

(** [for (v = 0; v < total_nodes; v++) if (...) ic->infected[i++] = v;]
    over the values [vs] of [v] still to come. *)
Fixpoint collect (num total : Z) (marks : list Z) (vs : list Z) (i : Z)
    (out : list Z) : result (list Z) :=
  match vs with
  | [] => Ok out
  | v :: vs' =>
      s ← selected num total marks v;
      if (s : bool)
      then out' ← aset out i v; collect num total marks vs' (i + 1) out'
      else collect num total marks vs' i out
  end.

Section Seeding.
(** [rand_seq k] is the value of the [k]-th call of [rand()]. *)
Variable rand_seq : nat → Z.

(** [do v = rand() % total_nodes; while (infected[v]);] with at most
    [fuel] draws; [None] when they are used up. *)
Fixpoint pick_free (fuel : nat) (total : Z) (marks : list Z) (w : World)
  : option (result (Z * World)) :=
  match fuel with
  | O => None
  | S fuel' =>
      let v := Z.rem (rand_seq (rand_calls w)) total in
      match aget marks v with
      | Err x => Some (Err x)
      | Ok m =>
          if m =? 0 then Some (Ok (v, draw w))
          else pick_free fuel' total marks (draw w)
      end
  end.

(** [for (i = 0; i < k; i++) { do ... while (...);
    infected[v] = !infected[v]; }], [k] being the rounds to come. *)
Fixpoint pick_loop (fuel : nat) (k : nat) (total : Z) (marks : list Z)
    (w : World) : option (result (list Z * World)) :=
  match k with
  | O => Some (Ok (marks, w))
  | S k' =>
      match pick_free fuel total marks w with
      | None => None
      | Some (Err x) => Some (Err x)
      | Some (Ok (v, w1)) =>
          match (m ← aget marks v;
                 aset marks v (if m =? 0 then 1 else 0)) with
          | Err x => Some (Err x)
          | Ok marks' => pick_loop fuel k' total marks' w1
          end
      end
  end.

(** [ic_infect_randomly]; [fuel] bounds the draws of each [do]-[while]
    loop. *)
Definition ic_infect_randomly (fuel : nat) (ic : InitialCondition)
    (total_nodes : Z) (w : World)
  : option (result (InitialCondition * World)) :=
  let num_infected := ic_num_infected ic in
  let infected := replicate (Z.to_nat total_nodes) 0 in
  if negb (num_infected <? total_nodes) then Some (Err AssertionFailed)
  else
    let k := if num_infected <=? total_nodes ÷ 2
             then num_infected else total_nodes - num_infected in
    match pick_loop fuel (Z.to_nat k) total_nodes infected w with
    | None => None
    | Some (Err x) => Some (Err x)
    | Some (Ok (infected', w')) =>
        match collect num_infected total_nodes infected'
                (seqZ 0 total_nodes) 0 (ic_infected ic) with
        | Err x => Some (Err x)
        | Ok out => Some (Ok (ic_with_infected ic out, w'))
        end
    end.

(** The residues [rand() % total] of the calls [c0, ..., c - 1]. *)
Definition drawn (total : Z) (c0 c : nat) (v : Z) : Prop :=
  ∃ j : nat, (c0 ≤ j < c)%nat ∧ Z.rem (rand_seq j) total = v.

(** Every window of [B] consecutive calls yields every residue. *)
Definition fair (total : Z) (B : nat) : Prop :=
  ∀ (c : nat) (v : Z), 0 ≤ v < total →
    ∃ j : nat, (j < B)%nat ∧ Z.rem (rand_seq (c + j)) total = v.
End Seeding.

(** The marks of [ic_infect_randomly] after the calls [c0 .. c - 1]: one
    slot per node, holding 1 for the residues drawn and 0 elsewhere. *)
Definition marks_ok (rand_seq : nat → Z) (total : Z) (c0 c : nat)
    (marks : list Z) : Prop :=
  Z.of_nat (length marks) = total ∧
  Forall (λ m, m = 0 ∨ m = 1) marks ∧
  ∀ v, 0 ≤ v < total →
       (time_of marks v = 1 ↔ drawn rand_seq total c0 c v).

(** The value of the condition of [selected] once [infected[v]] is known
    to be [m]. *)
Definition chosen (num total m : Z) : bool :=
  (num <? total ÷ 2) && negb (m =? 0) || (total ÷ 2 <? num) && (m =? 0).


(** ** scascade.c: reading initial conditions and bounds *)

(** A file open for reading, as [fscanf] with ["%d"] sees it: the fields
    still to be read, [Some z] for a field that reads as the integer [z]
    and [None] for one that does not. *)
Definition input := list (option Z).

(** [fscanf(input, "%d", &x) == 1]: the number read and the rest of the
    input; nothing at the end of the input or before a field that is no
    number. *)
Definition scan_int (inp : input) : option (Z * input) :=
  match inp with
  | Some z :: rest => Some (z, rest)
  | _ => None
  end.

(** [for (j = 0; j < num_infected; j++) { tokens_read = fscanf(input, "%d",
    &infected[j]); assert(tokens_read == 1); }], [n] rounds to come. *)
Fixpoint read_nodes (n : nat) (j : Z) (inf : list Z) (inp : input)
  : result (list Z * input) :=
  match n with
  | O => Ok (inf, inp)
  | S n' =>
      match scan_int inp with
      | None => Err AssertionFailed
      | Some (z, rest) =>
          inf' ← aset inf j z;
          read_nodes n' (j + 1) inf' rest
      end
  end.

(** Sequencing of steps that may fail or run out of fuel. *)
Definition and_then {A B : Type} (r : option (result A))
    (k : A → option (result B)) : option (result B) :=
  match r with
  | None => None
  | Some (Err x) => Some (Err x)
  | Some (Ok a) => k a
  end.

Section Reading.
Variable rand_seq : nat → Z.

(** The body of the loop of [ic_import] for one epidemic. *)
Definition import_one (fuel : nat) (inp : input) (total_nodes : Z)
    (w : World) : option (result (InitialCondition * input * World)) :=
  match scan_int inp with
  | None => Some (Err AssertionFailed)
  | Some (id, inp1) =>
      match scan_int inp1 with
      | None => Some (Err AssertionFailed)
      | Some (num_infected, inp2) =>
          if negb (0 <? num_infected) then Some (Err AssertionFailed)
          else
            and_then (Some (ic_init ic_zero num_infected)) (λ ic0,
              let ic1 := ic_with_id ic0 id in
              if negb (total_nodes =? 0)
              then and_then
                     (ic_infect_randomly rand_seq fuel ic1 total_nodes w)
                     (λ '(ic2, w'), Some (Ok (ic2, inp2, w')))
              else and_then
                     (Some (read_nodes (Z.to_nat num_infected) 0
                              (ic_infected ic1) inp2))
                     (λ '(inf, inp3),
                        Some (Ok (ic_with_infected ic1 inf, inp3, w))))
      end
  end.

(** [for (i = 0; i < epidemics; i++) ...], [n] epidemics to come; the
    array [*ic] is filled in order. *)
Fixpoint import_loop (fuel : nat) (n : nat) (inp : input) (total_nodes : Z)
    (w : World) : option (result (list InitialCondition * input * World)) :=
  match n with
  | O => Some (Ok ([], inp, w))
  | S n' =>
      and_then (import_one fuel inp total_nodes w) (λ '(ic, inp', w'),
        and_then (import_loop fuel n' inp' total_nodes w')
          (λ '(ics, inp'', w''), Some (Ok (ic :: ics, inp'', w''))))
  end.

(** [ic_import]; [None] as input is the NULL of a failed [fopen].  The
    number of epidemics returned is the length of the list. *)
Definition ic_import (fuel : nat) (inp : option input) (total_nodes : Z)
    (w : World) : option (result (list InitialCondition * input * World)) :=
  match inp with
  | None => Some (Err AssertionFailed)
  | Some inp =>
      match scan_int inp with
      | None => Some (Err AssertionFailed)
      | Some (epidemics, inp1) =>
          if negb (0 <? epidemics) then Some (Err AssertionFailed)
          else import_loop fuel (Z.to_nat epidemics) inp1 total_nodes w
      end
  end.
End Reading.

(** [for (i = 0; i < n; i++) ...] of [ic_import_bounds], [k] rounds to
    come. *)
Fixpoint bounds_loop (k : nat) (i : nat) (ics : list InitialCondition)
    (stop : Stopc) (inp : input) : result (list InitialCondition * input) :=
  match k with
  | O => Ok (ics, inp)
  | S k' =>
      match scan_int inp with
      | None => Err AssertionFailed
      | Some (id, inp1) =>
          match scan_int inp1 with
          | None => Err AssertionFailed
          | Some (bound, inp2) =>
              match ics !! i with
              | None => Err OutOfBounds
              | Some c =>
                  if negb (id =? ic_id c) then Err AssertionFailed
                  else bounds_loop k' (S i)
                         (<[i := ic_with_bound c bound stop]> ics) stop inp2
              end
          end
      end
  end.

Definition ic_import_bounds (ics : list InitialCondition) (n : Z)
    (stop_criterion : Stopc) (inp : option input)
  : result (list InitialCondition * input) :=
  if negb (0 <? n) then Err AssertionFailed
  else match inp with
       | None => Err AssertionFailed
       | Some inp => bounds_loop (Z.to_nat n) 0 ics stop_criterion inp
       end.

(** The file format the comment of [ic_import] gives:
    [<number of epidemics>], then for each epidemic
    [<epidemic id> <N> <node 1> ... <node N>]. *)
Definition ic_line (ic : InitialCondition) : input :=
  Some (ic_id ic) :: Some (ic_num_infected ic) :: (Some <$> ic_infected ic).

Definition ic_file (ics : list InitialCondition) : input :=
  Some (Z.of_nat (length ics)) :: concat (ic_line <$> ics).

(** The format the comment of [ic_import_bounds] gives: lines
    [<id> <bound>]. *)
Definition bounds_file (ids_bounds : list (Z * Z)) : input :=
  concat ((λ '(id, b), [Some id; Some b]) <$> ids_bounds).

(** An initial condition as [ic_import] leaves it: bound 0 and the
    criterion 0, that is [MaxTime]. *)
Definition unbounded (ic : InitialCondition) : Prop :=
  ic_bound ic = 0 ∧ ic_stop_criterion ic = MaxTime.


(** ** scascade.c: the driver *)

(** A line written to [data_output]:
    ["Epidemic id #i: started at t = t with num / n ( ..% ) infected nodes"]
    or ["Epidemic id #i: stopped at t = t with num / n ( ..% ) infected
    nodes and links links"]; the percentage is computed from [num] and
    [n]. *)
Inductive report :=
| Started (id i t num n : Z)
| Stopped (id i t num n links : Z).

(** [if (data_output) fprintf(data_output, ...)] *)
Definition say (data_output : bool) (log : list report) (r : report)
  : list report :=
  if data_output then log ++ [r] else log.

Section Driver.
Variable rand_seq : nat → Z.

(** The body of the loop over the samples of one initial condition:
    [epidemic_new], the line "started", [epidemic_run], the line
    "stopped". *)
Definition run_sample (p : Q) (g : graph) (ic : InitialCondition) (i : Z)
    (epidemic_output data_output : bool) (log : list report) (w : World)
  : option (result (list report * World)) :=
  and_then (Some (epidemic_new p g ic epidemic_output)) (λ e,
    let log1 := say data_output log
                  (Started (e_id e) i (e_t e) (e_num_infected e)
                     (g_n (e_g e))) in
    and_then (epidemic_run rand_seq e w) (λ '(e', w'),
      Some (Ok (say data_output log1
                  (Stopped (e_id e') i (e_t e') (e_num_infected e')
                     (g_n (e_g e')) (e_cascade_links e')),
                w')))).

(** [for (i = 1; i <= sample_epidemics; i++)], [k] rounds to come. *)
Fixpoint samples_loop (k : nat) (i : Z) (p : Q) (g : graph)
    (ic : InitialCondition) (epidemic_output data_output : bool)
    (log : list report) (w : World)
  : option (result (list report * World)) :=
  match k with
  | O => Some (Ok (log, w))
  | S k' =>
      and_then (run_sample p g ic i epidemic_output data_output log w)
        (λ '(log', w'),
           samples_loop k' (i + 1) p g ic epidemic_output data_output
             log' w')
  end.

(** [for (j = 0; j < epidemics; j++)] run by one thread, over the initial
    conditions still to come; each is cleaned after its samples. *)
Fixpoint epidemics_loop (ics : list InitialCondition) (p : Q) (g : graph)
    (sample_epidemics : Z) (epidemic_output data_output : bool)
    (log : list report) (w : World)
  : option (result (list InitialCondition * list report * World)) :=
  match ics with
  | [] => Some (Ok ([], log, w))
  | ic :: rest =>
      and_then (samples_loop (Z.to_nat sample_epidemics) 1 p g ic
                  epidemic_output data_output log w)
        (λ '(log', w'),
           and_then (epidemics_loop rest p g sample_epidemics
                       epidemic_output data_output log' w')
             (λ '(cleaned, log'', w''),
                Some (Ok (ic_clean ic :: cleaned, log'', w''))))
  end.

(** [main] from the list of initial conditions on, with one thread.
    [ic_list] is [None] without the option [-i], else what [fopen] gave;
    [bounds_list] is what [fopen] gave for the list of bounds; [g] is
    the graph the loader of [prelim.c] returned; [epidemic_output] and
    [data_output] tell whether these files are open. *)
Definition main_run (p : Q) (maxtime sample_epidemics : Z)
    (stop_criterion : Stopc) (ic_list : option (option input))
    (bounds_list : option input) (g : graph)
    (epidemic_output data_output : bool) (w : World)
  : option (result (list report * World)) :=
  and_then
    (match ic_list with
     | None => and_then (Some ic_trivial) (λ ic, Some (Ok ([ic], w)))
     | Some f =>
         and_then (ic_import rand_seq 0 f 0 w)
           (λ '(ics, _, w'), Some (Ok (ics, w')))
     end)
    (λ '(ics, w1),
       let epidemics := Z.of_nat (length ics) in
       and_then
         (Some (if negb (maxtime =? 0)
                then Ok ((λ c, ic_with_bound c maxtime MaxTime) <$> ics)
                else '(ics', _) ← ic_import_bounds ics epidemics
                                    stop_criterion bounds_list;
                     Ok ics'))
         (λ ics2,
            if negb (sample_epidemics =? 1) then Some (Err AssertionFailed)
            else
              and_then (epidemics_loop ics2 p g sample_epidemics
                          epidemic_output data_output [] w1)
                (λ '(_, log, w2), Some (Ok (log, w2))))).
End Driver.





(** ** scascade.c: the options of [main] *)

(** The variables [main] sets from its options.  A path is represented by
    whether it is set (for the trace output: set and not empty),
    [data_output] by whether it is open. *)
Record Params := mkParams {
  m_p : Q;
  m_maxtime : Z;
  m_sample_epidemics : Z;
  m_threads : Z;
  m_graph_path : bool;
  m_ic_list_path : bool;
  m_bounds_list_path : bool;
  m_trace_output_path : bool;
  m_data_output : bool;
  m_stop_criterion : Stopc
}.

(** The defaults of [main]; [stop_criterion] is declared without a value,
    [stop0] stands for whatever it holds. *)
Definition default_params (stop0 : Stopc) : Params :=
  {| m_p := 0; m_maxtime := 0; m_sample_epidemics := 1; m_threads := 1;
     m_graph_path := false; m_ic_list_path := false;
     m_bounds_list_path := false; m_trace_output_path := false;
     m_data_output := false; m_stop_criterion := stop0 |}.

(** An option as [getopt] returns it, with what [atof], [atoi] or [fopen]
    make of its argument; [Opt_other] is the ['?'] of an option that is
    not known. *)
Inductive option_arg :=
| Opt_p (x : Q)
| Opt_e (opened : bool)
| Opt_o (nonempty : bool)
| Opt_s (n : Z)
| Opt_g
| Opt_i
| Opt_t (n : Z)
| Opt_a
| Opt_b
| Opt_h (n : Z)
| Opt_other.

(** How the parsing of the options ends. *)
Inductive parsed :=
| Parsed (ps : Params)
| AssertFails
| Aborts.

Definition with_bound_option (ps : Params) (maxtime : Z) (path : bool)
    (stop : Stopc) : Params :=
  {| m_p := m_p ps; m_maxtime := maxtime;
     m_sample_epidemics := m_sample_epidemics ps; m_threads := m_threads ps;
     m_graph_path := m_graph_path ps; m_ic_list_path := m_ic_list_path ps;
     m_bounds_list_path := path;
     m_trace_output_path := m_trace_output_path ps;
     m_data_output := m_data_output ps; m_stop_criterion := stop |}.

(** One round of the [switch] over the options. *)
Definition set_option (ps : Params) (o : option_arg) : parsed :=
  match o with
  | Opt_p x =>
      Parsed {| m_p := x; m_maxtime := m_maxtime ps;
                m_sample_epidemics := m_sample_epidemics ps;
                m_threads := m_threads ps; m_graph_path := m_graph_path ps;
                m_ic_list_path := m_ic_list_path ps;
                m_bounds_list_path := m_bounds_list_path ps;
                m_trace_output_path := m_trace_output_path ps;
                m_data_output := m_data_output ps;
                m_stop_criterion := m_stop_criterion ps |}
  | Opt_e opened =>
      Parsed {| m_p := m_p ps; m_maxtime := m_maxtime ps;
                m_sample_epidemics := m_sample_epidemics ps;
                m_threads := m_threads ps; m_graph_path := m_graph_path ps;
                m_ic_list_path := m_ic_list_path ps;
                m_bounds_list_path := m_bounds_list_path ps;
                m_trace_output_path := m_trace_output_path ps;
                m_data_output := opened;
                m_stop_criterion := m_stop_criterion ps |}
  | Opt_o nonempty =>
      Parsed {| m_p := m_p ps; m_maxtime := m_maxtime ps;
                m_sample_epidemics := m_sample_epidemics ps;
                m_threads := m_threads ps; m_graph_path := m_graph_path ps;
                m_ic_list_path := m_ic_list_path ps;
                m_bounds_list_path := m_bounds_list_path ps;
                m_trace_output_path := nonempty;
                m_data_output := m_data_output ps;
                m_stop_criterion := m_stop_criterion ps |}
  | Opt_s n =>
      Parsed {| m_p := m_p ps; m_maxtime := m_maxtime ps;
                m_sample_epidemics := n;
                m_threads := m_threads ps; m_graph_path := m_graph_path ps;
                m_ic_list_path := m_ic_list_path ps;
                m_bounds_list_path := m_bounds_list_path ps;
                m_trace_output_path := m_trace_output_path ps;
                m_data_output := m_data_output ps;
                m_stop_criterion := m_stop_criterion ps |}
  | Opt_g =>
      Parsed {| m_p := m_p ps; m_maxtime := m_maxtime ps;
                m_sample_epidemics := m_sample_epidemics ps;
                m_threads := m_threads ps; m_graph_path := true;
                m_ic_list_path := m_ic_list_path ps;
                m_bounds_list_path := m_bounds_list_path ps;
                m_trace_output_path := m_trace_output_path ps;
                m_data_output := m_data_output ps;
                m_stop_criterion := m_stop_criterion ps |}
  | Opt_i =>
      Parsed {| m_p := m_p ps; m_maxtime := m_maxtime ps;
                m_sample_epidemics := m_sample_epidemics ps;
                m_threads := m_threads ps; m_graph_path := m_graph_path ps;
                m_ic_list_path := true;
                m_bounds_list_path := m_bounds_list_path ps;
                m_trace_output_path := m_trace_output_path ps;
                m_data_output := m_data_output ps;
                m_stop_criterion := m_stop_criterion ps |}
  | Opt_t n =>
      (* assert(bounds_list_path == NULL) *)
      if m_bounds_list_path ps then AssertFails
      else Parsed (with_bound_option ps n (m_bounds_list_path ps) MaxTime)
  | Opt_a =>
      (* assert(maxtime <= 0); stop_criterion = 'a' - 'a' *)
      if negb (m_maxtime ps <=? 0) then AssertFails
      else Parsed (with_bound_option ps (m_maxtime ps) true MaxTime)
  | Opt_b =>
      (* assert(maxtime <= 0); stop_criterion = 'b' - 'a' *)
      if negb (m_maxtime ps <=? 0) then AssertFails
      else Parsed (with_bound_option ps (m_maxtime ps) true NumInfected)
  | Opt_h n =>
      Parsed {| m_p := m_p ps; m_maxtime := m_maxtime ps;
                m_sample_epidemics := m_sample_epidemics ps;
                m_threads := n; m_graph_path := m_graph_path ps;
                m_ic_list_path := m_ic_list_path ps;
                m_bounds_list_path := m_bounds_list_path ps;
                m_trace_output_path := m_trace_output_path ps;
                m_data_output := m_data_output ps;
                m_stop_criterion := m_stop_criterion ps |}
  | Opt_other => Aborts
  end.

(** The [while] loop over the options. *)
Fixpoint parse_options (opts : list option_arg) (ps : Params) : parsed :=
  match opts with
  | [] => Parsed ps
  | o :: rest =>
      match set_option ps o with
      | Parsed ps' => parse_options rest ps'
      | end_ => end_
      end
  end.

(** The assertions on the parameters as the options left them. *)
Definition params_asserts (ps : Params) : result unit :=
  main_asserts (m_p ps) (m_sample_epidemics ps) (m_graph_path ps)
    (m_ic_list_path ps) (m_bounds_list_path ps) (m_maxtime ps)
    (m_threads ps).

(** [main] after the options: the assertions, then the run.  [ic_list]
    and [bounds_list] are what [fopen] gives for the two lists, the trace
    file is taken to open. *)
Definition main_checked (rand_seq : nat → Z) (ps : Params)
    (ic_list bounds_list : option input) (g : graph) (w : World)
  : option (result (list report * World)) :=
  and_then (Some (params_asserts ps)) (λ _,
    main_run rand_seq (m_p ps) (m_maxtime ps) (m_sample_epidemics ps)
      (m_stop_criterion ps)
      (if m_ic_list_path ps then Some ic_list else None)
      bounds_list g (m_trace_output_path ps) (m_data_output ps) w).

(** The parameters are the same but for a [stop_criterion] never set. *)
Definition same_params (ps ps' : Params) : Prop :=
  m_p ps' = m_p ps ∧ m_maxtime ps' = m_maxtime ps ∧
  m_sample_epidemics ps' = m_sample_epidemics ps ∧
  m_threads ps' = m_threads ps ∧ m_graph_path ps' = m_graph_path ps ∧
  m_ic_list_path ps' = m_ic_list_path ps ∧
  m_bounds_list_path ps' = m_bounds_list_path ps ∧
  m_trace_output_path ps' = m_trace_output_path ps ∧
  m_data_output ps' = m_data_output ps ∧
  (m_stop_criterion ps' = m_stop_criterion ps ∨
   (m_bounds_list_path ps = false ∧ m_maxtime ps = 0)) ∧
  (m_bounds_list_path ps = true → m_maxtime ps ≤ 0) ∧
  (m_bounds_list_path ps = false → m_maxtime ps ≠ 0 →
   m_stop_criterion ps = MaxTime).

(** The lines an epidemic that stops at its first node leaves in the data
    output. *)
Definition idle_lines (g : graph) (data_output : bool)
    (ic : InitialCondition) : list report :=
  if data_output
  then [Started (ic_id ic) 1 1 (ic_num_infected ic) (g_n g);
        Stopped (ic_id ic) 1 1 (ic_num_infected ic) (g_n g) 0]
  else [].

(** * Proofs *)

(** ** Arrays *)

Lemma aget_Ok a i x : aget a i = Ok x ↔ 0 ≤ i ∧ a !! Z.to_nat i = Some x.
Proof.
  unfold aget. destruct (Z.ltb_spec i 0).
  - split; [discriminate | lia].
  - destruct (a !! Z.to_nat i) eqn:E.
    + split; [intros [= ->]; done | intros [_ [= ->]]; done].
    + split; [discriminate | intros [_ [=]]].
Qed.

Lemma aset_Ok a i x a' :
  aset a i x = Ok a' ↔
  0 ≤ i < Z.of_nat (length a) ∧ a' = <[Z.to_nat i := x]> a.
Proof.
  unfold aset.
  destruct (Z.leb_spec 0 i), (Z.ltb_spec i (Z.of_nat (length a))); simpl;
    (split; [intros [= <-] | intros [? ->]]); (done || lia).
Qed.

Lemma aget_in_range a i x : aget a i = Ok x → 0 ≤ i < Z.of_nat (length a).
Proof.
  intros [? H]%aget_Ok. apply lookup_lt_Some in H. lia.
Qed.

Lemma aget_total a i : 0 ≤ i < Z.of_nat (length a) → ∃ x, aget a i = Ok x.
Proof.
  intros ?. destruct (lookup_lt_is_Some_2 a (Z.to_nat i)) as [x Hx]; [lia|].
  exists x. apply aget_Ok. split; [lia | done].
Qed.

Lemma time_of_Ok inf v t : aget inf v = Ok t → time_of inf v = t.
Proof. unfold time_of. by intros ->. Qed.

Lemma time_of_pos inf v :
  0 < time_of inf v → aget inf v = Ok (time_of inf v).
Proof.
  unfold time_of. destruct (aget inf v); [done | lia].
Qed.

Lemma time_of_insert_ne inf v x y :
  0 ≤ v → v ≠ y →
  time_of (<[Z.to_nat v := x]> inf) y = time_of inf y.
Proof.
  intros ? ?. unfold time_of, aget.
  destruct (Z.ltb_spec y 0); [done|].
  rewrite list_lookup_insert_ne; [done | lia].
Qed.

Lemma time_of_insert_eq inf v x :
  0 ≤ v < Z.of_nat (length inf) →
  time_of (<[Z.to_nat v := x]> inf) v = x.
Proof.
  intros ?. unfold time_of, aget.
  destruct (Z.ltb_spec v 0); [lia|].
  rewrite list_lookup_insert_eq; [done | lia].
Qed.

(** ** The ring buffer while it has not wrapped *)

Lemma queue_empty_true q : queue_empty q = true ↔ qbegin q = qend q.
Proof. unfold queue_empty. apply Z.eqb_eq. Qed.

Lemma queue_empty_false q : queue_empty q = false ↔ qbegin q ≠ qend q.
Proof. unfold queue_empty. apply Z.eqb_neq. Qed.

Lemma queue_add_lin q e :
  qlin q → qend q + 1 < qsize q →
  queue_add q e =
  Ok (mkQueue (qsize q) (qbegin q) (qend q + 1)
        (<[Z.to_nat (qend q) := e]> (qnodes q))).
Proof.
  intros (Hb & He & Hl) Hroom. unfold queue_add, queue_full.
  rewrite Z.rem_small by lia.
  destruct (Z.eqb_spec (qbegin q) (qend q + 1)); [lia|].
  assert (aset (qnodes q) (qend q) e
          = Ok (<[Z.to_nat (qend q) := e]> (qnodes q))) as ->.
  { apply aset_Ok. split; [lia | done]. }
  done.
Qed.

Lemma queue_get_lin q :
  qlin q → qbegin q < qend q →
  ∃ r, qnodes q !! Z.to_nat (qbegin q) = Some r ∧
       queue_get q =
       Ok (r, mkQueue (qsize q) (qbegin q + 1) (qend q) (qnodes q)).
Proof.
  intros (Hb & He & Hl) Hne.
  destruct (aget_total (qnodes q) (qbegin q)) as [r Hr]; [lia|].
  exists r. split; [by apply aget_Ok in Hr as [_ ?]|].
  unfold queue_get. rewrite Hr. simpl.
  destruct (queue_empty q) eqn:E.
  - apply queue_empty_true in E. lia.
  - rewrite Z.rem_small by lia. done.
Qed.

Lemma queue_contents_lin q : qlin q → queue_contents q = pending q.
Proof.
  intros (Hb & He & Hl). unfold queue_contents, pending, pushed.
  rewrite Z.mod_small by lia.
  apply list_eq. intros i.
  rewrite list_lookup_fmap, lookup_drop.
  destruct (decide (i < Z.to_nat (qend q - qbegin q))%nat) as [Hi|Hi].
  - rewrite lookup_seq_lt by done. simpl.
    rewrite Z.mod_small by lia.
    rewrite lookup_take_lt by lia.
    replace (Z.to_nat (qbegin q + Z.of_nat i))
      with (Z.to_nat (qbegin q) + i)%nat by lia.
    rewrite nth_lookup.
    destruct (lookup_lt_is_Some_2 (qnodes q) (Z.to_nat (qbegin q) + i))
      as [x ->]; [lia | done].
  - rewrite lookup_seq_ge by lia. simpl.
    rewrite lookup_take_ge by lia. done.
Qed.

Lemma pushed_add q e :
  qlin q →
  pushed (mkQueue (qsize q) (qbegin q) (qend q + 1)
            (<[Z.to_nat (qend q) := e]> (qnodes q)))
  = pushed q ++ [e].
Proof.
  intros (Hb & He & Hl). unfold pushed. simpl.
  replace (Z.to_nat (qend q + 1)) with (S (Z.to_nat (qend q))) by lia.
  rewrite (take_S_r _ _ e).
  - by rewrite take_insert_ge by lia.
  - apply list_lookup_insert_eq. lia.
Qed.

Lemma popped_add q e :
  qlin q →
  popped (mkQueue (qsize q) (qbegin q) (qend q + 1)
            (<[Z.to_nat (qend q) := e]> (qnodes q)))
  = popped q.
Proof.
  intros (Hb & He & Hl). unfold popped. simpl.
  apply take_insert_ge. lia.
Qed.

Lemma pending_add q e :
  qlin q →
  pending (mkQueue (qsize q) (qbegin q) (qend q + 1)
             (<[Z.to_nat (qend q) := e]> (qnodes q)))
  = pending q ++ [e].
Proof.
  intros Hq. unfold pending at 1. rewrite pushed_add by done. simpl.
  destruct Hq as (Hb & He & Hl).
  rewrite drop_app_le; [done|].
  unfold pushed. rewrite length_take. lia.
Qed.

Lemma pending_get q r :
  qlin q → qbegin q < qend q →
  qnodes q !! Z.to_nat (qbegin q) = Some r →
  pending q = r :: pending (mkQueue (qsize q) (qbegin q + 1) (qend q) (qnodes q)).
Proof.
  intros (Hb & He & Hl) Hne Hr. unfold pending, pushed. simpl.
  replace (Z.to_nat (qbegin q + 1)) with (S (Z.to_nat (qbegin q))) by lia.
  apply drop_S. rewrite lookup_take_lt by lia. done.
Qed.

Lemma popped_get q r :
  qlin q → qbegin q < qend q →
  qnodes q !! Z.to_nat (qbegin q) = Some r →
  popped (mkQueue (qsize q) (qbegin q + 1) (qend q) (qnodes q))
  = popped q ++ [r].
Proof.
  intros (Hb & He & Hl) Hne Hr. unfold popped. simpl.
  replace (Z.to_nat (qbegin q + 1)) with (S (Z.to_nat (qbegin q))) by lia.
  by apply take_S_r.
Qed.

Lemma pushed_split q : qlin q → pushed q = popped q ++ pending q.
Proof.
  intros (Hb & He & Hl). unfold pending, pushed, popped.
  rewrite <- (take_drop (Z.to_nat (qbegin q)) (take _ _)) at 1.
  rewrite take_take. f_equal. f_equal. lia.
Qed.

(** ** Counting infected nodes *)

Lemma count_infected_le inf : count_infected inf ≤ Z.of_nat (length inf).
Proof. unfold count_infected. pose proof (length_filter (λ t : Z, 0 < t) inf). lia. Qed.

Lemma count_infected_nonneg inf : 0 ≤ count_infected inf.
Proof. unfold count_infected. lia. Qed.

Lemma count_infected_insert inf i x :
  inf !! i = Some 0 → 0 < x →
  count_infected (<[i := x]> inf) = count_infected inf + 1.
Proof.
  unfold count_infected. revert i.
  induction inf as [|a inf IH]; intros i Hi Hx; [done|].
  destruct i as [|i]; simpl in *.
  - injection Hi as ->. rewrite !filter_cons.
    destruct (decide (0 < x)); [|lia].
    destruct (decide (0 < 0)); [lia|]. simpl. lia.
  - rewrite !filter_cons. specialize (IH i Hi Hx).
    destruct (decide (0 < a)); simpl; lia.
Qed.

Lemma count_infected_lt inf i :
  inf !! i = Some 0 → count_infected inf < Z.of_nat (length inf).
Proof.
  intros Hi.
  pose proof (count_infected_insert inf i 1 Hi ltac:(lia)) as H.
  pose proof (count_infected_le (<[i := 1]> inf)) as H'.
  rewrite length_insert in H'. lia.
Qed.

Lemma count_infected_replicate n : count_infected (replicate n 0) = 0.
Proof.
  unfold count_infected. induction n as [|n IH]; [done|].
  simpl. rewrite filter_cons. destruct (decide (0 < 0)); [lia | done].
Qed.

(** ** One trial *)

Section EngineFacts.

Variable rand_seq : nat → Z.

Lemma trial_cases e w u t v f e' w' :
  trial rand_seq e w u t v = Ok (f, e', w') →
  (success (e_p e) (rand_seq (rand_calls w)) = false ∧
   f = Continue ∧ e' = e ∧ w' = draw w)
  ∨ (success (e_p e) (rand_seq (rand_calls w)) = true ∧
     ∃ iv, aget (e_infected e) v = Ok iv ∧ iv ≠ 0 ∧ f = Continue ∧
           e' = (if iv =? t + 1 then incr_links e else e) ∧
           w' = print_record e' (draw w) t u v)
  ∨ (success (e_p e) (rand_seq (rand_calls w)) = true ∧
     aget (e_infected e) v = Ok 0 ∧
     ∃ q', queue_add (e_active e) v = Ok q' ∧
           e' = infect e (<[Z.to_nat v := t + 1]> (e_infected e)) q' t ∧
           w' = print_record e' (draw w) t u v ∧
           f = if Stopc_eqb (e_stop_criterion e) NumInfected
                   && (e_bound e =? e_num_infected e + 1)
               then Return else Continue).
Proof.
  unfold trial. intros H.
  destruct (success _ _); [|left; by inversion H].
  right. destruct (aget (e_infected e) v) as [iv|] eqn:Hiv; [|done].
  simpl in H. destruct (Z.eqb_spec iv 0) as [->|Hne].
  - right. split; [done|]. split; [done|].
    destruct (aset (e_infected e) v (t + 1)) as [inf'|] eqn:Hset; [|done].
    apply aset_Ok in Hset as [_ ->]. simpl in H.
    destruct (queue_add (e_active e) v) as [q'|]; [|done]. simpl in H.
    exists q'. split; [done|].
    destruct (Stopc_eqb _ _ && _); inversion H; done.
  - left. split; [done|]. exists iv. inversion H. done.
Qed.

End EngineFacts.

(** ** The state invariant *)

Lemma Inv_qlin seeds e : Inv seeds e → qlin (e_active e).
Proof.
  intros [? Hlen Hqs Hql Hb He Hc ? ? ? ?]. repeat split; try lia.
  pose proof (count_infected_le (e_infected e)). lia.
Qed.

Lemma Inv_num_le seeds e : Inv seeds e → 0 ≤ e_num_infected e ≤ g_n (e_g e).
Proof.
  intros [? Hlen Hqs Hql Hb He Hc ? ? ? ?].
  pose proof (count_infected_le (e_infected e)).
  pose proof (count_infected_nonneg (e_infected e)). lia.
Qed.

Lemma Inv_incr_links seeds e : Inv seeds e → Inv seeds (incr_links e).
Proof. intros []. by constructor. Qed.

Lemma Inv_set_active_get seeds e :
  Inv seeds e → qbegin (e_active e) < qend (e_active e) →
  Inv seeds (set_active e (mkQueue (qsize (e_active e))
                             (qbegin (e_active e) + 1)
                             (qend (e_active e)) (qnodes (e_active e)))).
Proof. intros [] ?. constructor; simpl; (done || lia). Qed.

(** A push of a node not yet infected finds room in the buffer. *)
Lemma Inv_room seeds e v :
  Inv seeds e → aget (e_infected e) v = Ok 0 →
  qend (e_active e) + 1 < qsize (e_active e).
Proof.
  intros [? Hlen Hqs Hql Hb He Hc ? ? ? ?] [? Hv]%aget_Ok.
  pose proof (count_infected_lt _ _ Hv). lia.
Qed.

Lemma Inv_infect seeds e v t :
  Inv seeds e → aget (e_infected e) v = Ok 0 → 0 ≤ t →
  Inv seeds
    (infect e (<[Z.to_nat v := t + 1]> (e_infected e))
       (mkQueue (qsize (e_active e)) (qbegin (e_active e))
          (qend (e_active e) + 1)
          (<[Z.to_nat (qend (e_active e)) := v]> (qnodes (e_active e))))
       t).
Proof.
  intros HI Hv Ht.
  pose proof (Inv_qlin _ _ HI) as Hq.
  pose proof (aget_in_range _ _ _ Hv) as Hr.
  pose proof (time_of_Ok _ _ _ Hv) as Htv.
  apply aget_Ok in Hv as [Hv0 Hv].
  destruct HI as [? Hlen Hqs Hql Hb He Hc Hnn Hp Hnd Hs].
  constructor; simpl; try done.
  - by rewrite length_insert.
  - by rewrite length_insert.
  - lia.
  - lia.
  - rewrite count_infected_insert by (done || lia). lia.
  - apply Forall_insert; [done | lia].
  - intros y. rewrite pushed_add by done. rewrite elem_of_app, list_elem_of_singleton.
    destruct (decide (y = v)) as [->|Hne].
    + rewrite time_of_insert_eq by done. split; [lia | auto].
    + rewrite time_of_insert_ne by done. rewrite Hp. split; [|auto].
      intros [?|?]; done.
  - rewrite pushed_add by done. apply NoDup_app. split; [done|]. split.
    + intros y Hy%Hp ->%list_elem_of_singleton. lia.
    + apply NoDup_singleton.
  - intros s Hin. specialize (Hs s Hin).
    rewrite time_of_insert_ne; [done | done | intros ->; lia].
Qed.

Section InvariantPreserved.

Variable rand_seq : nat → Z.

Lemma Inv_trial seeds e w u t v f e' w' :
  Inv seeds e → 0 ≤ t →
  trial rand_seq e w u t v = Ok (f, e', w') →
  Inv seeds e'.
Proof.
  intros HI Ht H.
  apply trial_cases in H
    as [(_ & _ & -> & _) | [(_ & iv & _ & _ & _ & -> & _)
                           | (_ & Hv & q' & Hq' & -> & _)]].
  - done.
  - destruct (iv =? t + 1); [by apply Inv_incr_links | done].
  - rewrite (queue_add_lin _ _ (Inv_qlin _ _ HI) (Inv_room _ _ _ HI Hv)) in Hq'.
    injection Hq' as <-. by apply Inv_infect.
Qed.

Lemma trial_total seeds e w u t v :
  Inv seeds e → in_range (e_g e) v →
  ∃ f e' w', trial rand_seq e w u t v = Ok (f, e', w').
Proof.
  intros HI Hv. unfold trial.
  destruct (success _ _); [|eauto].
  destruct (aget_total (e_infected e) v) as [iv Hiv].
  { rewrite (inv_len _ _ HI). done. }
  rewrite Hiv. simpl. destruct (Z.eqb_spec iv 0) as [->|]; [|eauto].
  assert (aset (e_infected e) v (t + 1)
          = Ok (<[Z.to_nat v := t + 1]> (e_infected e))) as ->.
  { apply aset_Ok. split; [|done]. rewrite (inv_len _ _ HI). done. }
  simpl.
  rewrite (queue_add_lin _ _ (Inv_qlin _ _ HI) (Inv_room _ _ _ HI Hiv)).
  simpl. destruct (_ && _); eauto.
Qed.

End InvariantPreserved.

(** ** The loops *)

Lemma links_of_wf g u :
  graph_wf g → in_range g u →
  ∃ vs, links_of g u = Ok vs ∧ Forall (in_range g) vs.
Proof.
  intros (Hn & Hl & Hall) [Hu0 Hu]. unfold links_of.
  destruct (Z.ltb_spec u 0); [lia|].
  destruct (lookup_lt_is_Some_2 (g_links g) (Z.to_nat u)) as [vs Hvs]; [lia|].
  rewrite Hvs. exists vs. split; [done|].
  by eapply Forall_lookup_1 in Hall.
Qed.

Section Loops.

Variable rand_seq : nat → Z.

(** Proof rule for the [for] loop: [P done e w] holds once the
    neighbours [done] have been tried. *)
Lemma for_links_inv (P : list Z → Epidemic → World → Prop) u t vs :
  (∀ pre v e w f e' w',
      v ∈ vs → P pre e w → trial rand_seq e w u t v = Ok (f, e', w') →
      P (pre ++ [v]) e' w') →
  ∀ e w f e' w',
    P [] e w → for_links rand_seq e w u t vs = Ok (f, e', w') →
    ∃ pre, P pre e' w' ∧ (f = Continue → pre = vs).
Proof.
  intros Hstep.
  assert (∀ vs2 pre e w f e' w',
             (∀ v, v ∈ vs2 → v ∈ vs) → P pre e w →
             for_links rand_seq e w u t vs2 = Ok (f, e', w') →
             ∃ pre', P (pre ++ pre') e' w' ∧ (f = Continue → pre' = vs2))
    as Hgen.
  { induction vs2 as [|v vs2 IH]; intros pre e w f e' w' Hsub HP H; simpl in H.
    - injection H as <- <- <-. exists []. by rewrite app_nil_r.
    - destruct (trial rand_seq e w u t v) as [[[f1 e1] w1]|] eqn:Ht; [|done].
      simpl in H.
      assert (P (pre ++ [v]) e1 w1) as HP1.
      { eapply Hstep; [|done..]. apply Hsub. left. }
      destruct f1.
      + destruct (IH (pre ++ [v]) e1 w1 f e' w') as (pre' & HP' & Hf);
          [intros; apply Hsub; by right | done | done |].
        exists (v :: pre'). rewrite <- app_assoc in HP'. split; [done|].
        intros ->. by rewrite Hf.
      + injection H as <- <- <-. exists [v]. split; [done | done]. }
  intros e w f e' w' HP H.
  by apply (Hgen vs [] e w f e' w').
Qed.

Lemma for_links_total (P : Epidemic → World → Prop) u t vs :
  (∀ v e w, v ∈ vs → P e w →
            ∃ f e' w', trial rand_seq e w u t v = Ok (f, e', w') ∧ P e' w') →
  ∀ e w, P e w → ∃ f e' w', for_links rand_seq e w u t vs = Ok (f, e', w').
Proof.
  intros Hstep.
  assert (∀ vs2 e w, (∀ v, v ∈ vs2 → v ∈ vs) → P e w →
            ∃ f e' w', for_links rand_seq e w u t vs2 = Ok (f, e', w'))
    as Hgen.
  { induction vs2 as [|v vs2 IH]; intros e w Hsub HP; simpl; [eauto|].
    destruct (Hstep v e w) as (f1 & e1 & w1 & -> & HP1);
      [apply Hsub; left | done |].
    simpl. destruct f1; [|eauto].
    apply IH; [intros; apply Hsub; by right | done]. }
  intros e w HP. by apply Hgen.
Qed.

Lemma run_body_cases seeds e w :
  Inv seeds e → queue_empty (e_active e) = false →
  ∃ u t,
    qnodes (e_active e) !! Z.to_nat (qbegin (e_active e)) = Some u ∧
    queue_get (e_active e) = Ok (u, e_active (dequeued e)) ∧
    aget (e_infected e) u = Ok t ∧ 0 < t ∧
    Inv seeds (dequeued e) ∧
    ((e_stop_criterion e = MaxTime ∧ e_bound e < t ∧
      run_body rand_seq e w = Ok (Return, dequeued e, w))
     ∨ (¬ (e_stop_criterion e = MaxTime ∧ e_bound e < t) ∧
        ∃ vs, links_of (e_g e) u = Ok vs ∧ Forall (in_range (e_g e)) vs ∧
              run_body rand_seq e w
              = for_links rand_seq (dequeued e) w u t vs)).
Proof.
  intros HI Hne. apply queue_empty_false in Hne.
  pose proof (Inv_qlin _ _ HI) as Hq.
  assert (qbegin (e_active e) < qend (e_active e)) as Hlt.
  { destruct Hq as ([? ?] & _). lia. }
  destruct (queue_get_lin _ Hq Hlt) as (u & Hu & Hget).
  assert (u ∈ pushed (e_active e)) as Hin.
  { apply elem_of_take. exists (Z.to_nat (qbegin (e_active e))).
    split; [done | destruct Hq as ([? ?] & _); lia]. }
  apply (inv_pushed _ _ HI) in Hin.
  pose proof (time_of_pos _ _ Hin) as Hut.
  exists u, (time_of (e_infected e) u).
  split; [done|]. split; [done|]. split; [done|]. split; [done|].
  split; [by apply Inv_set_active_get|].
  unfold run_body. rewrite Hget. simpl. fold (dequeued e). rewrite Hut. simpl.
  destruct (links_of_wf (e_g e) u) as (vs & Hvs & Hall).
  { apply (inv_graph _ _ HI). }
  { apply aget_in_range in Hut. rewrite (inv_len _ _ HI) in Hut. done. }
  destruct (e_stop_criterion e) eqn:Hstop; simpl.
  - destruct (Z.ltb_spec (e_bound e) (time_of (e_infected e) u)).
    + left. done.
    + right. split; [lia|]. exists vs. rewrite Hvs. done.
  - right. split; [intros [? _]; done|]. exists vs. rewrite Hvs. done.
Qed.

End Loops.

Lemma frame_refl e : frame e e.
Proof. by constructor. Qed.

Lemma frame_trans e1 e2 e3 : frame e1 e2 → frame e2 e3 → frame e1 e3.
Proof. intros [] []. constructor; congruence. Qed.

Lemma Inv_ext seeds e e' :
  e_g e' = e_g e → e_infected e' = e_infected e →
  e_active e' = e_active e → e_num_infected e' = e_num_infected e →
  Inv seeds e → Inv seeds e'.
Proof.
  intros Hg Hi Ha Hn []. constructor; rewrite ?Hg, ?Hi, ?Ha, ?Hn; done.
Qed.

Lemma Inv_seeds seeds seeds' e :
  (∀ s, s ∈ seeds' → time_of (e_infected e) s = 1) →
  Inv seeds e → Inv seeds' e.
Proof. intros ? []. by constructor. Qed.

Section LoopsPreserve.

Variable rand_seq : nat → Z.

Lemma trial_frame seeds e w u t v f e' w' :
  Inv seeds e →
  trial rand_seq e w u t v = Ok (f, e', w') → frame e e'.
Proof.
  intros HI H.
  apply trial_cases in H
    as [(_ & _ & -> & _) | [(_ & iv & _ & _ & _ & -> & _)
                           | (_ & Hv & q' & Hq' & -> & _)]].
  - apply frame_refl.
  - destruct (iv =? t + 1); by constructor.
  - rewrite (queue_add_lin _ _ (Inv_qlin _ _ HI) (Inv_room _ _ _ HI Hv)) in Hq'.
    injection Hq' as <-. constructor; simpl; try done.
    apply popped_add. by eapply Inv_qlin.
Qed.

Lemma for_links_Inv seeds e w u t vs f e' w' :
  Inv seeds e → 0 ≤ t →
  for_links rand_seq e w u t vs = Ok (f, e', w') →
  Inv seeds e' ∧ frame e e'.
Proof.
  intros HI Ht H.
  destruct (for_links_inv rand_seq
              (λ _ e1 _, Inv seeds e1 ∧ frame e e1) u t vs) with
    (2 := conj HI (frame_refl e)) (3 := H) as (_ & HP & _); [|done].
  intros pre v e1 w1 f1 e2 w2 _ [HI1 Hf1] Htr. split.
  - by eapply Inv_trial.
  - eapply frame_trans; [done|]. by eapply trial_frame.
Qed.

Lemma for_links_ok seeds e w u t vs :
  Inv seeds e → 0 ≤ t → Forall (in_range (e_g e)) vs →
  ∃ f e' w', for_links rand_seq e w u t vs = Ok (f, e', w').
Proof.
  intros HI Ht Hvs.
  apply (for_links_total rand_seq (λ e1 _, Inv seeds e1 ∧ e_g e1 = e_g e));
    [|done].
  intros v e1 w1 Hv [HI1 Hg1].
  destruct (trial_total rand_seq seeds e1 w1 u t v) as (f1 & e2 & w2 & Htr).
  { done. }
  { rewrite Hg1. by eapply Forall_forall in Hvs. }
  exists f1, e2, w2. split; [done|].
  pose proof (trial_frame _ _ _ _ _ _ _ _ _ HI1 Htr) as Hfr.
  split; [by eapply Inv_trial|].
  rewrite (fr_g _ _ Hfr). done.
Qed.

(** An iteration of the [while] loop succeeds and moves [begin] by one. *)
Lemma run_body_Inv seeds e w :
  Inv seeds e → queue_empty (e_active e) = false →
  ∃ f e' w',
    run_body rand_seq e w = Ok (f, e', w') ∧ Inv seeds e' ∧
    frame (dequeued e) e'.
Proof.
  intros HI Hne.
  destruct (run_body_cases rand_seq seeds e w HI Hne)
    as (u & t & Hu & Hget & Hut & Ht & HId &
        [(_ & _ & Hret) | (_ & vs & Hvs & Hall & Hloop)]).
  - exists Return, (dequeued e), w. split; [done|]. split; [done|].
    apply frame_refl.
  - destruct (for_links_ok seeds (dequeued e) w u t vs)
      as (f & e' & w' & Hfor); [done | lia | done |].
    exists f, e', w'. rewrite Hloop. split; [done|].
    eapply for_links_Inv; [done | | done]. lia.
Qed.

End LoopsPreserve.

(** ** Construction *)

Lemma time_of_replicate n v : time_of (replicate n 0) v = 0.
Proof.
  unfold time_of, aget. destruct (v <? 0); [done|].
  destruct (replicate n 0 !! Z.to_nat v) as [x|] eqn:E; [|done].
  by apply lookup_replicate in E as [-> _].
Qed.

Lemma Inv_seeding_start p g ic out :
  graph_wf g →
  Inv [] (seeding p g ic out 0 (queue_new (g_n g))
            (replicate (Z.to_nat (g_n g)) 0)).
Proof.
  intros Hg. pose proof Hg as (Hn & _ & _).
  constructor; simpl; try done.
  - rewrite length_replicate. lia.
  - rewrite length_replicate. lia.
  - by rewrite count_infected_replicate.
  - by apply Forall_replicate.
  - intros v. rewrite time_of_replicate. unfold pushed. simpl.
    split; [by intros ?%elem_of_nil | lia].
  - unfold pushed. simpl. apply NoDup_nil_2.
  - by intros s ?%elem_of_nil.
Qed.

Lemma seed_loop_Inv p g ic out rest :
  ∀ done k q inf,
    Inv done (seeding p g ic out k q inf) → pushed q = done →
    NoDup (done ++ rest) → Forall (in_range g) rest →
    ∃ q' inf',
      seed_loop rest q inf = Ok (q', inf') ∧
      Inv (done ++ rest)
        (seeding p g ic out (k + Z.of_nat (length rest)) q' inf') ∧
      pushed q' = done ++ rest ∧ qbegin q' = qbegin q.
Proof.
  induction rest as [|s rest IH]; intros done k q inf HI Hp Hnd Hr.
  - exists q, inf. simpl. rewrite app_nil_r, Z.add_0_r. done.
  - apply Forall_cons in Hr as [Hs Hr].
    assert (s ∉ done) as Hfresh.
    { apply NoDup_app in Hnd as (_ & Hd & _). intros Hin.
      apply (Hd s Hin). left. }
    assert (aget inf s = Ok 0) as Hs0.
    { destruct (aget_total inf s) as [x Hx].
      { pose proof (inv_len _ _ HI) as Hl. simpl in Hl. rewrite Hl. done. }
      pose proof (inv_nonneg _ _ HI) as Hnn. simpl in Hnn.
      pose proof Hx as [_ Hx']%aget_Ok.
      eapply Forall_lookup_1 in Hnn; [|done]. simpl in Hnn.
      destruct (decide (x = 0)) as [->|]; [done|].
      exfalso. apply Hfresh. rewrite <- Hp.
      apply (inv_pushed _ _ HI). simpl. rewrite (time_of_Ok _ _ _ Hx). lia. }
    pose proof (Inv_qlin _ _ HI) as Hq. simpl in Hq.
    simpl.
    rewrite (queue_add_lin _ _ Hq (Inv_room _ _ _ HI Hs0)). simpl.
    assert (aset inf s 1 = Ok (<[Z.to_nat s := 1]> inf)) as ->.
    { apply aset_Ok. split; [|done]. by eapply aget_in_range. }
    simpl.
    pose proof (Inv_infect _ _ s 0 HI Hs0 ltac:(lia)) as HI'. simpl in HI'.
    set (q1 := mkQueue _ _ _ _) in *.
    set (inf1 := <[Z.to_nat s := 0 + 1]> inf) in *.
    destruct (IH (done ++ [s]) (k + 1) q1 inf1) as (q' & inf' & Hl & HI2 & Hp2 & Hb2).
    + apply (Inv_seeds done).
      * intros x [Hx | ->%list_elem_of_singleton]%elem_of_app.
        -- by apply (inv_seeds _ _ HI').
        -- simpl. apply time_of_insert_eq. by eapply aget_in_range.
      * eapply Inv_ext; [..|exact HI']; done.
    + subst q1. rewrite pushed_add by done. by rewrite Hp.
    + by rewrite <- app_assoc.
    + done.
    + exists q', inf'. split; [exact Hl|].
      rewrite <- app_assoc in HI2, Hp2. simpl in HI2, Hp2.
      replace (k + Z.of_nat (S (length rest)))
        with (k + 1 + Z.of_nat (length rest)) by lia.
      done.
Qed.

Lemma epidemic_new_Inv p g ic out :
  graph_wf g → seeds_ok g ic →
  ∃ e0, epidemic_new p g ic out = Ok e0 ∧
        Inv (ic_infected ic) e0 ∧
        pushed (e_active e0) = ic_infected ic ∧
        qbegin (e_active e0) = 0 ∧
        e0 = seeding p g ic out (ic_num_infected ic)
               (e_active e0) (e_infected e0).
Proof.
  intros Hg [Hnd Hr].
  destruct (seed_loop_Inv p g ic out (ic_infected ic) [] 0
              (queue_new (g_n g)) (replicate (Z.to_nat (g_n g)) 0))
    as (q & inf & Hl & HI & Hp & Hb); try done.
  { by apply Inv_seeding_start. }
  unfold epidemic_new. rewrite Hl. simpl.
  eexists. split; [done|]. simpl. done.
Qed.

(** ** The run *)

Section Run.

Variable rand_seq : nat → Z.

Lemma at_loop_head_front e0 w0 e1 w1 e w :
  queue_empty (e_active e0) = false →
  run_body rand_seq e0 w0 = Ok (Continue, e1, w1) →
  at_loop_head rand_seq e1 w1 e w →
  at_loop_head rand_seq e0 w0 e w.
Proof.
  intros Hne Hb H. induction H as [|e w e' w' _ IH Hne' Hb'].
  - eapply head_next; [apply head_start | done..].
  - eapply head_next; done.
Qed.

Lemma finished_front e0 w0 e1 w1 e w :
  queue_empty (e_active e0) = false →
  run_body rand_seq e0 w0 = Ok (Continue, e1, w1) →
  finished rand_seq e1 w1 e w →
  finished rand_seq e0 w0 e w.
Proof.
  intros Hne Hb [[H Hemp] | (e2 & w2 & H & Hne2 & Hb2)].
  - left. split; [by eapply at_loop_head_front | done].
  - right. exists e2, w2. split; [by eapply at_loop_head_front | done].
Qed.

Lemma finished_observable e0 w0 e w :
  finished rand_seq e0 w0 e w → observable rand_seq e0 w0 e w.
Proof.
  intros [[H _] | H]; [by left | by right].
Qed.

Lemma run_fuel_finished fuel :
  ∀ e w e' w',
    run_fuel rand_seq fuel e w = Some (Ok (e', w')) →
    finished rand_seq e w e' w'.
Proof.
  induction fuel as [|fuel IH]; intros e w e' w' H; [done|].
  simpl in H. destruct (queue_empty (e_active e)) eqn:Hemp.
  - injection H as <- <-. left. split; [apply head_start | done].
  - destruct (run_body rand_seq e w) as [[[[] e1] w1]|] eqn:Hb; [| |done].
    + eapply finished_front; [done..|]. by apply IH.
    + injection H as <- <-. right. exists e, w.
      split; [apply head_start | done].
Qed.

Lemma Inv_at_loop_head seeds e0 w0 e w :
  Inv seeds e0 → at_loop_head rand_seq e0 w0 e w → Inv seeds e.
Proof.
  intros HI0 H. induction H as [|e w e' w' _ IH Hne Hb]; [done|].
  destruct (run_body_Inv rand_seq seeds e w IH Hne)
    as (f & e2 & w2 & Hb2 & HI2 & _).
  rewrite Hb in Hb2. by injection Hb2 as <- <- <-.
Qed.

Lemma Inv_observable seeds e0 w0 e w :
  Inv seeds e0 → observable rand_seq e0 w0 e w → Inv seeds e.
Proof.
  intros HI0 [H | (e1 & w1 & H & Hne & Hb)].
  - by eapply Inv_at_loop_head.
  - pose proof (Inv_at_loop_head _ _ _ _ _ HI0 H) as HI1.
    destruct (run_body_Inv rand_seq seeds e1 w1 HI1 Hne)
      as (f & e2 & w2 & Hb2 & HI2 & _).
    rewrite Hb in Hb2. by injection Hb2 as <- <-.
Qed.

(** Every iteration dequeues a node and at most [n] nodes are enqueued:
    [n - begin + 1] iterations suffice. *)
Lemma run_fuel_total seeds fuel :
  ∀ e w,
    Inv seeds e →
    (Z.to_nat (g_n (e_g e) - qbegin (e_active e)) < fuel)%nat →
    ∃ e' w', run_fuel rand_seq fuel e w = Some (Ok (e', w')).
Proof.
  induction fuel as [|fuel IH]; intros e w HI Hfuel; [lia|].
  simpl. destruct (queue_empty (e_active e)) eqn:Hemp; [eauto|].
  destruct (run_body_Inv rand_seq seeds e w HI Hemp)
    as (f & e1 & w1 & -> & HI1 & Hfr).
  destruct f; [|eauto].
  apply IH; [done|].
  rewrite (fr_g _ _ Hfr), (fr_begin _ _ Hfr). simpl.
  apply queue_empty_false in Hemp.
  pose proof (inv_begin _ _ HI). pose proof (inv_end _ _ HI).
  pose proof (Inv_num_le _ _ HI). lia.
Qed.

Lemma epidemic_run_total seeds e w :
  Inv seeds e →
  ∃ e' w', epidemic_run rand_seq e w = Some (Ok (e', w')) ∧
           finished rand_seq e w e' w' ∧ Inv seeds e'.
Proof.
  intros HI. unfold epidemic_run.
  destruct (run_fuel_total seeds (S (Z.to_nat (g_n (e_g e)))) e w HI)
    as (e' & w' & H).
  { pose proof (inv_begin _ _ HI). lia. }
  exists e', w'. split; [done|].
  apply run_fuel_finished in H. split; [done|].
  eapply Inv_observable; [done|]. by apply finished_observable.
Qed.

(** More fuel does not change the result. *)
Lemma run_fuel_mono fuel :
  ∀ fuel' e w r,
    run_fuel rand_seq fuel e w = Some r → (fuel ≤ fuel')%nat →
    run_fuel rand_seq fuel' e w = Some r.
Proof.
  induction fuel as [|fuel IH]; intros fuel' e w r H Hle; [done|].
  destruct fuel' as [|fuel']; [lia|].
  simpl in *. destruct (queue_empty (e_active e)); [done|].
  destruct (run_body rand_seq e w) as [[[[] e1] w1]|]; [|done..].
  apply IH; [done | lia].
Qed.

End Run.

(** ** Runs depend on the draws only through the outcome of the trials *)

Lemma success_one r : 0 ≤ r ≤ RAND_MAX → success 1 r = true.
Proof.
  intros Hr. unfold success. apply Qle_bool_iff.
  unfold Qle. simpl. lia.
Qed.

Lemma trial_p rand_seq e w u t v f e' w' :
  trial rand_seq e w u t v = Ok (f, e', w') → e_p e' = e_p e.
Proof.
  intros H.
  apply trial_cases in H
    as [(_ & _ & -> & _) | [(_ & iv & _ & _ & _ & -> & _)
                           | (_ & _ & q' & _ & -> & _)]]; [done| |done].
  by destruct (iv =? t + 1).
Qed.

Section Extensionality.

Variables (rand rand' : nat → Z) (p : Q).
Hypothesis same : ∀ k, success p (rand k) = success p (rand' k).

Lemma trial_ext e w u t v :
  e_p e = p → trial rand e w u t v = trial rand' e w u t v.
Proof using same. intros Hp. unfold trial. by rewrite Hp, same. Qed.

Lemma for_links_ext u t vs :
  ∀ e w, e_p e = p →
         for_links rand e w u t vs = for_links rand' e w u t vs.
Proof using same.
  induction vs as [|v vs IH]; intros e w Hp; [done|].
  simpl. rewrite <- (trial_ext e w u t v Hp).
  destruct (trial rand e w u t v) as [[[f e1] w1]|] eqn:Ht; [|done].
  simpl. destruct f; [|done].
  apply IH. by rewrite (trial_p _ _ _ _ _ _ _ _ _ Ht).
Qed.

Lemma run_body_ext e w :
  e_p e = p → run_body rand e w = run_body rand' e w.
Proof using same.
  intros Hp. unfold run_body.
  destruct (queue_get (e_active e)) as [[u q']|]; [|done]. simpl.
  destruct (aget (e_infected e) u) as [t|]; [|done]. simpl.
  destruct (_ && _); [done|].
  destruct (links_of (e_g e) u) as [vs|]; [|done]. simpl.
  by apply for_links_ext.
Qed.

Lemma run_body_p e w f e' w' :
  run_body rand e w = Ok (f, e', w') → e_p e' = e_p e.
Proof.
  unfold run_body. intros H.
  destruct (queue_get (e_active e)) as [[u q']|]; [|done]. simpl in H.
  destruct (aget (e_infected e) u) as [t|]; [|done]. simpl in H.
  destruct (_ && _); [by injection H as <- <- <-|].
  destruct (links_of (e_g e) u) as [vs|]; [|done]. simpl in H.
  clear -H.
  change (e_p e) with (e_p (set_active e q')).
  generalize dependent (set_active e q'). clear e. revert w.
  induction vs as [|v vs IH]; intros w e H; simpl in H.
  - by injection H as <- <- <-.
  - destruct (trial rand e w u t v) as [[[f1 e1] w1]|] eqn:Ht; [|done].
    simpl in H. rewrite <- (trial_p _ _ _ _ _ _ _ _ _ Ht).
    destruct f1; [by eapply IH | by injection H as <- <- <-].
Qed.

Lemma run_fuel_ext fuel :
  ∀ e w, e_p e = p → run_fuel rand fuel e w = run_fuel rand' fuel e w.
Proof using same.
  induction fuel as [|fuel IH]; intros e w Hp; [done|].
  simpl. destruct (queue_empty (e_active e)); [done|].
  rewrite <- (run_body_ext e w Hp).
  destruct (run_body rand e w) as [[[[] e1] w1]|] eqn:Hb; [|done..].
  apply IH. by rewrite (run_body_p _ _ _ _ _ Hb).
Qed.

Lemma simulate_ext g ic : simulate rand p g ic = simulate rand' p g ic.
Proof using same.
  unfold simulate.
  destruct (epidemic_new p g ic true) as [e|] eqn:He; [|done].
  apply run_fuel_ext. unfold epidemic_new in He.
  destruct (seed_loop _ _ _) as [[q inf]|]; [|done].
  simpl in He. by injection He as <-.
Qed.

End Extensionality.

(** With [p = 1] every draw of [rand()] is a success: the run does not
    depend on the draws. *)
Lemma simulate_certain rand g ic :
  (∀ k, 0 ≤ rand k ≤ RAND_MAX) →
  simulate rand 1 g ic = simulate (λ _, 0) 1 g ic.
Proof.
  intros Hr. apply simulate_ext. intros k.
  rewrite !success_one; [done | done | apply Hr].
Qed.

(** ** Scenarios *)

(** C3.  Line graph 0→1→2→3→4 with seed 0, [p = 1], depth bound 2: the
    run ends with [infected = [1,2,3,0,0]], three infected nodes, and has
    printed exactly the records [1 0 1 id] and [2 1 2 id], in that order. *)
Theorem line_graph_depth_two (rand : nat → Z) (id : Z) :
  (∀ k, 0 ≤ rand k ≤ RAND_MAX) →
  ∃ e w,
    simulate rand 1 line5 (mkIC id [0] 2 MaxTime) = Some (Ok (e, w)) ∧
    e_infected e = [1; 2; 3; 0; 0] ∧
    e_num_infected e = 3 ∧
    trace w = [(1, 0, 1, id); (2, 1, 2, id)].
Proof.
  intros Hr. rewrite (simulate_certain rand) by done.
  eexists _, _. split; [vm_compute; reflexivity|].
  simpl. done.
Qed.

Lemma line_graph_depth_two_witness :
  ∃ e w,
    simulate (λ _, RAND_MAX) 1 line5 (mkIC 7 [0] 2 MaxTime)
    = Some (Ok (e, w)) ∧
    e_infected e = [1; 2; 3; 0; 0] ∧
    e_num_infected e = 3 ∧
    trace w = [(1, 0, 1, 7); (2, 1, 2, 7)].
Proof.
  apply (line_graph_depth_two (λ _, RAND_MAX) 7).
  intros _. unfold RAND_MAX. lia.
Defined.

(** ** The depth bound *)

(** C5.  With the depth criterion, when the node [u] taken from the queue
    has [t = infected[u] > bound] the run returns at once: the final state
    is the state right after the dequeue ([infected], [num_infected] and
    [cascade_links] as they were), and the world is untouched: no call to
    [rand()], no record printed; no further node leaves the queue. *)
Theorem maxdepth_early_exit (rand : nat → Z) (e : Epidemic) (w : World)
    (u : Z) (q' : Queue) (t : Z) (fuel : nat) :
  e_stop_criterion e = MaxTime →
  queue_get (e_active e) = Ok (u, q') →
  aget (e_infected e) u = Ok t →
  e_bound e < t →
  ∃ e',
    run_body rand e w = Ok (Return, e', w) ∧
    run_fuel rand (S fuel) e w = Some (Ok (e', w)) ∧
    e_active e' = q' ∧
    e_infected e' = e_infected e ∧
    e_num_infected e' = e_num_infected e ∧
    e_cascade_links e' = e_cascade_links e.
Proof.
  intros Hstop Hget Ht Hb.
  assert (run_body rand e w = Ok (Return, set_active e q', w)) as Hbody.
  { unfold run_body. rewrite Hget. simpl. rewrite Ht. simpl. rewrite Hstop.
    simpl. destruct (Z.ltb_spec (e_bound e) t); [done | lia]. }
  exists (set_active e q'). split; [done|]. split; [|done].
  simpl. rewrite Hbody.
  destruct (queue_empty (e_active e)) eqn:Hemp; [|done].
  unfold queue_get in Hget. rewrite Hemp in Hget.
  destruct (aget (qnodes (e_active e)) (qbegin (e_active e))); done.
Qed.

Lemma maxdepth_early_exit_witness :
  ∃ e',
    run_body (λ _, 0)
      (mkEpidemic 7 1 1 0 0 MaxTime 1 line5 true [1; 0; 0; 0; 0]
         (mkQueue 6 0 1 [0; 0; 0; 0; 0; 0])) world0
    = Ok (Return, e', world0) ∧
    run_fuel (λ _, 0) 6
      (mkEpidemic 7 1 1 0 0 MaxTime 1 line5 true [1; 0; 0; 0; 0]
         (mkQueue 6 0 1 [0; 0; 0; 0; 0; 0])) world0
    = Some (Ok (e', world0)) ∧
    e_active e' = mkQueue 6 1 1 [0; 0; 0; 0; 0; 0] ∧
    e_infected e' = [1; 0; 0; 0; 0] ∧
    e_num_infected e' = 1 ∧
    e_cascade_links e' = 0.
Proof.
  apply (maxdepth_early_exit (λ _, 0)
           (mkEpidemic 7 1 1 0 0 MaxTime 1 line5 true [1; 0; 0; 0; 0]
              (mkQueue 6 0 1 [0; 0; 0; 0; 0; 0]))
           world0 0 (mkQueue 6 1 1 [0; 0; 0; 0; 0; 0]) 1 5).
  - reflexivity.
  - reflexivity.
  - reflexivity.
  - simpl. lia.
Defined.

(** ** Counting and the capacity of the buffer *)

Lemma Inv_not_full seeds e v :
  Inv seeds e → aget (e_infected e) v = Ok 0 →
  queue_full (e_active e) = false.
Proof.
  intros HI Hv. pose proof (Inv_room _ _ _ HI Hv) as Hroom.
  pose proof (inv_begin _ _ HI) as Hb.
  unfold queue_full. rewrite Z.rem_small by lia.
  apply Z.eqb_neq. lia.
Qed.

(** C7.  For distinct seeds inside [[0, n)], [num_infected] equals the
    number of nodes [v] with [infected[v] > 0] at every observable point
    of the run: after construction, after each dequeued node has been
    processed, and in the state in which the run ends (which exists). *)
Theorem num_infected_is_count (rand : nat → Z) (p : Q) (g : graph)
    (ic : InitialCondition) (out : bool) (w0 : World) :
  graph_wf g → seeds_ok g ic →
  ∃ e0,
    epidemic_new p g ic out = Ok e0 ∧
    (∀ e w, observable rand e0 w0 e w →
            e_num_infected e = count_infected (e_infected e)) ∧
    ∃ e' w', epidemic_run rand e0 w0 = Some (Ok (e', w')) ∧
             observable rand e0 w0 e' w'.
Proof.
  intros Hg Hs.
  destruct (epidemic_new_Inv p g ic out Hg Hs) as (e0 & Hnew & HI & _).
  exists e0. split; [done|]. split.
  - intros e w Hobs. apply (inv_count (ic_infected ic)).
    by eapply Inv_observable.
  - destruct (epidemic_run_total rand _ e0 w0 HI) as (e' & w' & Hrun & Hfin & _).
    exists e', w'. split; [done|]. by apply finished_observable.
Qed.

Lemma num_infected_is_count_witness :
  ∃ e0,
    epidemic_new 1 line5 (mkIC 7 [0] 2 MaxTime) true = Ok e0 ∧
    (∀ e w, observable (λ _, 0) e0 world0 e w →
            e_num_infected e = count_infected (e_infected e)) ∧
    ∃ e' w', epidemic_run (λ _, 0) e0 world0 = Some (Ok (e', w')) ∧
             observable (λ _, 0) e0 world0 e' w'.
Proof.
  apply (num_infected_is_count (λ _, 0) 1 line5 (mkIC 7 [0] 2 MaxTime)
           true world0).
  - apply (bool_decide_unpack _). vm_compute. reflexivity.
  - apply (bool_decide_unpack _). vm_compute. reflexivity.
Defined.

Lemma static_refl e : static e e.
Proof. by constructor. Qed.

Lemma static_trans e1 e2 e3 : static e1 e2 → static e2 e3 → static e1 e3.
Proof. intros [] []. constructor; congruence. Qed.

Lemma frame_dequeued_static e e' : frame (dequeued e) e' → static e e'.
Proof. intros []. by constructor. Qed.

Section Static.

Variable rand_seq : nat → Z.

Lemma run_body_static seeds e w f e' w' :
  Inv seeds e → queue_empty (e_active e) = false →
  run_body rand_seq e w = Ok (f, e', w') → static e e'.
Proof.
  intros HI Hne Hb.
  destruct (run_body_Inv rand_seq seeds e w HI Hne)
    as (f2 & e2 & w2 & Hb2 & _ & Hfr).
  rewrite Hb in Hb2. injection Hb2 as <- <- <-.
  by apply frame_dequeued_static.
Qed.

Lemma at_loop_head_static seeds e0 w0 e w :
  Inv seeds e0 → at_loop_head rand_seq e0 w0 e w → static e0 e.
Proof.
  intros HI0 H. induction H as [|e w e' w' H IH Hne Hb].
  - apply static_refl.
  - eapply static_trans; [done|].
    eapply run_body_static; [|done..]. by eapply Inv_at_loop_head.
Qed.

Lemma observable_static seeds e0 w0 e w :
  Inv seeds e0 → observable rand_seq e0 w0 e w → static e0 e.
Proof.
  intros HI0 [H | (e1 & w1 & H & Hne & Hb)].
  - by eapply at_loop_head_static.
  - eapply static_trans; [by eapply at_loop_head_static|].
    eapply run_body_static; [|done..]. by eapply Inv_at_loop_head.
Qed.

End Static.

Lemma epidemic_new_fields p g ic out e0 :
  epidemic_new p g ic out = Ok e0 →
  e_g e0 = g ∧ e_bound e0 = ic_bound ic ∧
  e_stop_criterion e0 = ic_stop_criterion ic ∧ e_p e0 = p ∧
  e_id e0 = ic_id ic ∧ e_output e0 = out ∧
  e_num_infected e0 = ic_num_infected ic ∧ e_cascade_links e0 = 0 ∧
  e_t e0 = 1.
Proof.
  unfold epidemic_new. destruct (seed_loop _ _ _) as [[q inf]|]; [|done].
  simpl. by intros [= <-].
Qed.

(** C6.  For distinct seeds inside [[0, n)] neither construction nor the
    run ever finds the buffer full: both return normally, while a push
    on a full buffer answers [AssertionFailed] and an error aborts the
    run.  The buffer has [n + 1] slots; at every
    observable point the slots written so far hold pairwise distinct
    nodes, namely the infected ones, their number [qend] is
    [num_infected ≤ n], the buffer has not wrapped around, and a push of
    any node not yet infected would find room. *)
Theorem push_never_full (rand : nat → Z) (p : Q) (g : graph)
    (ic : InitialCondition) (out : bool) (w0 : World) :
  graph_wf g → seeds_ok g ic →
  ∃ e0,
    epidemic_new p g ic out = Ok e0 ∧
    qsize (e_active e0) = g_n g + 1 ∧
    Z.of_nat (length (qnodes (e_active e0))) = g_n g + 1 ∧
    (∀ q v, queue_full q = true → queue_add q v = Err AssertionFailed) ∧
    (∃ e' w', epidemic_run rand e0 w0 = Some (Ok (e', w'))) ∧
    ∀ e w, observable rand e0 w0 e w →
      NoDup (pushed (e_active e)) ∧
      (∀ v, v ∈ pushed (e_active e) ↔ 0 < time_of (e_infected e) v) ∧
      qend (e_active e) = e_num_infected e ∧
      e_num_infected e ≤ g_n g ∧
      queue_contents (e_active e) = pending (e_active e) ∧
      (∀ v, aget (e_infected e) v = Ok 0 →
            queue_full (e_active e) = false).
Proof.
  intros Hg Hs.
  destruct (epidemic_new_Inv p g ic out Hg Hs) as (e0 & Hnew & HI & _).
  pose proof (epidemic_new_fields _ _ _ _ _ Hnew) as (Hg0 & _).
  exists e0. split; [done|].
  split; [rewrite <- Hg0; apply (inv_qsize _ _ HI)|].
  split; [rewrite <- Hg0; apply (inv_qlen _ _ HI)|].
  split; [intros q v Hfull; unfold queue_add; by rewrite Hfull|].
  split.
  { destruct (epidemic_run_total rand _ e0 w0 HI) as (e' & w' & Hrun & _).
    eauto. }
  intros e w Hobs.
  pose proof (Inv_observable _ _ _ _ _ _ HI Hobs) as HIe.
  pose proof (observable_static _ _ _ _ _ _ HI Hobs) as Hst.
  split; [apply (inv_nodup _ _ HIe)|].
  split; [apply (inv_pushed _ _ HIe)|].
  split; [apply (inv_end _ _ HIe)|].
  split.
  { pose proof (Inv_num_le _ _ HIe). rewrite (st_g _ _ Hst), Hg0 in *. lia. }
  split; [apply queue_contents_lin; by eapply Inv_qlin|].
  intros v Hv. by eapply Inv_not_full.
Qed.

Lemma push_never_full_witness :
  ∃ e0,
    epidemic_new 1 star5 (mkIC 7 [0] 3 NumInfected) true = Ok e0 ∧
    qsize (e_active e0) = 6 ∧
    Z.of_nat (length (qnodes (e_active e0))) = 6 ∧
    (∀ q v, queue_full q = true → queue_add q v = Err AssertionFailed) ∧
    (∃ e' w', epidemic_run (λ _, 0) e0 world0 = Some (Ok (e', w'))) ∧
    ∀ e w, observable (λ _, 0) e0 world0 e w →
      NoDup (pushed (e_active e)) ∧
      (∀ v, v ∈ pushed (e_active e) ↔ 0 < time_of (e_infected e) v) ∧
      qend (e_active e) = e_num_infected e ∧
      e_num_infected e ≤ 5 ∧
      queue_contents (e_active e) = pending (e_active e) ∧
      (∀ v, aget (e_infected e) v = Ok 0 →
            queue_full (e_active e) = false).
Proof.
  apply (push_never_full (λ _, 0) 1 star5 (mkIC 7 [0] 3 NumInfected)
           true world0).
  - apply (bool_decide_unpack _). vm_compute. reflexivity.
  - apply (bool_decide_unpack _). vm_compute. reflexivity.
Defined.

(** ** The size bound *)

Section SizeBound.

Variable rand_seq : nat → Z.

Lemma trial_no_size_stop e w u t v f e' w' :
  no_size_stop e → trial rand_seq e w u t v = Ok (f, e', w') →
  f = Continue ∧ no_size_stop e'.
Proof.
  intros [Hs Hb] H.
  apply trial_cases in H
    as [(_ & -> & -> & _) | [(_ & iv & _ & _ & -> & -> & _)
                            | (_ & _ & q' & _ & -> & _ & ->)]].
  - done.
  - split; [done|]. by destruct (iv =? t + 1).
  - split; [|split; simpl; [done | lia]].
    destruct (Z.eqb_spec (e_bound e) (e_num_infected e + 1)); [lia|].
    by rewrite andb_false_r.
Qed.

Lemma for_links_no_size_stop u t vs :
  ∀ e w f e' w',
    no_size_stop e → for_links rand_seq e w u t vs = Ok (f, e', w') →
    f = Continue ∧ no_size_stop e'.
Proof.
  induction vs as [|v vs IH]; intros e w f e' w' Hn H; simpl in H.
  - by injection H as <- <- <-.
  - destruct (trial rand_seq e w u t v) as [[[f1 e1] w1]|] eqn:Ht; [|done].
    destruct (trial_no_size_stop _ _ _ _ _ _ _ _ Hn Ht) as [-> Hn1].
    simpl in H. by eapply IH.
Qed.

Lemma run_body_no_size_stop e w f e' w' :
  no_size_stop e →
  run_body rand_seq e w = Ok (f, e', w') →
  f = Continue ∧ no_size_stop e'.
Proof.
  intros Hn Hb. unfold run_body in Hb.
  destruct (queue_get (e_active e)) as [[u q']|]; [|done]. simpl in Hb.
  destruct (aget (e_infected e) u) as [t|]; [|done]. simpl in Hb.
  destruct Hn as [Hs Hle]. rewrite Hs in Hb. simpl in Hb.
  destruct (links_of (e_g e) u) as [vs|]; [|done]. simpl in Hb.
  eapply for_links_no_size_stop; [|done]. by split.
Qed.

Lemma at_loop_head_no_size_stop seeds e0 w0 e w :
  Inv seeds e0 → no_size_stop e0 →
  at_loop_head rand_seq e0 w0 e w → no_size_stop e.
Proof.
  intros HI0 Hn0 H. induction H as [|e w e' w' H IH Hne Hb]; [done|].
  by eapply run_body_no_size_stop.
Qed.

End SizeBound.

(** C9.  With the size criterion, an iteration entered with
    [bound ≤ num_infected] does not return and leaves [bound ≤
    num_infected].  So with a bound not above the number of seeds
    (distinct, inside [[0, n)]), no iteration of the loop returns:
    the run ends at a loop head with the queue empty, and [num_infected]
    is then at least the bound.  It can be larger: on the line graph with
    seed 0, [p = 1] and bound 1 the run ends with five infected nodes. *)
Theorem size_bound_at_most_seeds :
  (∀ (rand : nat → Z) e w f e' w',
      e_stop_criterion e = NumInfected →
      e_bound e ≤ e_num_infected e →
      run_body rand e w = Ok (f, e', w') →
      f = Continue ∧ e_stop_criterion e' = NumInfected ∧
      e_bound e' ≤ e_num_infected e') ∧
  (∀ (rand : nat → Z) (p : Q) (g : graph) (ic : InitialCondition)
     (out : bool) (w0 : World),
      graph_wf g → seeds_ok g ic →
      ic_stop_criterion ic = NumInfected →
      ic_bound ic ≤ ic_num_infected ic →
      ∃ e0 e' w',
        epidemic_new p g ic out = Ok e0 ∧
        epidemic_run rand e0 w0 = Some (Ok (e', w')) ∧
        (∀ e w f e2 w2,
            at_loop_head rand e0 w0 e w →
            queue_empty (e_active e) = false →
            run_body rand e w = Ok (f, e2, w2) → f = Continue) ∧
        at_loop_head rand e0 w0 e' w' ∧
        queue_empty (e_active e') = true ∧
        ic_bound ic ≤ e_num_infected e') ∧
  (∃ e' w',
      simulate (λ _, 0) 1 line5 (mkIC 7 [0] 1 NumInfected)
      = Some (Ok (e', w')) ∧
      e_num_infected e' = 5 ∧ e_bound e' = 1).
Proof.
  split; [|split].
  - intros rand e w f e' w' Hs Hle Hb.
    by apply (run_body_no_size_stop rand e w f e' w').
  - intros rand p g ic out w0 Hg Hs Hstop Hbound.
    destruct (epidemic_new_Inv p g ic out Hg Hs) as (e0 & Hnew & HI & _).
    pose proof (epidemic_new_fields _ _ _ _ _ Hnew)
      as (_ & Hb0 & Hs0 & _ & _ & _ & Hn0 & _).
    assert (no_size_stop e0) as Hns by (split; [congruence | lia]).
    destruct (epidemic_run_total rand _ e0 w0 HI)
      as (e' & w' & Hrun & Hfin & HI').
    exists e0, e', w'. split; [done|]. split; [done|].
    assert (∀ e w f e2 w2,
               at_loop_head rand e0 w0 e w →
               queue_empty (e_active e) = false →
               run_body rand e w = Ok (f, e2, w2) → f = Continue) as Hcont.
    { intros e w f e2 w2 Hh Hne Hb.
      apply (run_body_no_size_stop rand e w f e2 w2); [|done].
      by apply (at_loop_head_no_size_stop rand (ic_infected ic) e0 w0 e w). }
    split; [done|].
    destruct Hfin as [[Hh Hemp] | (e1 & w1 & Hh & Hne & Hb)].
    + split; [done|]. split; [done|].
      pose proof (at_loop_head_no_size_stop _ _ _ _ _ _ HI Hns Hh) as [_ Hle].
      pose proof (at_loop_head_static _ _ _ _ _ _ HI Hh) as Hst.
      rewrite (st_bound _ _ Hst), Hb0 in Hle. done.
    + by specialize (Hcont _ _ _ _ _ Hh Hne Hb).
  - eexists _, _. split; [vm_compute; reflexivity|]. done.
Qed.

Lemma size_bound_at_most_seeds_witness :
  (Continue = Continue ∧ e_stop_criterion line_next = NumInfected ∧
   e_bound line_next ≤ e_num_infected line_next) ∧
  ∃ e0 e' w',
    epidemic_new 1 line5 (mkIC 7 [0] 1 NumInfected) true = Ok e0 ∧
    epidemic_run (λ _, 0) e0 world0 = Some (Ok (e', w')) ∧
    (∀ e w f e2 w2,
        at_loop_head (λ _, 0) e0 world0 e w →
        queue_empty (e_active e) = false →
        run_body (λ _, 0) e w = Ok (f, e2, w2) → f = Continue) ∧
    at_loop_head (λ _, 0) e0 world0 e' w' ∧
    queue_empty (e_active e') = true ∧
    1 ≤ e_num_infected e'.
Proof.
  destruct size_bound_at_most_seeds as (Hstep & Hrun & _).
  split.
  - apply (Hstep (λ _, 0) line_start world0 Continue line_next
             (mkWorld 1 [(1, 0, 1, 7)])).
    + reflexivity.
    + simpl. lia.
    + reflexivity.
  - apply (Hrun (λ _, 0) 1%Q line5 (mkIC 7 [0] 1 NumInfected) true world0).
    + apply (bool_decide_unpack _). vm_compute. reflexivity.
    + apply (bool_decide_unpack _). vm_compute. reflexivity.
    + reflexivity.
    + simpl. unfold ic_num_infected. simpl. lia.
Defined.

(** ** Breadth-first order *)

Lemma Bfs_dequeued seeds e u :
  Inv seeds e → Bfs e →
  qbegin (e_active e) < qend (e_active e) →
  qnodes (e_active e) !! Z.to_nat (qbegin (e_active e)) = Some u →
  BfsL (time_of (e_infected e) u) (dequeued e).
Proof.
  intros HI [Hsort Hup] Hlt Hu.
  pose proof (Inv_qlin _ _ HI) as Hq.
  pose proof (pending_get _ _ Hq Hlt Hu) as Hpend.
  constructor; simpl.
  - exact Hsort.
  - intros y. apply Hup. by rewrite Hpend.
  - intros y Hy. fold (e_active (dequeued e)) in Hy.
    apply list_elem_of_lookup in Hy as [k Hk].
    assert (pending (e_active e) !! 0%nat = Some u) as H0 by by rewrite Hpend.
    assert (pending (e_active e) !! S k = Some y) as H1 by by rewrite Hpend.
    unfold pending in H0, H1. rewrite lookup_drop in H0, H1.
    eapply Hsort; [|exact H0|exact H1]. lia.
Qed.

Lemma BfsL_Bfs t e : BfsL t e → Bfs e.
Proof.
  intros [Hsort Hup Hlo]. constructor; [done|].
  intros h y Hh. specialize (Hup y).
  assert (h ∈ pending (e_active e)) as Hin.
  { destruct (pending (e_active e)) as [|h' l]; [done|].
    injection Hh as ->. left. }
  specialize (Hlo h Hin). lia.
Qed.

Lemma grows_refl t e : grows t e e [].
Proof. split; [by rewrite app_nil_r|]. split; [by intros v ?%elem_of_nil | done]. Qed.

Lemma grows_trans t e1 e2 e3 new1 new2 :
  0 ≤ t → grows t e1 e2 new1 → grows t e2 e3 new2 →
  grows t e1 e3 (new1 ++ new2).
Proof.
  intros Ht (Hp1 & Hn1 & Hs1) (Hp2 & Hn2 & Hs2).
  split; [by rewrite Hp2, Hp1, app_assoc|]. split.
  - intros v [Hv|Hv]%elem_of_app; [|by apply Hn2].
    specialize (Hn1 v Hv). pose proof (time_of_Ok _ _ _ Hn1) as Ht1.
    specialize (Hs2 v ltac:(lia)). rewrite Ht1 in Hs2.
    rewrite <- Hs2. apply time_of_pos. lia.
  - intros y Hy. rewrite Hs2; rewrite Hs1; done.
Qed.

Section BreadthFirst.

Variable rand_seq : nat → Z.

Lemma trial_Bfs seeds e w u t v f e' w' :
  Inv seeds e → BfsL t e → 0 ≤ t →
  trial rand_seq e w u t v = Ok (f, e', w') →
  BfsL t e' ∧ ∃ new, grows t e e' new.
Proof.
  intros HI HB Ht H.
  apply trial_cases in H
    as [(_ & _ & -> & _) | [(_ & iv & _ & _ & _ & -> & _)
                           | (_ & Hv & q' & Hq' & -> & _)]].
  - split; [done|]. exists []. apply grows_refl.
  - destruct (iv =? t + 1).
    + split; [by destruct HB|]. exists []. exact (grows_refl t e).
    + split; [done|]. exists []. apply grows_refl.
  - pose proof (Inv_qlin _ _ HI) as Hq.
    rewrite (queue_add_lin _ _ Hq (Inv_room _ _ _ HI Hv)) in Hq'.
    injection Hq' as <-.
    pose proof (aget_in_range _ _ _ Hv) as Hr.
    pose proof (time_of_Ok _ _ _ Hv) as Htv.
    assert (v ∉ pushed (e_active e)) as Hfresh.
    { intros Hin%(inv_pushed _ _ HI). lia. }
    assert (∀ y, y ≠ v →
              time_of (<[Z.to_nat v := t + 1]> (e_infected e)) y
              = time_of (e_infected e) y) as Hother.
    { intros y Hy. apply time_of_insert_ne; [lia | done]. }
    destruct HB as [Hsort Hup Hlo]. split.
    + constructor; simpl.
      * rewrite pushed_add by done. intros i j x y Hij Hi Hj.
        destruct (decide (y = v)) as [->|Hyv].
        -- rewrite time_of_insert_eq by done.
           destruct (decide (x = v)) as [->|Hxv].
           ++ by rewrite time_of_insert_eq.
           ++ rewrite Hother by done. apply Hup.
        -- assert (pushed (e_active e) !! j = Some y) as Hj'.
           { apply lookup_app_Some in Hj as [?|[_ Hj]]; [done|].
             apply list_lookup_singleton_Some in Hj as [_ ?]. done. }
           assert (pushed (e_active e) !! i = Some x) as Hi'.
           { apply lookup_lt_Some in Hj'.
             rewrite lookup_app_l in Hi by lia. done. }
           assert (x ≠ v) as Hxv.
           { intros ->. apply Hfresh. by eapply list_elem_of_lookup_2. }
           rewrite !Hother by done. by eapply Hsort.
      * intros y. destruct (decide (y = v)) as [->|Hyv].
        -- rewrite time_of_insert_eq by done. lia.
        -- rewrite Hother by done. apply Hup.
      * intros y. rewrite pending_add by done.
        intros [Hy | ->%list_elem_of_singleton]%elem_of_app.
        -- assert (y ≠ v) as Hyv.
           { intros ->. apply Hfresh. unfold pending in Hy.
             by apply subseteq_drop in Hy. }
           rewrite Hother by done. by apply Hlo.
        -- rewrite time_of_insert_eq by done. lia.
    + exists [v]. split; [simpl; by apply pushed_add|]. split.
      * intros ? ->%list_elem_of_singleton. simpl.
        apply aget_Ok. split; [lia|].
        apply list_lookup_insert_eq. lia.
      * intros y Hy. simpl. apply Hother. intros ->. lia.
Qed.

End BreadthFirst.

Section BreadthFirstRun.

Variable rand_seq : nat → Z.

Lemma for_links_Bfs seeds e w u t vs f e' w' :
  Inv seeds e → BfsL t e → 0 ≤ t →
  for_links rand_seq e w u t vs = Ok (f, e', w') →
  BfsL t e' ∧ ∃ new, grows t e e' new.
Proof.
  intros HI HB Ht H.
  destruct (for_links_inv rand_seq
              (λ _ e1 _, Inv seeds e1 ∧ BfsL t e1 ∧ ∃ new, grows t e e1 new)
              u t vs) with (3 := H) as (_ & (_ & HB' & Hg) & _); [| |done].
  - intros pre v e1 w1 f1 e2 w2 _ (HI1 & HB1 & new1 & Hg1) Htr.
    split; [by eapply Inv_trial|].
    destruct (trial_Bfs rand_seq seeds e1 w1 u t v f1 e2 w2)
      as (HB2 & new2 & Hg2); [done..|].
    split; [done|]. exists (new1 ++ new2). by eapply grows_trans.
  - split; [done|]. split; [done|]. exists []. apply grows_refl.
Qed.

(** One iteration: the node [u] at the head is taken with time [t], the
    nodes [new] are appended with time [t + 1]. *)
Lemma run_body_Bfs seeds e w f e' w' :
  Inv seeds e → Bfs e → queue_empty (e_active e) = false →
  run_body rand_seq e w = Ok (f, e', w') →
  ∃ u t new,
    queue_get (e_active e) = Ok (u, e_active (dequeued e)) ∧
    aget (e_infected e) u = Ok t ∧ 0 < t ∧
    BfsL t e' ∧ grows t (dequeued e) e' new ∧
    pending (e_active e) = u :: pending (e_active (dequeued e)) ∧
    pending (e_active e') = pending (e_active (dequeued e)) ++ new.
Proof.
  intros HI HB Hne Hb.
  destruct (run_body_cases rand_seq seeds e w HI Hne)
    as (u & t & Hu & Hget & Hut & Ht & HId & Hcases).
  pose proof (Inv_qlin _ _ HI) as Hq.
  assert (qbegin (e_active e) < qend (e_active e)) as Hlt.
  { apply queue_empty_false in Hne. destruct Hq as ([? ?] & _). lia. }
  pose proof (Bfs_dequeued _ _ _ HI HB Hlt Hu) as HBd.
  rewrite (time_of_Ok _ _ _ Hut) in HBd.
  pose proof (pending_get _ _ Hq Hlt Hu) as Hpend.
  assert (∀ e2 new, frame (dequeued e) e2 → grows t (dequeued e) e2 new →
            pending (e_active e2) = pending (e_active (dequeued e)) ++ new)
    as Hgrow.
  { intros e2 new Hfr (Hp & _). unfold pending at 1.
    rewrite Hp, (fr_begin _ _ Hfr). rewrite drop_app_le; [done|].
    unfold pushed. rewrite length_take. simpl. destruct Hq as (? & ? & ?). lia. }
  exists u, t.
  destruct Hcases as [(_ & _ & Hret) | (_ & vs & _ & _ & Hloop)].
  - rewrite Hb in Hret. injection Hret as -> -> ->.
    exists []. do 4 (split; [done|]).
    split; [apply grows_refl|]. split; [done|]. by rewrite app_nil_r.
  - rewrite Hloop in Hb.
    assert (0 ≤ t) as Ht0 by lia.
    destruct (for_links_Bfs seeds _ _ _ _ _ _ _ _ HId HBd Ht0 Hb)
      as (HB' & new & Hg).
    destruct (for_links_Inv rand_seq seeds _ _ _ _ _ _ _ _ HId Ht0 Hb)
      as (_ & Hfr).
    exists new. do 6 (split; [done|]). by apply Hgrow.
Qed.

Lemma epidemic_new_Bfs p g ic out e0 :
  graph_wf g → seeds_ok g ic →
  epidemic_new p g ic out = Ok e0 → Bfs e0.
Proof.
  intros Hg Hs Hnew.
  destruct (epidemic_new_Inv p g ic out Hg Hs) as (e & He & HI & Hp & Hb & _).
  rewrite Hnew in He. injection He as <-.
  assert (∀ x, x ∈ pushed (e_active e0) → time_of (e_infected e0) x = 1)
    as Hone.
  { intros x Hx. apply (inv_seeds _ _ HI). by rewrite <- Hp. }
  constructor.
  - intros i j x y _ Hi Hj.
    rewrite (Hone x), (Hone y); [done | |]; by eapply list_elem_of_lookup_2.
  - intros h y Hh.
    assert (h ∈ pushed (e_active e0)) as Hin.
    { unfold pending in Hh. apply head_Some_elem_of in Hh.
      by apply subseteq_drop in Hh. }
    rewrite (Hone h Hin).
    destruct (decide (0 < time_of (e_infected e0) y)) as [Hy|Hy]; [|lia].
    apply (inv_pushed _ _ HI) in Hy. rewrite (Hone y Hy). lia.
Qed.

Lemma Bfs_at_loop_head seeds e0 w0 e w :
  Inv seeds e0 → Bfs e0 → at_loop_head rand_seq e0 w0 e w → Bfs e.
Proof.
  intros HI0 HB0 H. induction H as [|e w e' w' H IH Hne Hb]; [done|].
  pose proof (Inv_at_loop_head _ _ _ _ _ _ HI0 H) as HI.
  destruct (run_body_Bfs seeds e w _ e' w' HI IH Hne Hb)
    as (u & t & new & _ & _ & _ & HB' & _).
  by eapply BfsL_Bfs.
Qed.

Lemma dequeue_times_sorted seeds fuel :
  ∀ e w lo,
    Inv seeds e → Bfs e →
    (∀ y, y ∈ pending (e_active e) → lo ≤ time_of (e_infected e) y) →
    Forall (Z.le lo) (dequeue_times rand_seq fuel e w) ∧
    StronglySorted Z.le (dequeue_times rand_seq fuel e w).
Proof.
  induction fuel as [|fuel IH]; intros e w lo HI HB Hlo; simpl.
  { split; constructor. }
  destruct (queue_empty (e_active e)) eqn:Hne; [split; constructor|].
  destruct (run_body_Inv rand_seq seeds e w HI Hne)
    as (f & e' & w' & Hb & HI' & _).
  destruct (run_body_Bfs seeds e w f e' w' HI HB Hne Hb)
    as (u & t & new & Hget & Hut & Ht & HB' & _ & Hpend & _).
  rewrite Hget, Hut, Hb.
  assert (lo ≤ t) as Hlot.
  { rewrite <- (time_of_Ok _ _ _ Hut). apply Hlo. rewrite Hpend. left. }
  destruct f.
  - destruct (IH e' w' t HI' (BfsL_Bfs _ _ HB') (bl_lower _ _ HB'))
      as [Hall Hsort].
    split.
    + constructor; [done|].
      eapply Forall_impl; [exact Hall|]. simpl. intros; lia.
    + by constructor.
  - split; repeat constructor. done.
Qed.

End BreadthFirstRun.

(** One time is read per node taken from the queue. *)
Lemma dequeue_times_length rand seeds fuel :
  ∀ e w e' w',
    Inv seeds e →
    run_fuel rand fuel e w = Some (Ok (e', w')) →
    Z.of_nat (length (dequeue_times rand fuel e w))
    = qbegin (e_active e') - qbegin (e_active e).
Proof.
  induction fuel as [|fuel IH]; intros e w e' w' HI Hrun; [done|].
  simpl in *. destruct (queue_empty (e_active e)) eqn:Hne.
  { injection Hrun as <- <-. simpl. lia. }
  destruct (run_body_Inv rand seeds e w HI Hne)
    as (f & e1 & w1 & Hb & HI1 & Hfr).
  destruct (run_body_cases rand seeds e w HI Hne)
    as (u & t & _ & Hget & Hut & _).
  rewrite Hget, Hut, Hb. rewrite Hb in Hrun.
  pose proof (fr_begin _ _ Hfr) as Hbegin. simpl in Hbegin.
  destruct f.
  - simpl. rewrite Nat2Z.inj_succ, (IH e1 w1 e' w' HI1 Hrun). lia.
  - injection Hrun as <- <-. simpl. lia.
Qed.

Lemma queue_get_nonempty q r : queue_get q = Ok r → queue_empty q = false.
Proof.
  unfold queue_get. intros H.
  destruct (aget (qnodes q) (qbegin q)); [|done]. simpl in H.
  by destruct (queue_empty q).
Qed.

(** C10.  In a run from distinct seeds inside [[0, n)], the times
    [t = infected[u]] read for the successively dequeued nodes never
    decrease (one time is read per dequeued node, up to the end of the
    run), and an iteration that dequeues a node of time [t] leaves in
    the queue what was there behind that node, followed by the nodes it
    enqueued, each of which has infection time exactly [t + 1]. *)
Theorem breadth_first_order (rand : nat → Z) (p : Q) (g : graph)
    (ic : InitialCondition) (out : bool) (w0 : World) :
  graph_wf g → seeds_ok g ic →
  ∃ e0,
    epidemic_new p g ic out = Ok e0 ∧
    (∀ fuel, StronglySorted Z.le (dequeue_times rand fuel e0 w0)) ∧
    (∃ e' w',
        epidemic_run rand e0 w0 = Some (Ok (e', w')) ∧
        Z.of_nat (length (dequeue_times rand (S (Z.to_nat (g_n g))) e0 w0))
        = qbegin (e_active e')) ∧
    (∀ e w u q1 t f e' w',
        at_loop_head rand e0 w0 e w →
        queue_get (e_active e) = Ok (u, q1) →
        aget (e_infected e) u = Ok t →
        run_body rand e w = Ok (f, e', w') →
        ∃ new,
          queue_contents (e_active e') = queue_contents q1 ++ new ∧
          ∀ v, v ∈ new → aget (e_infected e') v = Ok (t + 1)).
Proof.
  intros Hg Hs.
  destruct (epidemic_new_Inv p g ic out Hg Hs)
    as (e0 & Hnew & HI & _ & Hb0 & _).
  pose proof (epidemic_new_Bfs _ _ _ _ _ Hg Hs Hnew) as HB.
  pose proof (epidemic_new_fields _ _ _ _ _ Hnew) as (Hg0 & _).
  exists e0. split; [done|]. split; [|split].
  - intros fuel.
    destruct (dequeue_times_sorted rand (ic_infected ic) fuel e0 w0 0 HI HB)
      as [_ H]; [|done].
    intros y Hy. unfold pending in Hy. apply subseteq_drop in Hy.
    apply (inv_pushed _ _ HI) in Hy. lia.
  - destruct (epidemic_run_total rand _ e0 w0 HI) as (e' & w' & Hrun & _).
    exists e', w'. split; [done|].
    unfold epidemic_run in Hrun. rewrite Hg0 in Hrun.
    rewrite (dequeue_times_length rand _ _ e0 w0 e' w' HI Hrun). lia.
  - intros e w u q1 t f e' w' Hh Hget Hut Hb.
    pose proof (Inv_at_loop_head _ _ _ _ _ _ HI Hh) as HIe.
    pose proof (Bfs_at_loop_head _ _ _ _ _ _ HI HB Hh) as HBe.
    pose proof (queue_get_nonempty _ _ Hget) as Hne.
    destruct (run_body_Bfs rand _ e w f e' w' HIe HBe Hne Hb)
      as (u' & t' & new & Hget' & Hut' & _ & _ & Hgr & _ & Hpend).
    rewrite Hget in Hget'. injection Hget' as <- ->.
    rewrite Hut in Hut'. injection Hut' as <-.
    destruct (run_body_Inv rand _ e w HIe Hne)
      as (f2 & e2 & w2 & Hb2 & HI2 & _).
    rewrite Hb in Hb2. injection Hb2 as <- <- <-.
    destruct (run_body_cases rand _ e w HIe Hne)
      as (_ & _ & _ & _ & _ & _ & HId & _).
    exists new. split.
    + rewrite (queue_contents_lin _ (Inv_qlin _ _ HI2)), Hpend.
      f_equal. symmetry.
      apply (queue_contents_lin _ (Inv_qlin _ _ HId)).
    + by destruct Hgr as (_ & ? & _).
Qed.

Lemma breadth_first_order_witness :
  ∃ e0,
    epidemic_new 1 triangle (mkIC 7 [0] 10 MaxTime) true = Ok e0 ∧
    (∀ fuel, StronglySorted Z.le (dequeue_times (λ _, 0) fuel e0 world0)) ∧
    (∃ e' w',
        epidemic_run (λ _, 0) e0 world0 = Some (Ok (e', w')) ∧
        Z.of_nat (length (dequeue_times (λ _, 0) 4 e0 world0))
        = qbegin (e_active e')) ∧
    (∀ e w u q1 t f e' w',
        at_loop_head (λ _, 0) e0 world0 e w →
        queue_get (e_active e) = Ok (u, q1) →
        aget (e_infected e) u = Ok t →
        run_body (λ _, 0) e w = Ok (f, e', w') →
        ∃ new,
          queue_contents (e_active e') = queue_contents q1 ++ new ∧
          ∀ v, v ∈ new → aget (e_infected e') v = Ok (t + 1)).
Proof.
  apply (breadth_first_order (λ _, 0) 1 triangle (mkIC 7 [0] 10 MaxTime)
           true world0).
  - apply (bool_decide_unpack _). vm_compute. reflexivity.
  - apply (bool_decide_unpack _). vm_compute. reflexivity.
Defined.

(** ** Reach of the depth-bounded run when every trial succeeds *)

Lemma closed_stable e e' x :
  (∀ y, 0 < time_of (e_infected e) y →
        time_of (e_infected e') y = time_of (e_infected e) y) →
  e_g e' = e_g e → e_bound e' = e_bound e →
  0 < time_of (e_infected e) x →
  closed e x → closed e' x.
Proof.
  intros Hst Hg Hb Hx Hc. unfold closed.
  rewrite Hg, Hb, (Hst x Hx). intros Hle vs v Hvs Hv.
  destruct (Hc Hle vs v Hvs Hv) as [H1 H2].
  rewrite (Hst v H1). done.
Qed.

Section Reach.

Variable rand_seq : nat → Z.

Lemma trial_depth e w u t v f e' w' :
  e_stop_criterion e = MaxTime →
  trial rand_seq e w u t v = Ok (f, e', w') →
  f = Continue ∧ e_stop_criterion e' = MaxTime.
Proof.
  intros Hs H.
  apply trial_cases in H
    as [(_ & -> & -> & _) | [(_ & iv & _ & _ & -> & -> & _)
                            | (_ & _ & q' & _ & -> & _ & ->)]].
  - done.
  - split; [done|]. by destruct (iv =? t + 1).
  - rewrite Hs. done.
Qed.

Lemma for_links_depth u t vs :
  ∀ e w f e' w',
    e_stop_criterion e = MaxTime →
    for_links rand_seq e w u t vs = Ok (f, e', w') → f = Continue.
Proof.
  induction vs as [|v vs IH]; intros e w f e' w' Hs H; simpl in H.
  - by injection H as <- <- <-.
  - destruct (trial rand_seq e w u t v) as [[[f1 e1] w1]|] eqn:Ht; [|done].
    destruct (trial_depth _ _ _ _ _ _ _ _ Hs Ht) as [-> Hs1].
    simpl in H. by eapply IH.
Qed.

(** A successful trial leaves its target infected, at most at [t + 1]. *)
Lemma trial_target seeds e w u t v f e' w' :
  Inv seeds e → BfsL t e → 0 ≤ t →
  success (e_p e) (rand_seq (rand_calls w)) = true →
  trial rand_seq e w u t v = Ok (f, e', w') →
  0 < time_of (e_infected e') v ≤ t + 1.
Proof.
  intros HI HB Ht Hsucc H.
  apply trial_cases in H
    as [(Hf & _) | [(_ & iv & Hiv & Hne & _ & -> & _)
                   | (_ & Hv & q' & _ & -> & _)]].
  - congruence.
  - assert (e_infected (if iv =? t + 1 then incr_links e else e)
            = e_infected e) as -> by by destruct (iv =? t + 1).
    pose proof (bl_upper _ _ HB v) as Hup.
    rewrite (time_of_Ok _ _ _ Hiv) in *.
    pose proof (inv_nonneg _ _ HI) as Hnn.
    apply aget_Ok in Hiv as [_ Hiv].
    eapply Forall_lookup_1 in Hnn; [|done]. simpl in Hnn. lia.
  - simpl. rewrite time_of_insert_eq; [lia | by eapply aget_in_range].
Qed.

Lemma for_links_Closure seeds e w u t vs f e' w' (L : list Z) :
  Inv seeds e → BfsL t e → 0 ≤ t → certain rand_seq e →
  (∀ x, x ∈ L → 0 < time_of (e_infected e) x ∧ closed e x) →
  for_links rand_seq e w u t vs = Ok (f, e', w') →
  (∀ x, x ∈ L → closed e' x) ∧
  (f = Continue → ∀ v, v ∈ vs → 0 < time_of (e_infected e') v ≤ t + 1).
Proof.
  intros HI HB Ht Hcert HL H.
  destruct (for_links_inv rand_seq
    (λ pre e1 _,
       Inv seeds e1 ∧ BfsL t e1 ∧ frame e e1 ∧
       (∀ x, x ∈ L → 0 < time_of (e_infected e1) x ∧ closed e1 x) ∧
       (∀ v, v ∈ pre → 0 < time_of (e_infected e1) v ≤ t + 1))
    u t vs) with (3 := H) as (pre & (_ & _ & _ & HL' & Hpre) & Hf).
  - intros pre v e1 w1 f1 e2 w2 _ (HI1 & HB1 & Hfr1 & HL1 & Hpre1) Htr.
    destruct (trial_Bfs rand_seq seeds e1 w1 u t v f1 e2 w2)
      as (HB2 & new2 & _ & _ & Hst); [done..|].
    pose proof (trial_frame _ _ _ _ _ _ _ _ _ _ HI1 Htr) as Hfr2.
    split; [by eapply Inv_trial|]. split; [done|].
    split; [by eapply frame_trans|]. split.
    + intros x Hx. destruct (HL1 x Hx) as [Hx1 Hc1]. split.
      * by rewrite Hst.
      * eapply closed_stable; [exact Hst | apply Hfr2 | apply Hfr2 | done..].
    + intros y [Hy | ->%list_elem_of_singleton]%elem_of_app.
      * destruct (Hpre1 y Hy) as [? ?]. by rewrite Hst.
      * eapply trial_target; [done..| |done].
        unfold certain in Hcert. rewrite (fr_p _ _ Hfr1). apply Hcert.
  - split; [done|]. split; [done|]. split; [apply frame_refl|].
    split; [done|]. by intros v ?%elem_of_nil.
  - split; [intros x Hx; by apply HL'|].
    intros -> v Hv. apply Hpre. by rewrite Hf.
Qed.

End Reach.

Lemma popped_pushed q x : qlin q → x ∈ popped q → x ∈ pushed q.
Proof.
  intros Hq Hx. rewrite (pushed_split _ Hq). apply elem_of_app. by left.
Qed.

Lemma pending_empty q : qlin q → qbegin q = qend q → pending q = [].
Proof.
  intros (Hb & He & Hl) Heq. unfold pending, pushed. rewrite Heq.
  apply drop_ge. rewrite length_take. lia.
Qed.

Section ReachRun.

Variable rand_seq : nat → Z.

Lemma run_body_Closure seeds e w f e' w' :
  Inv seeds e → Bfs e → Closure e → certain rand_seq e →
  e_stop_criterion e = MaxTime →
  queue_empty (e_active e) = false →
  run_body rand_seq e w = Ok (f, e', w') →
  Closure e' ∧
  (f = Return →
   ∀ y, y ∈ pending (e_active e') → e_bound e' < time_of (e_infected e') y).
Proof.
  intros HI HB HC Hcert Hstop Hne Hb.
  destruct (run_body_cases rand_seq seeds e w HI Hne)
    as (u & t & Hu & Hget & Hut & Ht & HId & Hcases).
  pose proof (Inv_qlin _ _ HI) as Hq.
  assert (qbegin (e_active e) < qend (e_active e)) as Hlt.
  { apply queue_empty_false in Hne. destruct Hq as ([? ?] & _). lia. }
  pose proof (Bfs_dequeued _ _ _ HI HB Hlt Hu) as HBd.
  pose proof (time_of_Ok _ _ _ Hut) as Htu.
  rewrite Htu in HBd.
  pose proof (popped_get _ _ Hq Hlt Hu) as Hpop.
  destruct Hcases as [(_ & Hbound & Hret) | (_ & vs & Hvs & _ & Hloop)].
  - rewrite Hb in Hret. injection Hret as -> -> ->. split.
    + intros x. unfold dequeued at 1. simpl. rewrite Hpop.
      intros [Hx | ->%list_elem_of_singleton]%elem_of_app.
      * exact (HC x Hx).
      * intros Hle. simpl in Hle. lia.
    + intros _ y Hy. pose proof (bl_lower _ _ HBd y Hy). simpl in *. lia.
  - rewrite Hloop in Hb.
    assert (0 ≤ t) as Ht0 by lia.
    pose proof (for_links_depth rand_seq u t vs (dequeued e) w f e' w'
                  Hstop Hb) as ->.
    destruct (for_links_Inv rand_seq seeds _ _ _ _ _ _ _ _ HId Ht0 Hb)
      as (HI' & Hfr).
    destruct (for_links_Bfs rand_seq seeds _ _ _ _ _ _ _ _ HId HBd Ht0 Hb)
      as (_ & new & _ & _ & Hst).
    destruct (for_links_Closure rand_seq seeds (dequeued e) w u t vs
                Continue e' w' (popped (e_active e)) HId HBd Ht0 Hcert)
      as (HL & Hnew); [|done|].
    { intros x Hx. split; [|exact (HC x Hx)].
      apply (inv_pushed _ _ HI). by apply popped_pushed. }
    split; [|done].
    intros x. rewrite (fr_popped _ _ Hfr). simpl. rewrite Hpop.
    intros [Hx | ->%list_elem_of_singleton]%elem_of_app; [by apply HL|].
    assert (time_of (e_infected e') u = t) as Htu'.
    { rewrite <- Htu. apply Hst. simpl. lia. }
    intros _ vs' v Hvs' Hv. rewrite (fr_g _ _ Hfr) in Hvs'. simpl in Hvs'.
    rewrite Hvs in Hvs'. injection Hvs' as <-.
    rewrite Htu'. by apply Hnew.
Qed.

Lemma Closure_at_loop_head seeds e0 w0 e w :
  Inv seeds e0 → Bfs e0 → Closure e0 → certain rand_seq e0 →
  e_stop_criterion e0 = MaxTime →
  at_loop_head rand_seq e0 w0 e w → Closure e.
Proof.
  intros HI0 HB0 HC0 Hcert Hstop H.
  induction H as [|e w e' w' H IH Hne Hb]; [done|].
  pose proof (Inv_at_loop_head _ _ _ _ _ _ HI0 H) as HI.
  pose proof (Bfs_at_loop_head _ _ _ _ _ _ HI0 HB0 H) as HB.
  pose proof (at_loop_head_static _ _ _ _ _ _ HI0 H) as Hst.
  eapply run_body_Closure; [exact HI | exact HB | exact IH | | | exact Hne | exact Hb].
  - unfold certain. rewrite (st_p _ _ Hst). exact Hcert.
  - rewrite (st_stop _ _ Hst). exact Hstop.
Qed.

Lemma finished_Closure seeds e0 w0 e w :
  Inv seeds e0 → Bfs e0 → Closure e0 → certain rand_seq e0 →
  e_stop_criterion e0 = MaxTime →
  finished rand_seq e0 w0 e w →
  Closure e ∧
  ∀ y, y ∈ pending (e_active e) → e_bound e < time_of (e_infected e) y.
Proof.
  intros HI0 HB0 HC0 Hcert Hstop [[H Hemp] | (e1 & w1 & H & Hne & Hb)].
  - split; [by apply (Closure_at_loop_head seeds e0 w0 e w)|].
    pose proof (Inv_at_loop_head _ _ _ _ _ _ HI0 H) as HI.
    rewrite (pending_empty _ (Inv_qlin _ _ HI)).
    + by intros y ?%elem_of_nil.
    + by apply queue_empty_true.
  - pose proof (Inv_at_loop_head _ _ _ _ _ _ HI0 H) as HI.
    pose proof (Bfs_at_loop_head _ _ _ _ _ _ HI0 HB0 H) as HB.
    pose proof (at_loop_head_static _ _ _ _ _ _ HI0 H) as Hst.
    destruct (run_body_Closure seeds e1 w1 Return e w HI HB) as [HC Hp];
      try done.
    + by apply (Closure_at_loop_head seeds e0 w0 e1 w1).
    + unfold certain. rewrite (st_p _ _ Hst). exact Hcert.
    + rewrite (st_stop _ _ Hst). exact Hstop.
    + split; [done | by apply Hp].
Qed.

End ReachRun.

(** At the end of such a run every node within [bound] arcs of a seed is
    infected, at a time at most one more than its distance. *)
Lemma within_infected seeds e :
  Inv seeds e → Closure e →
  (∀ y, y ∈ pending (e_active e) → e_bound e < time_of (e_infected e) y) →
  ∀ d v, within (e_g e) seeds d v → Z.of_nat d ≤ e_bound e →
         0 < time_of (e_infected e) v ≤ Z.of_nat d + 1.
Proof.
  intros HI HC Hpend d v H. induction H as [s Hs | d u v vs H IH Hvs Hv].
  - intros _. rewrite (inv_seeds _ _ HI s Hs). lia.
  - intros Hd. destruct IH as [Hu1 Hu2]; [lia|].
    assert (u ∈ popped (e_active e)) as Hpop.
    { pose proof Hu1 as Hin. apply (inv_pushed _ _ HI) in Hin.
      rewrite (pushed_split _ (Inv_qlin _ _ HI)) in Hin.
      apply elem_of_app in Hin as [?|Hin]; [done|].
      specialize (Hpend u Hin). lia. }
    destruct (HC u Hpop ltac:(lia) vs v Hvs Hv) as [? ?]. lia.
Qed.

(** C2.  For a graph as the loader delivers it, distinct seeds inside
    [[0, n)], the depth criterion with a positive bound and [p = 1] (every
    draw of [rand()] is then a success), the run returns, and in its final
    state every node that a walk of at most [bound] arcs reaches from a
    seed is infected ([infected[v] > 0]), at a time at most one more than
    the length of the walk. *)
Theorem depth_bound_reaches (rand : nat → Z) (g : graph)
    (ic : InitialCondition) (out : bool) (w0 : World) :
  graph_wf g → seeds_ok g ic →
  ic_stop_criterion ic = MaxTime → 0 < ic_bound ic →
  (∀ k, 0 ≤ rand k ≤ RAND_MAX) →
  ∃ e0 e' w',
    epidemic_new 1 g ic out = Ok e0 ∧
    epidemic_run rand e0 w0 = Some (Ok (e', w')) ∧
    ∀ (d : nat) (v : Z),
      within g (ic_infected ic) d v → Z.of_nat d ≤ ic_bound ic →
      ∃ t, aget (e_infected e') v = Ok t ∧ 0 < t ≤ Z.of_nat d + 1.
Proof.
  intros Hg Hs Hstop _ Hrand.
  destruct (epidemic_new_Inv 1 g ic out Hg Hs)
    as (e0 & Hnew & HI & _ & Hb0 & _).
  pose proof (epidemic_new_Bfs _ _ _ _ _ Hg Hs Hnew) as HB.
  pose proof (epidemic_new_fields _ _ _ _ _ Hnew)
    as (Hg0 & Hbound0 & Hstop0 & Hp0 & _).
  assert (Closure e0) as HC.
  { intros x. unfold popped. rewrite Hb0. simpl. by intros ?%elem_of_nil. }
  assert (certain rand e0) as Hcert.
  { intros k. rewrite Hp0. by apply success_one. }
  assert (e_stop_criterion e0 = MaxTime) as Hstop' by congruence.
  destruct (epidemic_run_total rand _ e0 w0 HI)
    as (e' & w' & Hrun & Hfin & HI').
  destruct (finished_Closure rand _ e0 w0 e' w' HI HB HC Hcert Hstop' Hfin)
    as [HC' Hpend].
  pose proof (observable_static rand _ e0 w0 e' w' HI
                (finished_observable _ _ _ _ _ Hfin)) as Hst.
  exists e0, e', w'. split; [done|]. split; [done|].
  intros d v Hw Hd.
  destruct (within_infected _ _ HI' HC' Hpend d v) as [H1 H2].
  - by rewrite (st_g _ _ Hst), Hg0.
  - by rewrite (st_bound _ _ Hst), Hbound0.
  - exists (time_of (e_infected e') v). split; [by apply time_of_pos | done].
Qed.

Lemma depth_bound_reaches_witness :
  ∃ e0 e' w',
    epidemic_new 1 line5 (mkIC 7 [0] 2 MaxTime) true = Ok e0 ∧
    epidemic_run (λ _, RAND_MAX) e0 world0 = Some (Ok (e', w')) ∧
    ∀ (d : nat) (v : Z),
      within line5 [0] d v → Z.of_nat d ≤ 2 →
      ∃ t, aget (e_infected e') v = Ok t ∧ 0 < t ≤ Z.of_nat d + 1.
Proof.
  apply (depth_bound_reaches (λ _, RAND_MAX) line5 (mkIC 7 [0] 2 MaxTime)
           true world0).
  - apply (bool_decide_unpack _). vm_compute. reflexivity.
  - apply (bool_decide_unpack _). vm_compute. reflexivity.
  - reflexivity.
  - simpl. lia.
  - intros _. unfold RAND_MAX. lia.
Defined.

(** ** What construction checks *)

Lemma seed_loop_app a b :
  ∀ q inf,
    seed_loop (a ++ b) q inf
    = match seed_loop a q inf with
      | Ok (q', inf') => seed_loop b q' inf'
      | Err x => Err x
      end.
Proof.
  induction a as [|s a IH]; intros q inf; [done|].
  simpl. destruct (queue_add q s) as [q1|]; [|done]. simpl.
  destruct (aset inf s 1) as [inf1|]; [|done]. simpl. apply IH.
Qed.

(** Seeds inside the array are entered as long as the buffer has room,
    whether they repeat or not. *)
Lemma seed_loop_unchecked rest :
  ∀ q inf,
    qlin q → qend q + Z.of_nat (length rest) < qsize q →
    Forall (λ s, 0 ≤ s < Z.of_nat (length inf)) rest →
    ∃ q' inf',
      seed_loop rest q inf = Ok (q', inf') ∧ qlin q' ∧
      qsize q' = qsize q ∧ qbegin q' = qbegin q ∧
      qend q' = qend q + Z.of_nat (length rest) ∧
      length inf' = length inf.
Proof.
  induction rest as [|s rest IH]; intros q inf Hq Hroom Hr.
  - exists q, inf. simpl. repeat split; try done; try apply Hq. lia.
  - apply Forall_cons in Hr as [Hs Hr]. simpl in Hroom. simpl.
    rewrite (queue_add_lin _ _ Hq) by lia. simpl.
    assert (aset inf s 1 = Ok (<[Z.to_nat s := 1]> inf)) as ->
      by by apply aset_Ok.
    simpl. set (q1 := mkQueue _ _ _ _).
    destruct (IH q1 (<[Z.to_nat s := 1]> inf))
      as (q' & inf' & Hl & Hq' & Hsz & Hbg & Hen & Hlen).
    + destruct Hq as ([? ?] & ? & ?). subst q1.
      repeat split; simpl; try lia. by rewrite length_insert.
    + simpl. lia.
    + by rewrite length_insert.
    + exists q', inf'. split; [done|]. split; [done|].
      rewrite Hsz, Hbg, Hen, Hlen, length_insert. simpl.
      repeat split; lia.
Qed.

(** One seed entry too many trips the assertion of [queue_add]. *)
Lemma seed_loop_overflow rest :
  ∀ q inf,
    qlin q → qbegin q = 0 →
    qsize q ≤ qend q + Z.of_nat (length rest) →
    Forall (λ s, 0 ≤ s < Z.of_nat (length inf)) rest →
    seed_loop rest q inf = Err AssertionFailed.
Proof.
  induction rest as [|s rest IH]; intros q inf Hq Hb Hover Hr.
  - destruct Hq as (? & ? & ?). simpl in Hover. lia.
  - apply Forall_cons in Hr as [Hs Hr]. simpl in Hover. simpl.
    destruct (decide (qend q + 1 = qsize q)) as [Hlast|Hroom].
    + unfold queue_add, queue_full. rewrite Hlast, Hb.
      destruct Hq as (? & ? & ?). rewrite Z.rem_same by lia. done.
    + destruct Hq as ([? ?] & ? & ?).
      rewrite queue_add_lin by (repeat split; lia). simpl.
      assert (aset inf s 1 = Ok (<[Z.to_nat s := 1]> inf)) as ->
        by by apply aset_Ok.
      simpl. apply IH; simpl; try lia.
      * repeat split; simpl; try lia. by rewrite length_insert.
      * by rewrite length_insert.
Qed.

Lemma queue_new_qlin n : 0 ≤ n → qlin (queue_new n).
Proof.
  intros Hn. repeat split; simpl; try lia. rewrite length_replicate. lia.
Qed.

Lemma main_asserts_p p s gp ip bp mt th :
  ¬ (0 < p ∧ p <= 1)%Q →
  main_asserts p s gp ip bp mt th = Err AssertionFailed.
Proof.
  intros Hp. unfold main_asserts.
  destruct (Qle_bool p 0) eqn:H0; [done|].
  destruct (Qle_bool p 1) eqn:H1; [|done].
  exfalso. apply Hp. split.
  - apply Qnot_le_lt. intros H%Qle_bool_iff. congruence.
  - by apply Qle_bool_iff.
Qed.

(** C8, as the code has it.  [epidemic_new] checks neither the seeds
    nor [p].  With seed entries inside [[0, n)] it returns an epidemic
    whenever there are at most [n] of them, distinct or not and whatever
    [p]; with more than [n] the assertion of [queue_add] fails.  A seed
    outside [[0, n)] is not detected: the store [infected[s] = 1] falls
    outside the array.  [p] in (0, 1] is asserted by [main] before any
    epidemic is built. *)
Theorem construction_checks (p : Q) (g : graph) (ic : InitialCondition)
    (out : bool) :
  0 ≤ g_n g →
  (Forall (in_range g) (ic_infected ic) → ic_num_infected ic ≤ g_n g →
   ∃ e, epidemic_new p g ic out = Ok e ∧
        e_num_infected e = ic_num_infected ic ∧ e_p e = p) ∧
  (Forall (in_range g) (ic_infected ic) → g_n g < ic_num_infected ic →
   epidemic_new p g ic out = Err AssertionFailed) ∧
  (∀ pre s post,
      ic_infected ic = pre ++ s :: post →
      Forall (in_range g) pre → Z.of_nat (length pre) < g_n g →
      ¬ in_range g s →
      epidemic_new p g ic out = Err OutOfBounds) ∧
  (¬ (0 < p ∧ p <= 1)%Q →
   ∀ s gp ip bp mt th,
     main_asserts p s gp ip bp mt th = Err AssertionFailed).
Proof.
  intros Hn.
  assert (∀ l, Forall (in_range g) l →
            Forall (λ s, 0 ≤ s < Z.of_nat (length (replicate (Z.to_nat (g_n g)) 0))) l)
    as Hrange.
  { intros l Hl. rewrite length_replicate.
    eapply Forall_impl; [exact Hl|]. unfold in_range. simpl. intros; lia. }
  split; [|split; [|split]].
  - intros Hr Hlen. unfold ic_num_infected in Hlen.
    destruct (seed_loop_unchecked (ic_infected ic) (queue_new (g_n g))
                (replicate (Z.to_nat (g_n g)) 0))
      as (q & inf & Hl & _); [by apply queue_new_qlin | simpl; lia | auto |].
    unfold epidemic_new. rewrite Hl. simpl. eauto.
  - intros Hr Hlen. unfold ic_num_infected in Hlen.
    unfold epidemic_new.
    rewrite seed_loop_overflow;
      [done | by apply queue_new_qlin | done | simpl; lia | auto].
  - intros pre s post Hsplit Hpre Hlen Hs.
    unfold epidemic_new. rewrite Hsplit, seed_loop_app.
    destruct (seed_loop_unchecked pre (queue_new (g_n g))
                (replicate (Z.to_nat (g_n g)) 0))
      as (q & inf & -> & Hq & Hsz & Hbg & Hen & Hli);
      [by apply queue_new_qlin | simpl; lia | auto |].
    simpl in *. rewrite (queue_add_lin _ _ Hq) by lia. simpl.
    assert (aset inf s 1 = Err OutOfBounds) as ->; [|done].
    unfold aset. rewrite Hli, length_replicate.
    unfold in_range in Hs.
    destruct (Z.leb_spec 0 s), (Z.ltb_spec s (Z.of_nat (Z.to_nat (g_n g))));
      simpl; try done. lia.
  - intros Hp s gp ip bp mt th. by apply main_asserts_p.
Qed.

Lemma construction_checks_witness :
  (∃ e, epidemic_new 2 triangle (mkIC 7 [0; 0] 10 MaxTime) true = Ok e ∧
        e_num_infected e = 2 ∧ e_p e = 2%Q) ∧
  epidemic_new 1 triangle (mkIC 7 [0; 1; 2; 0] 10 MaxTime) true
  = Err AssertionFailed ∧
  epidemic_new 1 triangle (mkIC 7 [0; 3] 10 MaxTime) true
  = Err OutOfBounds ∧
  main_asserts 2 1 true true false 10 1 = Err AssertionFailed.
Proof.
  assert (0 ≤ g_n triangle) as Hn by (simpl; lia).
  split; [|split; [|split]].
  - destruct (construction_checks 2 triangle (mkIC 7 [0; 0] 10 MaxTime)
                true Hn) as (H & _).
    apply H.
    + simpl. repeat constructor; unfold in_range; simpl; lia.
    + unfold ic_num_infected. simpl. lia.
  - destruct (construction_checks 1 triangle
                (mkIC 7 [0; 1; 2; 0] 10 MaxTime) true Hn) as (_ & H & _).
    apply H.
    + simpl. repeat constructor; unfold in_range; simpl; lia.
    + unfold ic_num_infected. simpl. lia.
  - destruct (construction_checks 1 triangle (mkIC 7 [0; 3] 10 MaxTime)
                true Hn) as (_ & _ & H & _).
    apply (H [0] 3 []).
    + reflexivity.
    + repeat constructor; unfold in_range; simpl; lia.
    + simpl. lia.
    + unfold in_range. simpl. lia.
  - destruct (construction_checks 2 triangle (mkIC 7 [0] 10 MaxTime)
                true Hn) as (_ & _ & _ & H).
    apply H. intros [_ H']. revert H'. unfold Qle. simpl. lia.
Defined.

(** C8 as stated fails: repeated seeds and a probability outside (0, 1]
    are both accepted by [epidemic_new]. *)
Lemma construction_accepts_bad_input :
  ¬ NoDup [0; 0] ∧ ¬ (0 < 2 ∧ 2 <= 1)%Q ∧
  ∃ e, epidemic_new 2 triangle (mkIC 7 [0; 0] 10 MaxTime) true = Ok e ∧
       e_infected e = [1; 0; 0] ∧ e_num_infected e = 2.
Proof.
  split; [|split].
  - intros H. apply NoDup_cons in H as [H _]. apply H. left.
  - intros [_ H]. revert H. unfold Qle. simpl. lia.
  - eexists. split; [vm_compute; reflexivity|]. done.
Qed.

(** ** Cascade links *)

Lemma count_links_stable inf inf' tr :
  (∀ r, r ∈ tr → time_of inf' r.1.2 = time_of inf r.1.2) →
  count_links inf' tr = count_links inf tr.
Proof.
  unfold count_links. induction tr as [|r tr IH]; intros H; [done|].
  rewrite !filter_cons.
  assert (is_link inf' r ↔ is_link inf r) as Hr.
  { unfold is_link. rewrite (H r); [done | left]. }
  specialize (IH (λ r' Hr', H r' (list_elem_of_further _ _ _ Hr'))).
  destruct (decide (is_link inf' r)), (decide (is_link inf r));
    simpl; try tauto; lia.
Qed.

Lemma count_links_snoc inf tr r :
  count_links inf (tr ++ [r])
  = count_links inf tr + (if decide (is_link inf r) then 1 else 0).
Proof.
  unfold count_links. rewrite filter_app, length_app, filter_cons, filter_nil.
  destruct (decide (is_link inf r)); simpl; lia.
Qed.

Section Links.

Variable rand_seq : nat → Z.

(** Proof rule for the whole run: a property kept by the dequeue and by
    every trial holds at every observable point. *)
Lemma observable_invariant (P : Epidemic → World → Prop) seeds :
  (∀ e w, Inv seeds e → P e w → P (dequeued e) w) →
  (∀ e w u t v f e' w',
      Inv seeds e → 0 ≤ t → P e w →
      trial rand_seq e w u t v = Ok (f, e', w') → P e' w') →
  ∀ e0 w0 e w,
    Inv seeds e0 → P e0 w0 → observable rand_seq e0 w0 e w → P e w.
Proof.
  intros Hdeq Htrial e0 w0 e w HI0 HP0.
  assert (∀ e w f e' w',
            Inv seeds e → P e w → queue_empty (e_active e) = false →
            run_body rand_seq e w = Ok (f, e', w') → P e' w') as Hbody.
  { clear e w. intros e w f e' w' HI HP Hne Hb.
    destruct (run_body_cases rand_seq seeds e w HI Hne)
      as (u & t & _ & _ & _ & Ht & HId &
          [(_ & _ & Hret) | (_ & vs & _ & _ & Hloop)]).
    - rewrite Hb in Hret. injection Hret as -> -> ->. by apply Hdeq.
    - rewrite Hloop in Hb.
      destruct (for_links_inv rand_seq
                  (λ _ e1 w1, Inv seeds e1 ∧ P e1 w1) u t vs)
        with (3 := Hb) as (_ & (_ & HP') & _); [| |done].
      + intros pre v e1 w1 f1 e2 w2 _ [HI1 HP1] Htr.
        split; [eapply Inv_trial; [done| |done]; lia|].
        eapply Htrial; [done| |done..]. lia.
      + split; [done|]. by apply Hdeq. }
  assert (∀ e w, at_loop_head rand_seq e0 w0 e w → P e w) as Hhead.
  { clear e w. intros e w H. induction H as [|e w e' w' H IH Hne Hb]; [done|].
    eapply Hbody; [|done..]. by eapply Inv_at_loop_head. }
  intros [H | (e1 & w1 & H & Hne & Hb)]; [by apply Hhead|].
  eapply Hbody; [| |done..]; [by eapply Inv_at_loop_head | by apply Hhead].
Qed.

(** The account of one trial: a success adds one to [cascade_links] when
    the target was not infected or was infected at [t + 1], and nothing
    otherwise; a failure adds nothing. *)
Lemma trial_links_step e w u t v f e' w' :
  trial rand_seq e w u t v = Ok (f, e', w') →
  (success (e_p e) (rand_seq (rand_calls w)) = false →
   e_cascade_links e' = e_cascade_links e) ∧
  (success (e_p e) (rand_seq (rand_calls w)) = true →
   ∀ iv, aget (e_infected e) v = Ok iv →
         e_cascade_links e'
         = e_cascade_links e
           + (if (iv =? 0) || (iv =? t + 1) then 1 else 0)).
Proof.
  intros H.
  apply trial_cases in H
    as [(Hf & _ & -> & _) | [(Hs & iv & Hiv & Hne & _ & -> & _)
                            | (Hs & Hv & q' & _ & -> & _)]].
  - split; [done | congruence].
  - split; [congruence|]. intros _ iv' Hiv'.
    rewrite Hiv in Hiv'. injection Hiv' as <-.
    destruct (Z.eqb_spec iv 0); [done|]. simpl.
    destruct (iv =? t + 1); simpl; lia.
  - split; [congruence|]. intros _ iv' Hiv'.
    rewrite Hv in Hiv'. injection Hiv' as <-. simpl. done.
Qed.

Lemma trial_Links seeds e w u t v f e' w' :
  Inv seeds e → 0 ≤ t → Links e w →
  trial rand_seq e w u t v = Ok (f, e', w') → Links e' w'.
Proof.
  intros HI Ht [Hout Hcount Htargets] H.
  apply trial_cases in H
    as [(_ & _ & -> & ->) | [(_ & iv & Hiv & Hne & _ & -> & ->)
                            | (_ & Hv & q' & _ & -> & -> & _)]].
  - by constructor.
  - pose proof (time_of_Ok _ _ _ Hiv) as Htv.
    assert (0 < iv) as Hpos.
    { pose proof (inv_nonneg _ _ HI) as Hnn.
      apply aget_Ok in Hiv as [_ Hiv].
      eapply Forall_lookup_1 in Hnn; [|done]. simpl in Hnn. lia. }
    unfold print_record.
    assert (e_output (if iv =? t + 1 then incr_links e else e) = true) as ->
      by by destruct (iv =? t + 1).
    assert (e_infected (if iv =? t + 1 then incr_links e else e)
            = e_infected e) as Hinf by by destruct (iv =? t + 1).
    constructor; simpl.
    + by destruct (iv =? t + 1).
    + rewrite Hinf, count_links_snoc.
      destruct (decide (is_link _ _)) as [Hl|Hl];
        unfold is_link in Hl; simpl in Hl; rewrite Htv in Hl;
        destruct (Z.eqb_spec iv (t + 1)); simpl; lia.
    + rewrite Hinf.
      intros r [Hr | ->%list_elem_of_singleton]%elem_of_app;
        [by apply Htargets | simpl; lia].
  - pose proof (time_of_Ok _ _ _ Hv) as Htv.
    pose proof (aget_in_range _ _ _ Hv) as Hr.
    unfold print_record. simpl. rewrite Hout.
    assert (∀ r, r ∈ trace w →
              time_of (<[Z.to_nat v := t + 1]> (e_infected e)) r.1.2
              = time_of (e_infected e) r.1.2) as Hold.
    { intros r Hin. specialize (Htargets r Hin).
      apply time_of_insert_ne; [lia|]. intros Heq. rewrite <- Heq in Htargets.
      lia. }
    constructor; simpl.
    + done.
    + rewrite count_links_snoc, (count_links_stable _ _ _ Hold).
      destruct (decide (is_link _ _)) as [Hl|Hl]; [lia|].
      exfalso. apply Hl. unfold is_link. simpl.
      by apply time_of_insert_eq.
    + intros r [Hin | ->%list_elem_of_singleton]%elem_of_app.
      * rewrite (Hold r Hin). by apply Htargets.
      * simpl. rewrite time_of_insert_eq by done. lia.
Qed.

End Links.

(** C1, as the code has it.  A successful trial adds exactly one to
    [cascade_links] when its target was not yet infected or was infected
    with time [t + 1] ([t] the time of the provider), and nothing when the
    target was infected at another time; a failed trial adds nothing.
    Hence, in a traced run from distinct seeds inside [[0, n)] started on
    an empty trace, [cascade_links] is at every observable point the
    number of printed records [t u v id] whose client [v] has infection
    time [t + 1].  On the triangle 0→1, 0→2, 1→2 with seed 0, [p = 1] and
    depth bound 10 the run ends with [cascade_links = 2]: the trial 1→2
    is made at [t = 2] on a client of time 2, not 3. *)
Theorem cascade_links_counting :
  (∀ (rand : nat → Z) e w u t v f e' w',
      trial rand e w u t v = Ok (f, e', w') →
      (success (e_p e) (rand (rand_calls w)) = false →
       e_cascade_links e' = e_cascade_links e) ∧
      (success (e_p e) (rand (rand_calls w)) = true →
       ∀ iv, aget (e_infected e) v = Ok iv →
             e_cascade_links e'
             = e_cascade_links e
               + (if (iv =? 0) || (iv =? t + 1) then 1 else 0))) ∧
  (∀ (rand : nat → Z) (p : Q) (g : graph) (ic : InitialCondition)
     (w0 : World),
      graph_wf g → seeds_ok g ic → trace w0 = [] →
      ∃ e0,
        epidemic_new p g ic true = Ok e0 ∧
        (∀ e w, observable rand e0 w0 e w →
                e_cascade_links e = count_links (e_infected e) (trace w)) ∧
        ∃ e' w', epidemic_run rand e0 w0 = Some (Ok (e', w')) ∧
                 observable rand e0 w0 e' w') ∧
  (∀ (rand : nat → Z) (id : Z),
      (∀ k, 0 ≤ rand k ≤ RAND_MAX) →
      ∃ e w,
        simulate rand 1 triangle (mkIC id [0] 10 MaxTime)
        = Some (Ok (e, w)) ∧
        trace w = [(1, 0, 1, id); (1, 0, 2, id); (2, 1, 2, id)] ∧
        e_infected e = [1; 2; 2] ∧
        e_num_infected e = 3 ∧
        e_cascade_links e = 2).
Proof.
  split; [|split].
  - intros rand e w u t v f e' w' H. by eapply trial_links_step.
  - intros rand p g ic w0 Hg Hs Hw0.
    destruct (epidemic_new_Inv p g ic true Hg Hs) as (e0 & Hnew & HI & _).
    pose proof (epidemic_new_fields _ _ _ _ _ Hnew)
      as (_ & _ & _ & _ & _ & Hout & _ & Hl0 & _).
    assert (Links e0 w0) as HL0.
    { constructor; [done | by rewrite Hw0 |].
      rewrite Hw0. by intros r ?%elem_of_nil. }
    exists e0. split; [done|]. split.
    + intros e w Hobs. apply lk_count.
      apply (observable_invariant rand Links (ic_infected ic))
        with (e0 := e0) (w0 := w0); try done.
      * intros e1 w1 _ []. by constructor.
      * intros e1 w1 u t v f e2 w2 HI1 Ht HL1 Htr. by eapply trial_Links.
    + destruct (epidemic_run_total rand _ e0 w0 HI)
        as (e' & w' & Hrun & Hfin & _).
      exists e', w'. split; [done|]. by apply finished_observable.
  - intros rand id Hr. rewrite (simulate_certain rand) by done.
    eexists _, _. split; [vm_compute; reflexivity|]. done.
Qed.

Lemma cascade_links_counting_witness :
  e_cascade_links triangle_at_1
  = e_cascade_links triangle_at_1
    + (if (2 =? 0) || (2 =? 2 + 1) then 1 else 0) ∧
  (∃ e0,
      epidemic_new 1 triangle (mkIC 7 [0] 10 MaxTime) true = Ok e0 ∧
      (∀ e w, observable (λ _, RAND_MAX) e0 world0 e w →
              e_cascade_links e = count_links (e_infected e) (trace w)) ∧
      ∃ e' w', epidemic_run (λ _, RAND_MAX) e0 world0 = Some (Ok (e', w')) ∧
               observable (λ _, RAND_MAX) e0 world0 e' w') ∧
  ∃ e w,
    simulate (λ _, RAND_MAX) 1 triangle (mkIC 7 [0] 10 MaxTime)
    = Some (Ok (e, w)) ∧
    trace w = [(1, 0, 1, 7); (1, 0, 2, 7); (2, 1, 2, 7)] ∧
    e_infected e = [1; 2; 2] ∧
    e_num_infected e = 3 ∧
    e_cascade_links e = 2.
Proof.
  destruct cascade_links_counting as (Htrial & Hrun & Htri).
  split; [|split].
  - destruct (Htrial (λ _, 0) triangle_at_1
                (mkWorld 2 [(1, 0, 1, 7); (1, 0, 2, 7)]) 1 2 2 Continue
                triangle_at_1
                (mkWorld 3 [(1, 0, 1, 7); (1, 0, 2, 7); (2, 1, 2, 7)]))
      as [_ H]; [reflexivity|].
    apply (H eq_refl 2). reflexivity.
  - apply (Hrun (λ _, RAND_MAX) 1%Q triangle (mkIC 7 [0] 10 MaxTime) world0).
    + apply (bool_decide_unpack _). vm_compute. reflexivity.
    + apply (bool_decide_unpack _). vm_compute. reflexivity.
    + reflexivity.
  - apply (Htri (λ _, RAND_MAX) 7).
    intros _. unfold RAND_MAX. lia.
Defined.

(** C1 as stated fails on its scenario: the triangle run ends with two
    cascade links, not three. *)
Lemma triangle_links_not_three :
  ∃ e w,
    simulate (λ _, 0) 1 triangle (mkIC 7 [0] 10 MaxTime)
    = Some (Ok (e, w)) ∧
    e_cascade_links e = 2 ∧ e_cascade_links e ≠ 3.
Proof.
  eexists _, _. split; [vm_compute; reflexivity|]. simpl. lia.
Qed.

(** ** Termination by the size bound *)

Lemma for_links_app rand u t a b :
  ∀ e w,
    for_links rand e w u t (a ++ b)
    = match for_links rand e w u t a with
      | Ok (Continue, e', w') => for_links rand e' w' u t b
      | r => r
      end.
Proof.
  induction a as [|v a IH]; intros e w; simpl.
  - by destruct (for_links rand e w u t b) as [[[[] ?] ?]|].
  - destruct (trial rand e w u t v) as [[[[] e1] w1]|]; simpl; [|done..].
    apply IH.
Qed.

(** C4, as the code has it.  With the size criterion, in a run from
    distinct seeds inside [[0, n)]: when, while the dequeued node [u] of
    time [t] is processed, a successful trial on a neighbour [v] not yet
    infected raises [num_infected] to [bound], then this trial infects
    [v], prints the one record [t u v id] (if a trace is kept) and
    returns from the run: the state it leaves is the final state, whatever
    neighbours [rest] of [u] remain and whatever the queue still holds.
    On the star with centre 0 and arcs to 1..4, seed 0, [p = 1] and bound
    3, the run prints exactly two records, both at step 1, and ends with
    [num_infected = 3]: the seed counts towards the bound. *)
Theorem size_bound_stops :
  (∀ (rand : nat → Z) (p : Q) (g : graph) (ic : InitialCondition)
     (out : bool) (w0 : World) e0 e w u q1 t pre v rest e1 w1 (fuel : nat),
      graph_wf g → seeds_ok g ic →
      epidemic_new p g ic out = Ok e0 →
      at_loop_head rand e0 w0 e w →
      e_stop_criterion e = NumInfected →
      queue_get (e_active e) = Ok (u, q1) →
      aget (e_infected e) u = Ok t →
      links_of (e_g e) u = Ok (pre ++ v :: rest) →
      for_links rand (set_active e q1) w u t pre = Ok (Continue, e1, w1) →
      success (e_p e1) (rand (rand_calls w1)) = true →
      aget (e_infected e1) v = Ok 0 →
      e_num_infected e1 + 1 = e_bound e1 →
      ∃ e2 w2,
        trial rand e1 w1 u t v = Ok (Return, e2, w2) ∧
        trace w2
        = trace w1 ++ (if e_output e1 then [(t, u, v, e_id e1)] else []) ∧
        rand_calls w2 = S (rand_calls w1) ∧
        aget (e_infected e2) v = Ok (t + 1) ∧
        e_num_infected e2 = e_bound e2 ∧
        run_body rand e w = Ok (Return, e2, w2) ∧
        run_fuel rand (S fuel) e w = Some (Ok (e2, w2))) ∧
  (∀ (rand : nat → Z) (id : Z),
      (∀ k, 0 ≤ rand k ≤ RAND_MAX) →
      ∃ e w,
        simulate rand 1 star5 (mkIC id [0] 3 NumInfected)
        = Some (Ok (e, w)) ∧
        trace w = [(1, 0, 1, id); (1, 0, 2, id)] ∧
        e_infected e = [1; 2; 2; 0; 0] ∧
        e_num_infected e = 3).
Proof.
  split.
  - intros rand p g ic out w0 e0 e w u q1 t pre v rest e1 w1 fuel
           Hg Hs Hnew Hh Hstop Hget Hut Hlinks Hpre Hsucc Hv Hnum.
    destruct (epidemic_new_Inv p g ic out Hg Hs) as (e0' & Hnew' & HI0 & _).
    rewrite Hnew in Hnew'. injection Hnew' as <-.
    pose proof (Inv_at_loop_head _ _ _ _ _ _ HI0 Hh) as HIe.
    pose proof (queue_get_nonempty _ _ Hget) as Hne.
    destruct (run_body_cases rand _ e w HIe Hne)
      as (u' & t' & _ & Hget' & Hut' & Ht & HId & _).
    rewrite Hget in Hget'. injection Hget' as <- ->.
    rewrite Hut in Hut'. injection Hut' as <-.
    change (set_active e _) with (dequeued e) in Hpre.
    assert (0 ≤ t) as Ht0 by lia.
    destruct (for_links_Inv rand _ _ _ _ _ _ _ _ _ HId Ht0 Hpre)
      as (HI1 & Hfr).
    pose proof (aget_in_range _ _ _ Hv) as Hvr.
    assert (trial rand e1 w1 u t v
            = Ok (Return,
                  infect e1 (<[Z.to_nat v := t + 1]> (e_infected e1))
                    (mkQueue (qsize (e_active e1)) (qbegin (e_active e1))
                       (qend (e_active e1) + 1)
                       (<[Z.to_nat (qend (e_active e1)) := v]>
                          (qnodes (e_active e1)))) t,
                  print_record e1 (draw w1) t u v)) as Htrial.
    { unfold trial. rewrite Hsucc, Hv. simpl.
      assert (aset (e_infected e1) v (t + 1)
              = Ok (<[Z.to_nat v := t + 1]> (e_infected e1))) as ->
        by by apply aset_Ok.
      simpl.
      rewrite (queue_add_lin _ _ (Inv_qlin _ _ HI1) (Inv_room _ _ _ HI1 Hv)).
      simpl. rewrite (fr_stop _ _ Hfr). simpl. rewrite Hstop. simpl.
      rewrite <- Hnum, Z.eqb_refl. done. }
    assert (run_body rand e w
            = Ok (Return,
                  infect e1 (<[Z.to_nat v := t + 1]> (e_infected e1))
                    (mkQueue (qsize (e_active e1)) (qbegin (e_active e1))
                       (qend (e_active e1) + 1)
                       (<[Z.to_nat (qend (e_active e1)) := v]>
                          (qnodes (e_active e1)))) t,
                  print_record e1 (draw w1) t u v)) as Hbody.
    { unfold run_body. rewrite Hget. simpl. fold (dequeued e).
      rewrite Hut. simpl. rewrite Hstop. simpl. rewrite Hlinks. simpl.
      rewrite for_links_app, Hpre. simpl. rewrite Htrial. done. }
    eexists _, _. split; [exact Htrial|].
    split; [unfold print_record; by destruct (e_output e1); simpl; rewrite ?app_nil_r|].
    split; [unfold print_record; by destruct (e_output e1)|].
    split.
    { simpl. apply aget_Ok. split; [lia|].
      apply list_lookup_insert_eq. lia. }
    split; [simpl; lia|]. split; [exact Hbody|].
    simpl. rewrite Hne, Hbody. done.
  - intros rand id Hr. rewrite (simulate_certain rand) by done.
    eexists _, _. split; [vm_compute; reflexivity|]. done.
Qed.

Lemma size_bound_stops_witness :
  (∃ e2 w2,
      trial (λ _, 0) star_mid (mkWorld 1 [(1, 0, 1, 7)]) 0 1 2
      = Ok (Return, e2, w2) ∧
      trace w2 = [(1, 0, 1, 7)] ++ [(1, 0, 2, 7)] ∧
      rand_calls w2 = 2%nat ∧
      aget (e_infected e2) 2 = Ok (1 + 1) ∧
      e_num_infected e2 = e_bound e2 ∧
      run_body (λ _, 0) star_start world0 = Ok (Return, e2, w2) ∧
      run_fuel (λ _, 0) 6 star_start world0 = Some (Ok (e2, w2))) ∧
  ∃ e w,
    simulate (λ _, RAND_MAX) 1 star5 (mkIC 7 [0] 3 NumInfected)
    = Some (Ok (e, w)) ∧
    trace w = [(1, 0, 1, 7); (1, 0, 2, 7)] ∧
    e_infected e = [1; 2; 2; 0; 0] ∧
    e_num_infected e = 3.
Proof.
  destruct size_bound_stops as (Hstop & Hstar).
  split.
  - apply (Hstop (λ _, 0) 1%Q star5 (mkIC 7 [0] 3 NumInfected) true world0
             star_start star_start world0 0
             (mkQueue 6 1 1 [0; 0; 0; 0; 0; 0]) 1 [1] 2 [3; 4]
             star_mid (mkWorld 1 [(1, 0, 1, 7)]) 5%nat).
    + apply (bool_decide_unpack _). vm_compute. reflexivity.
    + apply (bool_decide_unpack _). vm_compute. reflexivity.
    + reflexivity.
    + apply head_start.
    + reflexivity.
    + reflexivity.
    + reflexivity.
    + reflexivity.
    + reflexivity.
    + reflexivity.
    + reflexivity.
    + reflexivity.
  - apply (Hstar (λ _, RAND_MAX) 7).
    intros _. unfold RAND_MAX. lia.
Defined.

(** C4 as stated fails on its scenario: the star run prints two records,
    not three. *)
Lemma star_prints_two_records :
  ∃ e w,
    simulate (λ _, 0) 1 star5 (mkIC 7 [0] 3 NumInfected)
    = Some (Ok (e, w)) ∧
    length (trace w) = 2%nat ∧ length (trace w) ≠ 3%nat ∧
    e_num_infected e = 3.
Proof.
  eexists _, _. split; [vm_compute; reflexivity|]. simpl. split; [done|].
  split; [lia | done].
Qed.

(** * Further properties of the code *)

(** ** queue.c: the ring buffer with wrap-around *)

Lemma mod_wrap x s :
  0 < s → 0 ≤ x < 2 * s →
  x `mod` s = if decide (x < s) then x else x - s.
Proof.
  intros Hs Hx. destruct (decide (x < s)).
  - apply Z.mod_small. lia.
  - symmetry. apply (Z.mod_unique_pos x s 1); lia.
Qed.

Lemma mod_neg x s :
  0 < s → - s ≤ x < s →
  x `mod` s = if decide (0 ≤ x) then x else x + s.
Proof.
  intros Hs Hx. destruct (decide (0 ≤ x)).
  - apply Z.mod_small. lia.
  - symmetry. apply (Z.mod_unique_pos x s (-1)); lia.
Qed.

Lemma rem_wrap x s :
  0 < s → 0 ≤ x < s →
  Z.rem (x + 1) s = if decide (x + 1 = s) then 0 else x + 1.
Proof.
  intros Hs Hx. rewrite Z.rem_mod_nonneg by lia.
  destruct (decide (x + 1 = s)) as [->|].
  - apply Z_mod_same_full.
  - apply Z.mod_small. lia.
Qed.

Lemma queue_contents_eq q :
  queue_contents q = (λ k, nth (qslot q k) (qnodes q) 0) <$> seq 0 (qlen q).
Proof. done. Qed.

Lemma queue_contents_length q : length (queue_contents q) = qlen q.
Proof. by rewrite queue_contents_eq, length_fmap, length_seq. Qed.

Lemma qlen_lt q : wf_queue q → (qlen q < Z.to_nat (qsize q))%nat.
Proof.
  intros (Hs & Hb & He & Hl). unfold qlen.
  pose proof (Z.mod_pos_bound (qend q - qbegin q) (qsize q) Hs). lia.
Qed.

Lemma qlen_val q :
  wf_queue q →
  Z.of_nat (qlen q)
  = if decide (qbegin q ≤ qend q) then qend q - qbegin q
    else qend q - qbegin q + qsize q.
Proof.
  intros (Hs & Hb & He & Hl). unfold qlen.
  rewrite mod_neg by lia.
  destruct (decide (0 ≤ qend q - qbegin q)), (decide (qbegin q ≤ qend q));
    lia.
Qed.

Lemma qslot_val q k :
  wf_queue q → (k < Z.to_nat (qsize q))%nat →
  Z.of_nat (qslot q k)
  = if decide (qbegin q + Z.of_nat k < qsize q) then qbegin q + Z.of_nat k
    else qbegin q + Z.of_nat k - qsize q.
Proof.
  intros (Hs & Hb & He & Hl) Hk. unfold qslot.
  rewrite mod_wrap by lia.
  destruct (decide (qbegin q + Z.of_nat k < qsize q)); lia.
Qed.

Lemma queue_empty_contents q :
  wf_queue q → (queue_empty q = true ↔ queue_contents q = []).
Proof.
  intros Hq. rewrite queue_empty_true.
  pose proof (qlen_val q Hq) as Hv. pose proof Hq as (Hs & Hb & He & Hl).
  split.
  - intros Heq. apply nil_length_inv. rewrite queue_contents_length.
    destruct (decide (qbegin q ≤ qend q)); lia.
  - intros Hnil. apply (f_equal length) in Hnil.
    rewrite queue_contents_length in Hnil. simpl in Hnil.
    destruct (decide (qbegin q ≤ qend q)); lia.
Qed.

Lemma queue_full_contents q :
  wf_queue q →
  (queue_full q = true ↔
   Z.of_nat (length (queue_contents q)) = qsize q - 1).
Proof.
  intros Hq. pose proof (qlen_val q Hq) as Hv.
  pose proof Hq as (Hs & Hb & He & Hl).
  unfold queue_full. rewrite Z.eqb_eq, rem_wrap by lia.
  rewrite queue_contents_length.
  destruct (decide (qend q + 1 = qsize q)),
    (decide (qbegin q ≤ qend q)); lia.
Qed.

Lemma queue_add_wf q x :
  wf_queue q → queue_full q = false →
  ∃ q', queue_add q x = Ok q' ∧ wf_queue q' ∧
        qsize q' = qsize q ∧
        queue_contents q' = queue_contents q ++ [x].
Proof.
  intros Hq Hfull. pose proof Hq as (Hs & Hb & He & Hl).
  unfold queue_add. rewrite Hfull.
  assert (aset (qnodes q) (qend q) x
          = Ok (<[Z.to_nat (qend q) := x]> (qnodes q))) as ->.
  { apply aset_Ok. split; [lia | done]. }
  simpl. eexists. split; [done|].
  set (q' := mkQueue _ _ _ _).
  assert (qend q' = if decide (qend q + 1 = qsize q) then 0 else qend q + 1)
    as Hend by (simpl; by apply rem_wrap).
  assert (wf_queue q') as Hq'.
  { repeat split; simpl qsize; simpl qbegin; try lia.
    - rewrite Hend. destruct (decide _); lia.
    - rewrite Hend. destruct (decide _); lia.
    - simpl. rewrite length_insert. done. }
  split; [done|]. split; [done|].
  assert (qbegin q ≠ qend q') as Hnf.
  { unfold queue_full in Hfull. apply Z.eqb_neq in Hfull. done. }
  pose proof (qlen_val q Hq) as Hv. pose proof (qlen_val q' Hq') as Hv'.
  simpl qbegin in Hv'. simpl qsize in Hv'.
  assert (qlen q' = S (qlen q)) as Hlen.
  { rewrite Hend in Hv', Hnf.
    destruct (decide (qend q + 1 = qsize q)),
      (decide (qbegin q ≤ qend q)), (decide (qbegin q ≤ _)); lia. }
  rewrite !queue_contents_eq, Hlen, seq_S, fmap_app. simpl. f_equal.
  - apply list_fmap_ext. intros k' k Hk.
    apply lookup_seq in Hk as [Hk0 Hk]. simpl in Hk0. subst k'. simpl.
    change (qslot q' k) with (qslot q k). simpl.
    rewrite !nth_lookup, list_lookup_insert_ne; [done|].
    pose proof (qlen_lt q Hq).
    pose proof (qslot_val q k Hq ltac:(lia)) as Hsl.
    destruct (decide (qbegin q + Z.of_nat k < qsize q)),
      (decide (qbegin q ≤ qend q)); lia.
  - f_equal. change (qslot q' (qlen q)) with (qslot q (qlen q)). simpl.
    pose proof (qlen_lt q Hq).
    pose proof (qslot_val q (qlen q) Hq ltac:(lia)) as Hsl.
    assert (qslot q (qlen q) = Z.to_nat (qend q)) as ->.
    { destruct (decide (qbegin q + Z.of_nat (qlen q) < qsize q)),
        (decide (qbegin q ≤ qend q)); lia. }
    rewrite nth_lookup, list_lookup_insert_eq by lia. done.
Qed.

Lemma queue_get_wf q :
  wf_queue q → queue_empty q = false →
  ∃ r q', queue_get q = Ok (r, q') ∧ wf_queue q' ∧
          qsize q' = qsize q ∧
          queue_contents q = r :: queue_contents q'.
Proof.
  intros Hq Hemp. pose proof Hq as (Hs & Hb & He & Hl).
  destruct (aget_total (qnodes q) (qbegin q)) as [r Hr]; [lia|].
  unfold queue_get. rewrite Hr, Hemp. simpl.
  eexists r, _. split; [done|].
  set (q' := mkQueue _ _ _ _).
  assert (qbegin q'
          = if decide (qbegin q + 1 = qsize q) then 0 else qbegin q + 1)
    as Hbegin by (simpl; by apply rem_wrap).
  assert (wf_queue q') as Hq'.
  { repeat split; simpl qsize; simpl qend; try lia.
    - rewrite Hbegin. destruct (decide _); lia.
    - rewrite Hbegin. destruct (decide _); lia.
    - done. }
  split; [done|]. split; [done|].
  apply queue_empty_false in Hemp.
  pose proof (qlen_val q Hq) as Hv. pose proof (qlen_val q' Hq') as Hv'.
  simpl qend in Hv'. simpl qsize in Hv'.
  assert (qlen q = S (qlen q')) as Hlen.
  { rewrite Hbegin in Hv'.
    destruct (decide (qbegin q + 1 = qsize q)),
      (decide (qbegin q ≤ qend q)), (decide (_ ≤ qend q)); lia. }
  rewrite !queue_contents_eq, Hlen. simpl. f_equal.
  - assert (qslot q 0 = Z.to_nat (qbegin q)) as ->.
    { pose proof (qslot_val q 0 Hq ltac:(lia)) as Hsl.
      destruct (decide (qbegin q + Z.of_nat 0 < qsize q)); lia. }
    apply aget_Ok in Hr as [_ Hr]. rewrite nth_lookup, Hr. done.
  - rewrite <- fmap_S_seq, <- list_fmap_compose.
    apply list_fmap_ext. intros k' k Hk.
    apply lookup_seq in Hk as [Hk0 Hk]. simpl in Hk0. subst k'. simpl.
    f_equal.
    pose proof (qlen_lt q Hq). pose proof (qlen_lt q' Hq').
    pose proof (qslot_val q (S k) Hq ltac:(lia)) as Hsl.
    pose proof (qslot_val q' k Hq' ltac:(simpl; lia)) as Hsl'.
    simpl qsize in Hsl'. rewrite Hbegin in Hsl'.
    destruct (decide (qbegin q + 1 = qsize q)),
      (decide (qbegin q + Z.of_nat (S k) < qsize q)),
      (decide (_ + Z.of_nat k < qsize q)); lia.
Qed.

Lemma queue_get_empty q :
  wf_queue q → queue_empty q = true → queue_get q = Err AssertionFailed.
Proof.
  intros (Hs & Hb & He & Hl) Hemp. unfold queue_get.
  destruct (aget_total (qnodes q) (qbegin q)) as [r ->]; [lia|].
  simpl. by rewrite Hemp.
Qed.

Lemma queue_add_full q x :
  queue_full q = true → queue_add q x = Err AssertionFailed.
Proof. intros H. unfold queue_add. by rewrite H. Qed.

Lemma queue_ops_refines ops :
  ∀ q, wf_queue q →
       same_outcome (queue_ops ops q)
         (fifo_ops (Z.to_nat (qsize q - 1)) ops (queue_contents q)).
Proof.
  induction ops as [|[x|] ops IH]; intros q Hq; simpl.
  - done.
  - pose proof (queue_full_contents q Hq) as Hfull.
    pose proof Hq as (Hs & _).
    destruct (queue_full q) eqn:Hf.
    + rewrite (queue_add_full q x Hf).
      destruct (decide _) as [|Hn]; [done|].
      exfalso. apply Hn. destruct Hfull as [Hfull _].
      specialize (Hfull eq_refl). lia.
    + destruct (queue_add_wf q x Hq Hf) as (q' & -> & Hq' & Hsz & Hc).
      destruct (decide _) as [Hd|_].
      { destruct Hfull as [_ Hfull]. exfalso.
        assert (false = true) as Habs by (apply Hfull; lia). done. }
      simpl. specialize (IH q' Hq'). by rewrite Hsz, Hc in IH.
  - pose proof (queue_empty_contents q Hq) as Hemp.
    destruct (queue_empty q) eqn:He.
    + rewrite (queue_get_empty q Hq He).
      destruct Hemp as [Hemp _]. by rewrite (Hemp eq_refl).
    + destruct (queue_get_wf q Hq He) as (r & q' & -> & Hq' & Hsz & Hc).
      rewrite Hc. simpl. specialize (IH q' Hq'). rewrite Hsz in IH.
      destruct (queue_ops ops q') as [[rs q'']|],
        (fifo_ops _ ops (queue_contents q')) as [[rs' l'']|];
        simpl in *; try done.
      destruct IH as (-> & ? & ?). done.
Qed.

Lemma queue_ops_size ops :
  ∀ q rs q', queue_ops ops q = Ok (rs, q') → qsize q' = qsize q.
Proof.
  induction ops as [|[x|] ops IH]; intros q rs q' H; simpl in H.
  - by injection H as _ <-.
  - unfold queue_add in H. destruct (queue_full q); [done|].
    destruct (aset _ _ _) as [nodes'|]; [|done]. simpl in H.
    by rewrite (IH _ _ _ H).
  - unfold queue_get in H.
    destruct (aget _ _) as [r|]; [|done]. simpl in H.
    destruct (queue_empty q); [done|]. simpl in H.
    destruct (queue_ops ops _) as [[rs1 q1]|] eqn:Hops; [|done].
    simpl in H. injection H as _ <-. by rewrite (IH _ _ _ Hops).
Qed.

Lemma fifo_adds cap xs :
  ∀ l, (length l ≤ cap)%nat →
       fifo_ops cap (QAdd <$> xs) l
       = if decide (length l + length xs ≤ cap)%nat
         then Ok ([], l ++ xs) else Err AssertionFailed.
Proof.
  induction xs as [|x xs IH]; intros l Hl; simpl.
  - rewrite app_nil_r. destruct (decide _); [done | lia].
  - destruct (decide (length l = cap)) as [Heq|Hne].
    + destruct (decide _); [lia | done].
    + rewrite IH by (rewrite length_app; simpl; lia).
      rewrite length_app. simpl. rewrite <- app_assoc. simpl.
      destruct (decide _), (decide _); try done; lia.
Qed.

Lemma fifo_gets cap l :
  ∀ k, fifo_ops cap (replicate k QGet) l
       = if decide (k ≤ length l)%nat
         then Ok (take k l, drop k l) else Err AssertionFailed.
Proof.
  induction l as [|r l IH]; intros [|k]; simpl; try done.
  rewrite IH. destruct (decide (k ≤ length l)%nat), (decide _);
    try done; lia.
Qed.

(** X1.  On a well-formed buffer every sequence of [queue_add] and
    [queue_get] calls behaves as on a first-in first-out list holding at
    most [size - 1] elements: the calls fail at the same point with the
    same assertion, or return the same values and leave the same content,
    whether or not [begin] and [end] wrap around. *)
Theorem queue_is_bounded_fifo (ops : list qop) (q : Queue) :
  wf_queue q →
  same_outcome (queue_ops ops q)
    (fifo_ops (Z.to_nat (qsize q - 1)) ops (queue_contents q)).
Proof. apply queue_ops_refines. Qed.

Lemma queue_is_bounded_fifo_witness :
  same_outcome
    (queue_ops [QAdd 1; QAdd 2; QGet; QAdd 3; QGet; QGet; QAdd 4; QAdd 5; QGet]
       (mkQueue 3 2 2 [7; 8; 9]))
    (fifo_ops 2 [QAdd 1; QAdd 2; QGet; QAdd 3; QGet; QGet; QAdd 4; QAdd 5; QGet]
       []).
Proof.
  apply (queue_is_bounded_fifo
           [QAdd 1; QAdd 2; QGet; QAdd 3; QGet; QGet; QAdd 4; QAdd 5; QGet]
           (mkQueue 3 2 2 [7; 8; 9])).
  apply (bool_decide_unpack _). vm_compute. reflexivity.
Defined.

(** X2.  [queue_new(n)] with [n ≥ 0] makes a well-formed empty buffer that
    takes exactly [n] elements: pushing a list of at most [n] elements
    succeeds and leaves that list as content (the buffer is then full
    exactly when the list has [n] elements), and pushing more than [n]
    fails on the assertion of [queue_add]. *)
Theorem queue_new_capacity (n : Z) (xs : list Z) :
  0 ≤ n →
  wf_queue (queue_new n) ∧
  queue_empty (queue_new n) = true ∧
  queue_contents (queue_new n) = [] ∧
  (Z.of_nat (length xs) ≤ n →
   ∃ q, queue_ops (QAdd <$> xs) (queue_new n) = Ok ([], q) ∧
        wf_queue q ∧ queue_contents q = xs ∧
        (queue_full q = true ↔ Z.of_nat (length xs) = n)) ∧
  (n < Z.of_nat (length xs) →
   queue_ops (QAdd <$> xs) (queue_new n) = Err AssertionFailed).
Proof.
  intros Hn.
  assert (wf_queue (queue_new n)) as Hq.
  { repeat split; simpl; try lia. rewrite length_replicate. lia. }
  assert (queue_contents (queue_new n) = []) as Hc.
  { by apply queue_empty_contents. }
  split; [done|]. split; [done|]. split; [done|].
  pose proof (queue_ops_refines (QAdd <$> xs) _ Hq) as Href.
  rewrite Hc, fifo_adds in Href by (simpl; lia). simpl in Href.
  split.
  - intros Hlen.
    destruct (decide _) as [_|Hbad]; [|lia].
    destruct (queue_ops _ _) as [[rs q]|] eqn:Hops; [|done].
    destruct Href as (-> & Hcq & Hwq). exists q.
    split; [done|]. split; [done|]. split; [done|].
    rewrite (queue_full_contents q Hwq), Hcq.
    rewrite (queue_ops_size _ _ _ _ Hops). simpl. lia.
  - intros Hlen. destruct (decide _) as [Hbad|_]; [lia|].
    destruct (queue_ops _ _) as [[rs q]|e]; [done|]. by rewrite Href.
Qed.

Lemma queue_new_capacity_witness :
  wf_queue (queue_new 2) ∧
  queue_empty (queue_new 2) = true ∧
  queue_contents (queue_new 2) = [] ∧
  (Z.of_nat (length [5; 6]) ≤ 2 →
   ∃ q, queue_ops (QAdd <$> [5; 6]) (queue_new 2) = Ok ([], q) ∧
        wf_queue q ∧ queue_contents q = [5; 6] ∧
        (queue_full q = true ↔ Z.of_nat (length [5; 6]) = 2)) ∧
  (2 < Z.of_nat (length [5; 6]) →
   queue_ops (QAdd <$> [5; 6]) (queue_new 2) = Err AssertionFailed).
Proof.
  apply (queue_new_capacity 2 [5; 6]). lia.
Defined.

(** X3.  What [queue_empty] and [queue_full] mean on a well-formed
    buffer: empty is "no element held", full is "[size - 1] elements
    held", and no more than [size - 1] are ever held.  [queue_get] on an
    empty buffer and [queue_add] on a full one fail on their assertion,
    and leave no buffer behind. *)
Theorem queue_empty_full_meaning (q : Queue) (x : Z) :
  wf_queue q →
  (queue_empty q = true ↔ queue_contents q = []) ∧
  (queue_full q = true ↔
   Z.of_nat (length (queue_contents q)) = qsize q - 1) ∧
  Z.of_nat (length (queue_contents q)) ≤ qsize q - 1 ∧
  (queue_empty q = true → queue_get q = Err AssertionFailed) ∧
  (queue_full q = true → queue_add q x = Err AssertionFailed).
Proof.
  intros Hq. split; [by apply queue_empty_contents|].
  split; [by apply queue_full_contents|]. split.
  - rewrite queue_contents_length. pose proof (qlen_lt q Hq).
    destruct Hq as (? & _). lia.
  - split; [by apply queue_get_empty | by apply queue_add_full].
Qed.

Lemma queue_empty_full_meaning_witness :
  (queue_empty (mkQueue 3 2 1 [7; 8; 9]) = true ↔
   queue_contents (mkQueue 3 2 1 [7; 8; 9]) = []) ∧
  (queue_full (mkQueue 3 2 1 [7; 8; 9]) = true ↔
   Z.of_nat (length (queue_contents (mkQueue 3 2 1 [7; 8; 9]))) = 3 - 1) ∧
  Z.of_nat (length (queue_contents (mkQueue 3 2 1 [7; 8; 9]))) ≤ 3 - 1 ∧
  (queue_empty (mkQueue 3 2 1 [7; 8; 9]) = true →
   queue_get (mkQueue 3 2 1 [7; 8; 9]) = Err AssertionFailed) ∧
  (queue_full (mkQueue 3 2 1 [7; 8; 9]) = true →
   queue_add (mkQueue 3 2 1 [7; 8; 9]) 4 = Err AssertionFailed).
Proof.
  apply (queue_empty_full_meaning (mkQueue 3 2 1 [7; 8; 9]) 4).
  apply (bool_decide_unpack _). vm_compute. reflexivity.
Defined.

(** X4.  Draining: on a well-formed buffer, as many [queue_get] calls as
    it holds elements return its content in order of arrival and leave it
    empty; one call more fails on the assertion. *)
Theorem queue_drain (q : Queue) :
  wf_queue q →
  (∃ q', queue_ops (replicate (length (queue_contents q)) QGet) q
         = Ok (queue_contents q, q') ∧
         queue_empty q' = true ∧ wf_queue q') ∧
  queue_ops (replicate (S (length (queue_contents q))) QGet) q
  = Err AssertionFailed.
Proof.
  intros Hq. split.
  - pose proof (queue_ops_refines
                  (replicate (length (queue_contents q)) QGet) q Hq) as Href.
    rewrite fifo_gets in Href.
    destruct (decide _) as [_|]; [|lia].
    rewrite firstn_all, drop_all in Href.
    destruct (queue_ops _ _) as [[rs q']|]; [|done].
    destruct Href as (-> & Hc & Hq'). exists q'.
    split; [done|]. split; [|done]. by apply queue_empty_contents.
  - pose proof (queue_ops_refines
                  (replicate (S (length (queue_contents q))) QGet) q Hq)
      as Href.
    rewrite fifo_gets in Href.
    destruct (decide _) as [|_]; [lia|].
    destruct (queue_ops _ _) as [[rs q']|e]; [done|]. by rewrite Href.
Qed.

Lemma queue_drain_witness :
  (∃ q', queue_ops
           (replicate (length (queue_contents (mkQueue 3 2 1 [7; 8; 9]))) QGet)
           (mkQueue 3 2 1 [7; 8; 9])
         = Ok (queue_contents (mkQueue 3 2 1 [7; 8; 9]), q') ∧
         queue_empty q' = true ∧ wf_queue q') ∧
  queue_ops
    (replicate (S (length (queue_contents (mkQueue 3 2 1 [7; 8; 9])))) QGet)
    (mkQueue 3 2 1 [7; 8; 9])
  = Err AssertionFailed.
Proof.
  apply (queue_drain (mkQueue 3 2 1 [7; 8; 9])).
  apply (bool_decide_unpack _). vm_compute. reflexivity.
Defined.

(** ** scascade.c: more on the run *)

Section RunRule.

Variable rand_seq : nat → Z.

Lemma trial_stable seeds e w u t v f e' w' :
  Inv seeds e →
  trial rand_seq e w u t v = Ok (f, e', w') →
  ∀ y, 0 < time_of (e_infected e) y →
       time_of (e_infected e') y = time_of (e_infected e) y.
Proof.
  intros HI H y Hy.
  apply trial_cases in H
    as [(_ & _ & -> & _) | [(_ & iv & _ & _ & _ & -> & _)
                           | (_ & Hv & q' & _ & -> & _)]].
  - done.
  - by destruct (iv =? t + 1).
  - simpl. apply time_of_insert_ne.
    + by apply aget_in_range in Hv as [? _].
    + intros ->. rewrite (time_of_Ok _ _ _ Hv) in Hy. lia.
Qed.

(** Proof rule for the run, with what is known where a trial is made:
    [P] holds at the loop heads, [Q u t] while the node [u] dequeued with
    time [t] is processed. *)
Lemma run_rule (P : Epidemic → World → Prop)
    (Q : Z → Z → Epidemic → World → Prop) seeds :
  (∀ e w u t,
      Inv seeds e → Bfs e →
      queue_get (e_active e) = Ok (u, e_active (dequeued e)) →
      aget (e_infected e) u = Ok t → 0 < t →
      P e w → Q u t (dequeued e) w) →
  (∀ e w u t vs v f e' w',
      Inv seeds e → BfsL t e → 0 < t →
      aget (e_infected e) u = Ok t →
      links_of (e_g e) u = Ok vs → v ∈ vs →
      ¬ (e_stop_criterion e = MaxTime ∧ e_bound e < t) →
      Q u t e w →
      trial rand_seq e w u t v = Ok (f, e', w') → Q u t e' w') →
  (∀ e w u t, Inv seeds e → BfsL t e → Q u t e w → P e w) →
  ∀ e0 w0 e w,
    Inv seeds e0 → Bfs e0 → P e0 w0 →
    observable rand_seq e0 w0 e w → P e w.
Proof.
  intros Hdeq Htrial Hfin e0 w0 e w HI0 HB0 HP0.
  assert (∀ e w f e' w',
            Inv seeds e → Bfs e → P e w →
            queue_empty (e_active e) = false →
            run_body rand_seq e w = Ok (f, e', w') → P e' w') as Hbody.
  { clear e w. intros e w f e' w' HI HB HP Hne Hb.
    destruct (run_body_cases rand_seq seeds e w HI Hne)
      as (u & t & Hu & Hget & Hut & Ht & HId & Hcases).
    pose proof (Inv_qlin _ _ HI) as Hq.
    assert (qbegin (e_active e) < qend (e_active e)) as Hlt.
    { apply queue_empty_false in Hne. destruct Hq as ([? ?] & _). lia. }
    pose proof (Bfs_dequeued _ _ _ HI HB Hlt Hu) as HBd.
    rewrite (time_of_Ok _ _ _ Hut) in HBd.
    pose proof (Hdeq e w u t HI HB Hget Hut Ht HP) as HQ.
    destruct Hcases as [(_ & _ & Hret) | (Hnx & vs & Hvs & _ & Hloop)].
    - rewrite Hb in Hret. injection Hret as -> -> ->. by eapply Hfin.
    - rewrite Hloop in Hb.
      destruct (for_links_inv rand_seq
                  (λ _ e1 w1,
                     Inv seeds e1 ∧ BfsL t e1 ∧ frame (dequeued e) e1 ∧
                     aget (e_infected e1) u = Ok t ∧ Q u t e1 w1) u t vs)
        with (3 := Hb) as (_ & (HI' & HB' & _ & _ & HQ') & _).
      + intros pre v e1 w1 f1 e2 w2 Hv (HI1 & HB1 & Hfr1 & Hu1 & HQ1) Htr.
        assert (0 ≤ t) as Ht0 by lia.
        destruct (trial_Bfs rand_seq seeds e1 w1 u t v f1 e2 w2)
          as (HB2 & _); [done..|].
        pose proof (trial_frame _ _ _ _ _ _ _ _ _ _ HI1 Htr) as Hfr2.
        split; [by eapply Inv_trial|]. split; [done|].
        split; [by eapply frame_trans|]. split.
        * pose proof (trial_stable _ _ _ _ _ _ _ _ _ HI1 Htr u) as Hst.
          rewrite (time_of_Ok _ _ _ Hu1) in Hst.
          rewrite <- (Hst Ht). apply time_of_pos. rewrite Hst; done.
        * eapply (Htrial e1 w1 u t vs v); try done.
          -- by rewrite (fr_g _ _ Hfr1).
          -- rewrite (fr_stop _ _ Hfr1), (fr_bound _ _ Hfr1). done.
      + split; [done|]. split; [done|]. split; [apply frame_refl|]. done.
      + by eapply Hfin. }
  assert (∀ e w, at_loop_head rand_seq e0 w0 e w → P e w) as Hhead.
  { clear e w. intros e w H. induction H as [|e w e' w' H IH Hne Hb]; [done|].
    eapply Hbody; [| |done..].
    - by eapply Inv_at_loop_head.
    - by eapply Bfs_at_loop_head. }
  intros [H | (e1 & w1 & H & Hne & Hb)]; [by apply Hhead|].
  eapply Hbody; [| | |done..].
  - by eapply Inv_at_loop_head.
  - by eapply Bfs_at_loop_head.
  - by apply Hhead.
Qed.

End RunRule.

Lemma time_of_nonneg inf v : Forall (λ t, 0 ≤ t) inf → 0 ≤ time_of inf v.
Proof.
  intros Hnn. unfold time_of.
  destruct (aget inf v) as [t|] eqn:Ht; [|done].
  apply aget_Ok in Ht as [_ Ht]. by eapply Forall_lookup_1 in Hnn.
Qed.

(** The state [epidemic_new] builds from distinct seeds inside [[0, n)]. *)
Lemma start_state p g ic out :
  graph_wf g → seeds_ok g ic →
  ∃ e0,
    epidemic_new p g ic out = Ok e0 ∧
    Inv (ic_infected ic) e0 ∧ Bfs e0 ∧ e_g e0 = g ∧
    pushed (e_active e0) = ic_infected ic ∧
    ∀ v, time_of (e_infected e0) v
         = if decide (v ∈ ic_infected ic) then 1 else 0.
Proof.
  intros Hg Hs.
  destruct (epidemic_new_Inv p g ic out Hg Hs)
    as (e0 & Hnew & HI & Hp & _).
  pose proof (epidemic_new_Bfs _ _ _ _ _ Hg Hs Hnew) as HB.
  pose proof (epidemic_new_fields _ _ _ _ _ Hnew) as (Hg0 & _).
  exists e0. do 5 (split; [done|]).
  intros v. destruct (decide _) as [Hin|Hout].
  - by apply (inv_seeds _ _ HI).
  - pose proof (time_of_nonneg (e_infected e0) v (inv_nonneg _ _ HI)).
    destruct (decide (0 < time_of (e_infected e0) v)) as [Hpos|]; [|lia].
    apply (inv_pushed _ _ HI) in Hpos. by rewrite Hp in Hpos.
Qed.

Section MoreInvariants.

Variable rand_seq : nat → Z.

Lemma observable_time_one seeds e0 w0 e w :
  Inv seeds e0 → Bfs e0 →
  (∀ v, time_of (e_infected e0) v = 1 → v ∈ seeds) →
  observable rand_seq e0 w0 e w →
  ∀ v, time_of (e_infected e) v = 1 → v ∈ seeds.
Proof.
  intros HI0 HB0 H0.
  apply (run_rule rand_seq
           (λ e _, ∀ v, time_of (e_infected e) v = 1 → v ∈ seeds)
           (λ _ _ e _, ∀ v, time_of (e_infected e) v = 1 → v ∈ seeds)
           seeds); try done.
  intros e1 w1 u t vs v f e2 w2 HI1 _ Ht _ _ _ _ HP Htr y Hy.
  apply trial_cases in Htr
    as [(_ & _ & -> & _) | [(_ & iv & _ & _ & _ & -> & _)
                           | (_ & Hv & q' & _ & -> & _)]].
  - by apply HP.
  - apply HP. by destruct (iv =? t + 1).
  - simpl in Hy. pose proof (aget_in_range _ _ _ Hv) as Hr.
    destruct (decide (y = v)) as [->|Hne].
    + rewrite time_of_insert_eq in Hy by done. lia.
    + rewrite time_of_insert_ne in Hy by (done || lia). by apply HP.
Qed.

Lemma observable_within seeds g e0 w0 e w :
  Inv seeds e0 → Bfs e0 → e_g e0 = g →
  (∀ v, 0 < time_of (e_infected e0) v →
        within g seeds (Z.to_nat (time_of (e_infected e0) v - 1)) v) →
  observable rand_seq e0 w0 e w →
  e_g e = g ∧
  ∀ v, 0 < time_of (e_infected e) v →
       within g seeds (Z.to_nat (time_of (e_infected e) v - 1)) v.
Proof.
  intros HI0 HB0 Hg0 H0.
  apply (run_rule rand_seq
           (λ e _, e_g e = g ∧
                   ∀ v, 0 < time_of (e_infected e) v →
                        within g seeds
                          (Z.to_nat (time_of (e_infected e) v - 1)) v)
           (λ _ _ e _, e_g e = g ∧
                   ∀ v, 0 < time_of (e_infected e) v →
                        within g seeds
                          (Z.to_nat (time_of (e_infected e) v - 1)) v)
           seeds); try done.
  intros e1 w1 u t vs v f e2 w2 HI1 _ Ht Hu Hvs Hv _ [Hg1 HP] Htr.
  pose proof (trial_frame _ _ _ _ _ _ _ _ _ _ HI1 Htr) as Hfr.
  split; [by rewrite (fr_g _ _ Hfr)|].
  intros y Hy.
  apply trial_cases in Htr
    as [(_ & _ & -> & _) | [(_ & iv & _ & _ & _ & -> & _)
                           | (_ & Hv0 & q' & _ & -> & _)]].
  - by apply HP.
  - assert (e_infected (if iv =? t + 1 then incr_links e1 else e1)
            = e_infected e1) as Hinf by by destruct (iv =? t + 1).
    rewrite Hinf in *. by apply HP.
  - simpl in *. pose proof (aget_in_range _ _ _ Hv0) as Hr.
    destruct (decide (y = v)) as [->|Hne].
    + rewrite time_of_insert_eq by done.
      replace (Z.to_nat (t + 1 - 1)) with (S (Z.to_nat (t - 1))) by lia.
      apply (within_arc g seeds _ u v vs); [|by rewrite <- Hg1 | done].
      rewrite <- (time_of_Ok _ _ _ Hu). apply HP.
      rewrite (time_of_Ok _ _ _ Hu). done.
    + rewrite time_of_insert_ne in * by (done || lia). by apply HP.
Qed.

Lemma observable_depth_times seeds e0 w0 e w :
  Inv seeds e0 → Bfs e0 → e_stop_criterion e0 = MaxTime →
  (∀ v, time_of (e_infected e0) v ≤ 1) →
  observable rand_seq e0 w0 e w →
  e_stop_criterion e = MaxTime ∧ e_bound e = e_bound e0 ∧
  ∀ v, time_of (e_infected e) v ≤ Z.max 1 (e_bound e + 1).
Proof.
  intros HI0 HB0 Hs0 H0.
  apply (run_rule rand_seq
           (λ e _, e_stop_criterion e = MaxTime ∧ e_bound e = e_bound e0 ∧
                   ∀ v, time_of (e_infected e) v ≤ Z.max 1 (e_bound e + 1))
           (λ _ _ e _, e_stop_criterion e = MaxTime ∧
                   e_bound e = e_bound e0 ∧
                   ∀ v, time_of (e_infected e) v ≤ Z.max 1 (e_bound e + 1))
           seeds); try done.
  - intros e1 w1 u t vs v f e2 w2 HI1 _ Ht _ _ _ Hnx (Hs1 & Hb1 & HP) Htr.
    pose proof (trial_frame _ _ _ _ _ _ _ _ _ _ HI1 Htr) as Hfr.
    rewrite (fr_stop _ _ Hfr), (fr_bound _ _ Hfr).
    split; [done|]. split; [done|]. intros y.
    apply trial_cases in Htr
      as [(_ & _ & -> & _) | [(_ & iv & _ & _ & _ & -> & _)
                             | (_ & Hv0 & q' & _ & -> & _)]].
    + by apply HP.
    + assert (e_infected (if iv =? t + 1 then incr_links e1 else e1)
              = e_infected e1) as -> by by destruct (iv =? t + 1).
      by apply HP.
    + simpl. pose proof (aget_in_range _ _ _ Hv0) as Hr.
      destruct (decide (y = v)) as [->|Hne].
      * rewrite time_of_insert_eq by done.
        assert (¬ e_bound e1 < t) by tauto. lia.
      * rewrite time_of_insert_ne by (done || lia). by apply HP.
  - split; [done|]. split; [done|]. intros v. specialize (H0 v). lia.
Qed.


End MoreInvariants.

(** X5.  In a run from distinct seeds inside [[0, n)], at every observable
    point the nodes with infection time 1 are exactly the seeds: the run
    never gives time 1 to another node and never changes the time of a
    seed. *)
Theorem seeds_have_time_one (rand : nat → Z) (p : Q) (g : graph)
    (ic : InitialCondition) (out : bool) (w0 : World) :
  graph_wf g → seeds_ok g ic →
  ∃ e0,
    epidemic_new p g ic out = Ok e0 ∧
    ∀ e w, observable rand e0 w0 e w →
           ∀ v, aget (e_infected e) v = Ok 1 ↔ v ∈ ic_infected ic.
Proof.
  intros Hg Hs.
  destruct (start_state p g ic out Hg Hs)
    as (e0 & Hnew & HI & HB & _ & _ & Htimes).
  exists e0. split; [done|]. intros e w Hobs v. split.
  - intros Hv%time_of_Ok.
    apply (observable_time_one rand _ e0 w0 e w HI HB); [|done..].
    intros y Hy. rewrite Htimes in Hy. by destruct (decide _).
  - intros Hin.
    pose proof (Inv_observable _ _ _ _ _ _ HI Hobs) as HIe.
    rewrite <- (inv_seeds _ _ HIe v Hin). apply time_of_pos.
    rewrite (inv_seeds _ _ HIe v Hin). lia.
Qed.

Lemma seeds_have_time_one_witness :
  ∃ e0,
    epidemic_new 1 triangle (mkIC 7 [0] 10 MaxTime) true = Ok e0 ∧
    ∀ e w, observable (λ _, 0) e0 world0 e w →
           ∀ v, aget (e_infected e) v = Ok 1 ↔ v ∈ [0].
Proof.
  apply (seeds_have_time_one (λ _, 0) 1 triangle (mkIC 7 [0] 10 MaxTime)
           true world0).
  - apply (bool_decide_unpack _). vm_compute. reflexivity.
  - apply (bool_decide_unpack _). vm_compute. reflexivity.
Defined.

(** X6.  Whatever the draws, the run infects only along arcs: at every
    observable point of a run from distinct seeds inside [[0, n)], a node
    with infection time [t > 0] is the end of a walk of exactly [t - 1]
    arcs that starts at a seed. *)
Theorem infected_are_reachable (rand : nat → Z) (p : Q) (g : graph)
    (ic : InitialCondition) (out : bool) (w0 : World) :
  graph_wf g → seeds_ok g ic →
  ∃ e0,
    epidemic_new p g ic out = Ok e0 ∧
    ∀ e w, observable rand e0 w0 e w →
           ∀ v t, aget (e_infected e) v = Ok t → 0 < t →
                  within g (ic_infected ic) (Z.to_nat (t - 1)) v.
Proof.
  intros Hg Hs.
  destruct (start_state p g ic out Hg Hs)
    as (e0 & Hnew & HI & HB & Hg0 & _ & Htimes).
  exists e0. split; [done|]. intros e w Hobs v t Hv Ht.
  destruct (observable_within rand _ g e0 w0 e w HI HB Hg0) as [_ H];
    [|done|].
  - intros y Hy. rewrite Htimes in *.
    destruct (decide _); [|lia]. simpl. by constructor.
  - rewrite <- (time_of_Ok _ _ _ Hv). apply H.
    by rewrite (time_of_Ok _ _ _ Hv).
Qed.

Lemma infected_are_reachable_witness :
  ∃ e0,
    epidemic_new 1 triangle (mkIC 7 [0] 10 MaxTime) true = Ok e0 ∧
    ∀ e w, observable (λ _, 0) e0 world0 e w →
           ∀ v t, aget (e_infected e) v = Ok t → 0 < t →
                  within triangle [0] (Z.to_nat (t - 1)) v.
Proof.
  apply (infected_are_reachable (λ _, 0) 1 triangle
           (mkIC 7 [0] 10 MaxTime) true world0).
  - apply (bool_decide_unpack _). vm_compute. reflexivity.
  - apply (bool_decide_unpack _). vm_compute. reflexivity.
Defined.

(** X7.  With the depth criterion, whatever the draws, no infection time
    exceeds [bound + 1] (or 1, the time of the seeds, when the bound is
    below 0): a node taken from the queue with a time above the bound
    stops the run before any trial.  So every infected node lies within
    [max 0 bound] arcs of a seed. *)
Theorem depth_bound_limits_times (rand : nat → Z) (p : Q) (g : graph)
    (ic : InitialCondition) (out : bool) (w0 : World) :
  graph_wf g → seeds_ok g ic → ic_stop_criterion ic = MaxTime →
  ∃ e0,
    epidemic_new p g ic out = Ok e0 ∧
    ∀ e w, observable rand e0 w0 e w →
           ∀ v t, aget (e_infected e) v = Ok t → 0 < t →
                  t ≤ Z.max 1 (ic_bound ic + 1) ∧
                  ∃ d : nat, Z.of_nat d ≤ Z.max 0 (ic_bound ic) ∧
                             within g (ic_infected ic) d v.
Proof.
  intros Hg Hs Hstop.
  destruct (start_state p g ic out Hg Hs)
    as (e0 & Hnew & HI & HB & Hg0 & _ & Htimes).
  pose proof (epidemic_new_fields _ _ _ _ _ Hnew)
    as (_ & Hb0 & Hs0 & _).
  exists e0. split; [done|]. intros e w Hobs v t Hv Ht.
  destruct (observable_depth_times rand _ e0 w0 e w HI HB)
    as (_ & Hb & Hle); [congruence | | done |].
  { intros y. rewrite Htimes. destruct (decide _); lia. }
  destruct (observable_within rand _ g e0 w0 e w HI HB Hg0) as [_ Hw];
    [|done|].
  { intros y Hy. rewrite Htimes in *.
    destruct (decide _); [|lia]. simpl. by constructor. }
  specialize (Hle v). specialize (Hw v).
  rewrite (time_of_Ok _ _ _ Hv), Hb, Hb0 in *.
  split; [done|]. exists (Z.to_nat (t - 1)). split; [lia | by apply Hw].
Qed.

Lemma depth_bound_limits_times_witness :
  ∃ e0,
    epidemic_new 1 line5 (mkIC 7 [0] 2 MaxTime) true = Ok e0 ∧
    ∀ e w, observable (λ _, 0) e0 world0 e w →
           ∀ v t, aget (e_infected e) v = Ok t → 0 < t →
                  t ≤ Z.max 1 (2 + 1) ∧
                  ∃ d : nat, Z.of_nat d ≤ Z.max 0 2 ∧ within line5 [0] d v.
Proof.
  apply (depth_bound_limits_times (λ _, 0) 1 line5 (mkIC 7 [0] 2 MaxTime)
           true world0).
  - apply (bool_decide_unpack _). vm_compute. reflexivity.
  - apply (bool_decide_unpack _). vm_compute. reflexivity.
  - reflexivity.
Defined.

(** X8.  With [p = 1], the depth criterion and a bound [≥ 0], the run
    computes breadth-first distances: it ends with exactly the nodes
    within [bound] arcs of a seed infected, and the infection time of
    each is one more than the length of a shortest walk from a seed. *)
Theorem certain_run_is_bfs (rand : nat → Z) (g : graph)
    (ic : InitialCondition) (out : bool) (w0 : World) :
  graph_wf g → seeds_ok g ic →
  ic_stop_criterion ic = MaxTime → 0 ≤ ic_bound ic →
  (∀ k, 0 ≤ rand k ≤ RAND_MAX) →
  ∃ e0 e' w',
    epidemic_new 1 g ic out = Ok e0 ∧
    epidemic_run rand e0 w0 = Some (Ok (e', w')) ∧
    (∀ v, 0 < time_of (e_infected e') v ↔
          ∃ d : nat, Z.of_nat d ≤ ic_bound ic ∧
                     within g (ic_infected ic) d v) ∧
    (∀ v, 0 < time_of (e_infected e') v →
          within g (ic_infected ic)
            (Z.to_nat (time_of (e_infected e') v - 1)) v ∧
          ∀ d : nat, within g (ic_infected ic) d v →
                     time_of (e_infected e') v - 1 ≤ Z.of_nat d).
Proof.
  intros Hg Hs Hstop Hbound Hrand.
  destruct (start_state 1 g ic out Hg Hs)
    as (e0 & Hnew & HI & HB & Hg0 & Hp0 & Htimes).
  pose proof (epidemic_new_Inv 1 g ic out Hg Hs)
    as (e0' & Hnew' & _ & _ & Hbeg & _).
  rewrite Hnew in Hnew'. injection Hnew' as <-.
  pose proof (epidemic_new_fields _ _ _ _ _ Hnew)
    as (_ & Hb0 & Hs0 & Hpp & _).
  assert (Closure e0) as HC.
  { intros x. unfold popped. rewrite Hbeg. simpl. by intros ?%elem_of_nil. }
  assert (certain rand e0) as Hcert.
  { intros k. rewrite Hpp. by apply success_one. }
  assert (e_stop_criterion e0 = MaxTime) as Hstop' by congruence.
  destruct (epidemic_run_total rand _ e0 w0 HI)
    as (e' & w' & Hrun & Hfin & HI').
  destruct (finished_Closure rand _ e0 w0 e' w' HI HB HC Hcert Hstop' Hfin)
    as [HC' Hpend].
  pose proof (finished_observable _ _ _ _ _ Hfin) as Hobs.
  pose proof (observable_static rand _ e0 w0 e' w' HI Hobs) as Hst.
  destruct (observable_depth_times rand _ e0 w0 e' w' HI HB Hstop')
    as (_ & Hb & Hle); [|done|].
  { intros y. rewrite Htimes. destruct (decide _); lia. }
  destruct (observable_within rand _ g e0 w0 e' w' HI HB Hg0) as [Hg' Hw];
    [|done|].
  { intros y Hy. rewrite Htimes in *.
    destruct (decide _); [|lia]. simpl. by constructor. }
  assert (∀ d v, within g (ic_infected ic) d v → Z.of_nat d ≤ ic_bound ic →
                 0 < time_of (e_infected e') v ≤ Z.of_nat d + 1) as Hin.
  { intros d v Hwd Hd. apply (within_infected _ _ HI' HC' Hpend).
    - by rewrite Hg'.
    - by rewrite Hb, Hb0. }
  exists e0, e', w'. split; [done|]. split; [done|]. split.
  - intros v. split.
    + intros Hv. exists (Z.to_nat (time_of (e_infected e') v - 1)).
      split; [|by apply Hw]. specialize (Hle v). rewrite Hb, Hb0 in Hle. lia.
    + intros (d & Hd & Hwd). by apply (Hin d v).
  - intros v Hv. split; [by apply Hw|]. intros d Hwd.
    destruct (decide (Z.of_nat d ≤ ic_bound ic)) as [Hd|Hd].
    + destruct (Hin d v Hwd Hd). lia.
    + specialize (Hle v). rewrite Hb, Hb0 in Hle. lia.
Qed.

Lemma certain_run_is_bfs_witness :
  ∃ e0 e' w',
    epidemic_new 1 triangle (mkIC 7 [0] 10 MaxTime) true = Ok e0 ∧
    epidemic_run (λ _, RAND_MAX) e0 world0 = Some (Ok (e', w')) ∧
    (∀ v, 0 < time_of (e_infected e') v ↔
          ∃ d : nat, Z.of_nat d ≤ 10 ∧ within triangle [0] d v) ∧
    (∀ v, 0 < time_of (e_infected e') v →
          within triangle [0] (Z.to_nat (time_of (e_infected e') v - 1)) v ∧
          ∀ d : nat, within triangle [0] d v →
                     time_of (e_infected e') v - 1 ≤ Z.of_nat d).
Proof.
  apply (certain_run_is_bfs (λ _, RAND_MAX) triangle
           (mkIC 7 [0] 10 MaxTime) true world0).
  - apply (bool_decide_unpack _). vm_compute. reflexivity.
  - apply (bool_decide_unpack _). vm_compute. reflexivity.
  - reflexivity.
  - simpl. lia.
  - intros _. unfold RAND_MAX. lia.
Defined.



Section SizeRespected.

Variable rand_seq : nat → Z.

Lemma trial_size e w u t v f e' w' :
  size_ok e → trial rand_seq e w u t v = Ok (f, e', w') →
  (f = Continue ∧ size_ok e') ∨
  (f = Return ∧ e_num_infected e' = e_bound e').
Proof.
  intros [Hs Hb] H.
  apply trial_cases in H
    as [(_ & -> & -> & _) | [(_ & iv & _ & _ & -> & -> & _)
                            | (_ & _ & q' & _ & -> & _ & ->)]].
  - by left.
  - left. split; [done|]. by destruct (iv =? t + 1).
  - rewrite Hs. simpl.
    destruct (Z.eqb_spec (e_bound e) (e_num_infected e + 1)).
    + right. simpl. split; [done | lia].
    + left. split; [done|]. split; simpl; [done | lia].
Qed.

Lemma for_links_size u t vs :
  ∀ e w f e' w',
    size_ok e → for_links rand_seq e w u t vs = Ok (f, e', w') →
    (f = Continue ∧ size_ok e') ∨
    (f = Return ∧ e_num_infected e' = e_bound e').
Proof.
  induction vs as [|v vs IH]; intros e w f e' w' Hn H; simpl in H.
  - injection H as <- <- <-. by left.
  - destruct (trial rand_seq e w u t v) as [[[f1 e1] w1]|] eqn:Ht; [|done].
    destruct (trial_size _ _ _ _ _ _ _ _ Hn Ht) as [[-> Hn1]|[-> Hn1]];
      simpl in H.
    + by eapply IH.
    + injection H as <- <- <-. by right.
Qed.

Lemma run_body_size e w f e' w' :
  size_ok e → run_body rand_seq e w = Ok (f, e', w') →
  (f = Continue ∧ size_ok e') ∨
  (f = Return ∧ e_num_infected e' = e_bound e').
Proof.
  intros Hn Hb. unfold run_body in Hb.
  destruct (queue_get (e_active e)) as [[u q']|]; [|done]. simpl in Hb.
  destruct (aget (e_infected e) u) as [t|]; [|done]. simpl in Hb.
  destruct Hn as [Hs Hle]. rewrite Hs in Hb. simpl in Hb.
  destruct (links_of (e_g e) u) as [vs|]; [|done]. simpl in Hb.
  eapply for_links_size; [|done]. by split.
Qed.

Lemma at_loop_head_size e0 w0 e w :
  size_ok e0 → at_loop_head rand_seq e0 w0 e w → size_ok e.
Proof.
  intros Hn0 H. induction H as [|e w e' w' H IH Hne Hb]; [done|].
  by destruct (run_body_size _ _ _ _ _ IH Hb) as [[_ ?]|[? _]].
Qed.

End SizeRespected.

(** X10.  With the size criterion and a bound above the number of seeds
    (distinct, inside [[0, n)]), [num_infected] never exceeds the bound:
    it is below the bound at every loop head, and the run ends either by
    returning with [num_infected = bound] or with an empty queue and
    [num_infected < bound]. *)
Theorem size_bound_respected (rand : nat → Z) (p : Q) (g : graph)
    (ic : InitialCondition) (out : bool) (w0 : World) :
  graph_wf g → seeds_ok g ic →
  ic_stop_criterion ic = NumInfected →
  ic_num_infected ic < ic_bound ic →
  ∃ e0 e' w',
    epidemic_new p g ic out = Ok e0 ∧
    epidemic_run rand e0 w0 = Some (Ok (e', w')) ∧
    (∀ e w, at_loop_head rand e0 w0 e w →
            e_num_infected e < ic_bound ic) ∧
    (∀ e w, observable rand e0 w0 e w →
            e_num_infected e ≤ ic_bound ic) ∧
    (e_num_infected e' = ic_bound ic ∨
     (queue_empty (e_active e') = true ∧
      e_num_infected e' < ic_bound ic)).
Proof.
  intros Hg Hs Hstop Hlt.
  destruct (epidemic_new_Inv p g ic out Hg Hs) as (e0 & Hnew & HI & _).
  pose proof (epidemic_new_fields _ _ _ _ _ Hnew)
    as (_ & Hb0 & Hs0 & _ & _ & _ & Hn0 & _).
  assert (size_ok e0) as Hok by (split; [congruence | lia]).
  destruct (epidemic_run_total rand _ e0 w0 HI)
    as (e' & w' & Hrun & Hfin & _).
  assert (∀ e w, at_loop_head rand e0 w0 e w →
                 e_num_infected e < ic_bound ic) as Hhead.
  { intros e w Hh.
    pose proof (at_loop_head_size rand _ _ _ _ Hok Hh) as [_ Hlt'].
    pose proof (at_loop_head_static _ _ _ _ _ _ HI Hh) as Hst.
    rewrite (st_bound _ _ Hst), Hb0 in Hlt'. done. }
  assert (∀ e1 w1 e w,
            at_loop_head rand e0 w0 e1 w1 →
            queue_empty (e_active e1) = false →
            run_body rand e1 w1 = Ok (Return, e, w) →
            e_num_infected e = ic_bound ic) as Hret.
  { intros e1 w1 e w Hh Hne Hb.
    pose proof (at_loop_head_size rand _ _ _ _ Hok Hh) as Hok1.
    pose proof (Inv_at_loop_head _ _ _ _ _ _ HI Hh) as HI1.
    pose proof (at_loop_head_static _ _ _ _ _ _ HI Hh) as Hst1.
    pose proof (run_body_static _ _ _ _ _ _ _ HI1 Hne Hb) as Hst2.
    destruct (run_body_size rand _ _ _ _ _ Hok1 Hb) as [[? _]|[_ Heq]];
      [done|].
    rewrite Heq, (st_bound _ _ Hst2), (st_bound _ _ Hst1). done. }
  exists e0, e', w'. split; [done|]. split; [done|]. split; [done|]. split.
  - intros e w [Hh | (e1 & w1 & Hh & Hne & Hb)].
    + specialize (Hhead e w Hh). lia.
    + rewrite (Hret e1 w1 e w Hh Hne Hb). lia.
  - destruct Hfin as [[Hh Hemp] | (e1 & w1 & Hh & Hne & Hb)].
    + right. split; [done | by eapply Hhead].
    + left. by eapply Hret.
Qed.

Lemma size_bound_respected_witness :
  ∃ e0 e' w',
    epidemic_new 1 star5 (mkIC 7 [0] 3 NumInfected) true = Ok e0 ∧
    epidemic_run (λ _, 0) e0 world0 = Some (Ok (e', w')) ∧
    (∀ e w, at_loop_head (λ _, 0) e0 world0 e w → e_num_infected e < 3) ∧
    (∀ e w, observable (λ _, 0) e0 world0 e w → e_num_infected e ≤ 3) ∧
    (e_num_infected e' = 3 ∨
     (queue_empty (e_active e') = true ∧ e_num_infected e' < 3)).
Proof.
  apply (size_bound_respected (λ _, 0) 1 star5 (mkIC 7 [0] 3 NumInfected)
           true world0).
  - apply (bool_decide_unpack _). vm_compute. reflexivity.
  - apply (bool_decide_unpack _). vm_compute. reflexivity.
  - reflexivity.
  - unfold ic_num_infected. simpl. lia.
Defined.

(** ** scascade.c: the trace of a run *)

Lemma aget_stable inf inf' u t :
  (∀ y, 0 < time_of inf y → time_of inf' y = time_of inf y) →
  aget inf u = Ok t → 0 < t → aget inf' u = Ok t.
Proof.
  intros Hst Hu Ht. pose proof (time_of_Ok _ _ _ Hu) as Htu.
  pose proof (Hst u ltac:(lia)) as H1.
  pose proof (time_of_pos inf' u) as H2.
  rewrite H1, Htu in H2. apply H2. done.
Qed.

Lemma record_ok_stable g id inf inf' r :
  (∀ y, 0 < time_of inf y → time_of inf' y = time_of inf y) →
  record_ok g id inf r → record_ok g id inf' r.
Proof.
  intros Hst (Hid & Ht & Hu & Hvs & Hv1 & Hv2).
  pose proof (time_of_Ok _ _ _ Hu) as Htu.
  split; [done|]. split; [done|]. split.
  - by eapply aget_stable.
  - split; [done|]. rewrite Hst by done. done.
Qed.

Section Trace.

Variable rand_seq : nat → Z.

Lemma observable_records seeds g id e0 w0 e w :
  Inv seeds e0 → Bfs e0 → e_g e0 = g → e_id e0 = id →
  observable rand_seq e0 w0 e w →
  e_id e = id ∧ e_g e = g ∧
  ∃ new, trace w = trace w0 ++ new ∧
         Forall (record_ok g id (e_infected e)) new.
Proof.
  intros HI0 HB0 Hg0 Hid0.
  set (P := λ (e : Epidemic) (w : World),
              e_id e = id ∧ e_g e = g ∧
              ∃ new, trace w = trace w0 ++ new ∧
                     Forall (record_ok g id (e_infected e)) new).
  apply (run_rule rand_seq P (λ _ _, P) seeds); try done.
  - intros e1 w1 u t vs v f e2 w2 HI1 HB1 Ht Hu Hvs Hv _
           (Hid1 & Hg1 & new & Hnew & Hall) Htr.
    pose proof (trial_frame _ _ _ _ _ _ _ _ _ _ HI1 Htr) as Hfr.
    pose proof (trial_stable _ _ _ _ _ _ _ _ _ _ HI1 Htr) as Hst.
    split; [by rewrite (fr_id _ _ Hfr)|].
    split; [by rewrite (fr_g _ _ Hfr)|].
    assert (Forall (record_ok g id (e_infected e2)) new) as Hall'.
    { eapply Forall_impl; [exact Hall|]. intros r. by apply record_ok_stable. }
    assert (trace w2 = trace w1 ∨
            (trace w2 = trace w1 ++ [(t, u, v, e_id e1)] ∧
             0 < time_of (e_infected e2) v ≤ t + 1)) as [Hsame | [Hadd Hv2]].
    { clear Hall Hall' Hnew Hst.
      apply trial_cases in Htr
        as [(_ & _ & -> & ->) | [(_ & iv & Hiv & Hne & _ & -> & ->)
                                | (_ & Hv0 & q' & _ & -> & -> & _)]].
      - by left.
      - unfold print_record.
        assert (e_infected (if iv =? t + 1 then incr_links e1 else e1)
                = e_infected e1) as -> by by destruct (iv =? t + 1).
        assert (e_output (if iv =? t + 1 then incr_links e1 else e1)
                = e_output e1) as -> by by destruct (iv =? t + 1).
        assert (e_id (if iv =? t + 1 then incr_links e1 else e1)
                = e_id e1) as -> by by destruct (iv =? t + 1).
        destruct (e_output e1); [right | by left]. split; [done|].
        pose proof (bl_upper _ _ HB1 v) as Hup.
        pose proof (time_of_nonneg _ v (inv_nonneg _ _ HI1)) as Hnn.
        rewrite (time_of_Ok _ _ _ Hiv) in *. lia.
      - unfold print_record. simpl.
        destruct (e_output e1); [right | by left]. split; [done|].
        rewrite time_of_insert_eq; [lia | by eapply aget_in_range]. }
    + exists new. split; [congruence | done].
    + exists (new ++ [(t, u, v, e_id e1)]). split.
      * rewrite Hadd, Hnew. by rewrite app_assoc.
      * apply Forall_app. split; [done|]. apply Forall_singleton.
        split; [done|]. split; [done|]. simpl. split.
        -- by eapply aget_stable.
        -- split; [|done]. exists vs. split; [by rewrite <- Hg1 | done].
  - split; [done|]. split; [done|]. exists []. by rewrite app_nil_r.
Qed.

Lemma observable_sorted seeds e0 w0 e w :
  Inv seeds e0 → Bfs e0 →
  observable rand_seq e0 w0 e w →
  ∃ new, trace w = trace w0 ++ new ∧
         StronglySorted Z.le (rec_t <$> new) ∧
         ∀ r y, r ∈ new → y ∈ pending (e_active e) →
                rec_t r ≤ time_of (e_infected e) y.
Proof.
  intros HI0 HB0.
  apply (run_rule rand_seq
           (λ e w, ∃ new, trace w = trace w0 ++ new ∧
                          StronglySorted Z.le (rec_t <$> new) ∧
                          ∀ r y, r ∈ new → y ∈ pending (e_active e) →
                                 rec_t r ≤ time_of (e_infected e) y)
           (λ _ t e w, ∃ new, trace w = trace w0 ++ new ∧
                              StronglySorted Z.le (rec_t <$> new) ∧
                              ∀ r, r ∈ new → rec_t r ≤ t)
           seeds); try done.
  - intros e1 w1 u t HI1 _ Hget Hu Ht (new & Hnew & Hsort & Hle).
    exists new. split; [done|]. split; [done|]. intros r Hr.
    rewrite <- (time_of_Ok _ _ _ Hu). apply Hle; [done|].
    pose proof (Inv_qlin _ _ HI1) as Hq.
    pose proof (queue_get_nonempty _ _ Hget) as Hne%queue_empty_false.
    assert (qbegin (e_active e1) < qend (e_active e1)) as Hlt.
    { destruct Hq as ([? ?] & _). lia. }
    destruct (queue_get_lin _ Hq Hlt) as (r' & Hr' & Hget').
    rewrite Hget in Hget'. injection Hget' as ->.
    rewrite (pending_get _ _ Hq Hlt Hr'). left.
  - intros e1 w1 u t vs v f e2 w2 HI1 HB1 Ht Hu Hvs Hv _
           (new & Hnew & Hsort & Hle) Htr.
    assert (trace w2 = trace w1 ∨
            trace w2 = trace w1 ++ [(t, u, v, e_id e1)]) as [Hsame | Hadd].
    { clear Hnew Hsort Hle.
      apply trial_cases in Htr
        as [(_ & _ & -> & ->) | [(_ & iv & Hiv & Hne & _ & -> & ->)
                                | (_ & Hv0 & q' & _ & -> & -> & _)]].
      - by left.
      - unfold print_record.
        assert (e_output (if iv =? t + 1 then incr_links e1 else e1)
                = e_output e1) as -> by by destruct (iv =? t + 1).
        assert (e_id (if iv =? t + 1 then incr_links e1 else e1)
                = e_id e1) as -> by by destruct (iv =? t + 1).
        destruct (e_output e1); [by right | by left].
      - unfold print_record. simpl.
        destruct (e_output e1); [by right | by left]. }
    + exists new. split; [congruence | done].
    + exists (new ++ [(t, u, v, e_id e1)]). split.
      * rewrite Hadd, Hnew. by rewrite app_assoc.
      * split.
        -- rewrite fmap_app. apply StronglySorted_app_2; [|done|].
           ++ intros x1 x2 (r & -> & Hr)%list_elem_of_fmap
                     ->%list_elem_of_singleton.
              by apply Hle.
           ++ repeat constructor.
        -- intros r [Hr | ->%list_elem_of_singleton]%elem_of_app;
             [by apply Hle | done].
  - intros e1 w1 u t HI1 HB1 (new & Hnew & Hsort & Hle).
    exists new. split; [done|]. split; [done|]. intros r y Hr Hy.
    specialize (Hle r Hr). pose proof (bl_lower _ _ HB1 y Hy). lia.
  - exists []. split; [by rewrite app_nil_r|]. split; [constructor|].
    by intros r y ?%elem_of_nil.
Qed.

End Trace.

(** ** scascade.c: counting draws, records and links *)

Lemma sum_list_with_submseteq {A} (f : A → nat) (l k : list A) :
  l ⊆+ k → (sum_list_with f l ≤ sum_list_with f k)%nat.
Proof.
  intros (k' & Hk)%submseteq_Permutation.
  rewrite Hk, sum_list_with_app. lia.
Qed.

Lemma sum_list_with_seq_nth (L : list (list Z)) :
  ∀ a, sum_list_with (λ i, length (nth (i - a) L [])) (seq a (length L))
       = sum_list (length <$> L).
Proof.
  induction L as [|vs L IH]; intros a; [done|].
  simpl. rewrite Nat.sub_diag. simpl. f_equal.
  etrans; [|apply (IH (S a))].
  assert (∀ l, Forall (λ i, S a ≤ i)%nat l →
            sum_list_with (λ i, length (nth (i - a) (vs :: L) [])) l
            = sum_list_with (λ i, length (nth (i - S a) L [])) l) as Hext.
  { induction l as [|i l IHl]; intros Hl; [done|].
    apply Forall_cons in Hl as [Hi Hl]. cbn [sum_list_with].
    rewrite (IHl Hl).
    replace (i - a)%nat with (S (i - S a)) by lia. done. }
  apply (Hext (seq (S a) (length L))).
  apply Forall_forall. intros i Hi%elem_of_seq. lia.
Qed.

Lemma degree_sum_le g l :
  graph_wf g → NoDup l → (∀ x, x ∈ l → in_range g x) →
  (sum_list_with (degree g) l ≤ total_arcs g)%nat.
Proof.
  intros (Hn & Hlen & _) Hnd Hr.
  assert (sum_list_with (degree g) l
          = sum_list_with (λ i, length (nth (i - 0) (g_links g) []))
              (Z.to_nat <$> l)) as ->.
  { clear Hnd. induction l as [|x l IH]; [done|]. simpl.
    rewrite IH by (intros y Hy; apply Hr; by right). f_equal.
    destruct (Hr x ltac:(left)) as [Hx0 Hx].
    unfold degree, links_of. destruct (Z.ltb_spec x 0); [lia|].
    rewrite Nat.sub_0_r, nth_lookup.
    by destruct (g_links g !! Z.to_nat x). }
  unfold total_arcs. rewrite <- (sum_list_with_seq_nth (g_links g) 0).
  apply sum_list_with_submseteq. apply NoDup_submseteq.
  - apply NoDup_fmap_2_strong; [|done].
    intros x y Hx Hy Heq. destruct (Hr x Hx), (Hr y Hy). lia.
  - intros i (x & -> & Hx)%list_elem_of_fmap. apply elem_of_seq.
    destruct (Hr x Hx). lia.
Qed.

Section Counters.

Variable rand_seq : nat → Z.

Lemma trial_draws e w u t v f e' w' :
  trial rand_seq e w u t v = Ok (f, e', w') →
  rand_calls w' = S (rand_calls w).
Proof.
  intros H.
  apply trial_cases in H
    as [(_ & _ & _ & ->) | [(_ & iv & _ & _ & _ & _ & ->)
                           | (_ & _ & q' & _ & _ & -> & _)]];
    [done | |]; unfold print_record; by destruct (e_output _).
Qed.

Lemma for_links_draws u t vs :
  ∀ e w f e' w',
    for_links rand_seq e w u t vs = Ok (f, e', w') →
    (rand_calls w ≤ rand_calls w' ≤ rand_calls w + length vs)%nat.
Proof.
  induction vs as [|v vs IH]; intros e w f e' w' H; simpl in H.
  - injection H as <- <- <-. simpl. lia.
  - destruct (trial rand_seq e w u t v) as [[[f1 e1] w1]|] eqn:Ht; [|done].
    pose proof (trial_draws _ _ _ _ _ _ _ _ Ht) as Hd.
    simpl in H. destruct f1.
    + specialize (IH _ _ _ _ _ H). simpl. lia.
    + injection H as <- <- <-. simpl. lia.
Qed.

Lemma run_body_draws seeds e w f e' w' :
  Inv seeds e → queue_empty (e_active e) = false →
  run_body rand_seq e w = Ok (f, e', w') →
  ∃ u, popped (e_active e') = popped (e_active e) ++ [u] ∧
       (rand_calls w ≤ rand_calls w'
        ≤ rand_calls w + degree (e_g e) u)%nat.
Proof.
  intros HI Hne Hb.
  destruct (run_body_cases rand_seq seeds e w HI Hne)
    as (u & t & Hu & _ & _ & Ht & HId &
        [(_ & _ & Hret) | (_ & vs & Hvs & _ & Hloop)]).
  all: pose proof (Inv_qlin _ _ HI) as Hq.
  all: assert (qbegin (e_active e) < qend (e_active e)) as Hlt
         by (apply queue_empty_false in Hne; destruct Hq as ([? ?] & _); lia).
  all: pose proof (popped_get _ _ Hq Hlt Hu) as Hpop.
  all: exists u.
  - rewrite Hb in Hret. injection Hret as -> -> ->. split; [done | lia].
  - rewrite Hloop in Hb.
    assert (0 ≤ t) as Ht0 by lia.
    destruct (for_links_Inv rand_seq seeds _ _ _ _ _ _ _ _ HId Ht0 Hb)
      as (_ & Hfr).
    split; [by rewrite (fr_popped _ _ Hfr)|].
    pose proof (for_links_draws _ _ _ _ _ _ _ _ Hb).
    unfold degree. rewrite Hvs. done.
Qed.

Lemma observable_draws seeds e0 w0 e w :
  Inv seeds e0 → qbegin (e_active e0) = 0 →
  observable rand_seq e0 w0 e w →
  (rand_calls w0 ≤ rand_calls w
   ≤ rand_calls w0 + sum_list_with (degree (e_g e0)) (popped (e_active e)))%nat.
Proof.
  intros HI0 Hb0.
  assert (∀ e w, at_loop_head rand_seq e0 w0 e w →
            (rand_calls w0 ≤ rand_calls w
             ≤ rand_calls w0
               + sum_list_with (degree (e_g e0)) (popped (e_active e)))%nat)
    as Hhead.
  { clear e w. intros e w H. induction H as [|e w e' w' H IH Hne Hb].
    - lia.
    - pose proof (Inv_at_loop_head _ _ _ _ _ _ HI0 H) as HI.
      pose proof (at_loop_head_static _ _ _ _ _ _ HI0 H) as Hst.
      destruct (run_body_draws _ _ _ _ _ _ HI Hne Hb) as (u & -> & Hd).
      rewrite (st_g _ _ Hst) in Hd. rewrite sum_list_with_app. simpl. lia. }
  intros [H | (e1 & w1 & H & Hne & Hb)]; [by apply Hhead|].
  pose proof (Inv_at_loop_head _ _ _ _ _ _ HI0 H) as HI.
  pose proof (at_loop_head_static _ _ _ _ _ _ HI0 H) as Hst.
  destruct (run_body_draws _ _ _ _ _ _ HI Hne Hb) as (u & -> & Hd).
  rewrite (st_g _ _ Hst) in Hd. specialize (Hhead _ _ H).
  rewrite sum_list_with_app. simpl. lia.
Qed.

Lemma observable_counters seeds e0 w0 e w :
  Inv seeds e0 →
  observable rand_seq e0 w0 e w →
  ∃ new (d : nat),
    trace w = trace w0 ++ new ∧
    rand_calls w = (rand_calls w0 + d)%nat ∧
    (length new ≤ d)%nat ∧
    (e_output e = false → new = []) ∧
    e_cascade_links e0 ≤ e_cascade_links e
      ≤ e_cascade_links e0 + Z.of_nat d ∧
    (e_output e = true →
     e_cascade_links e ≤ e_cascade_links e0 + Z.of_nat (length new)).
Proof.
  intros HI0.
  set (P := λ (e : Epidemic) (w : World),
     ∃ new (d : nat),
       trace w = trace w0 ++ new ∧
       rand_calls w = (rand_calls w0 + d)%nat ∧
       (length new ≤ d)%nat ∧
       (e_output e = false → new = []) ∧
       e_cascade_links e0 ≤ e_cascade_links e
         ≤ e_cascade_links e0 + Z.of_nat d ∧
       (e_output e = true →
        e_cascade_links e ≤ e_cascade_links e0 + Z.of_nat (length new))).
  apply (observable_invariant rand_seq P seeds); try done.
  - intros e1 w1 u t v f e2 w2 HI1 Ht
           (new & d & Hnew & Hd & Hlen & Hoff & Hl & Hon) Htr.
    apply trial_cases in Htr
      as [(_ & _ & -> & ->) | [(_ & iv & Hiv & Hne & _ & -> & ->)
                              | (_ & Hv0 & q' & _ & -> & -> & _)]].
    + exists new, (S d). simpl. rewrite ?Hout, Hd.
      repeat split; try done; try lia;
        try (intros Ho; specialize (Hon Ho); lia).
    + unfold print_record.
      destruct (iv =? t + 1); simpl; destruct (e_output e1) eqn:Hout.
      all: first [ exists (new ++ [(t, u, v, e_id e1)]), (S d);
                   simpl; rewrite ?Hout, Hnew, Hd, length_app, app_assoc; simpl;
                   repeat split; try done; try lia;
                   try (intros _; specialize (Hon eq_refl); lia); fail
                 | exists new, (S d); simpl; rewrite ?Hout, Hd;
                   repeat split; try done; try lia;
                   try (by apply Hoff) ].
    + unfold print_record. simpl. destruct (e_output e1) eqn:Hout.
      * exists (new ++ [(t, u, v, e_id e1)]), (S d).
        simpl. rewrite ?Hout, Hnew, Hd, length_app, app_assoc. simpl.
        repeat split; try done; try lia;
          try (intros _; specialize (Hon eq_refl); lia).
      * exists new, (S d). simpl. rewrite ?Hout, Hd.
        repeat split; try done; try lia; try (by apply Hoff).
  - exists [], 0%nat. rewrite app_nil_r. simpl.
    repeat split; try done; lia.
Qed.

End Counters.

(** X11.  Every record [t u v id] a run prints is sound, at every later
    observable point: it carries the id of the epidemic, [u] is infected
    with time [t], [u → v] is an arc of the graph, and [v] is infected,
    at time [t + 1] at the latest.  The run only appends to the trace. *)
Theorem trace_records_sound (rand : nat → Z) (p : Q) (g : graph)
    (ic : InitialCondition) (out : bool) (w0 : World) :
  graph_wf g → seeds_ok g ic →
  ∃ e0,
    epidemic_new p g ic out = Ok e0 ∧
    ∀ e w, observable rand e0 w0 e w →
      ∃ new, trace w = trace w0 ++ new ∧
             Forall (record_ok g (ic_id ic) (e_infected e)) new.
Proof.
  intros Hg Hs.
  destruct (start_state p g ic out Hg Hs)
    as (e0 & Hnew & HI & HB & Hg0 & _).
  pose proof (epidemic_new_fields _ _ _ _ _ Hnew)
    as (_ & _ & _ & _ & Hid & _).
  exists e0. split; [done|]. intros e w Hobs.
  by destruct (observable_records rand _ g (ic_id ic) e0 w0 e w
                 HI HB Hg0 Hid Hobs) as (_ & _ & H).
Qed.

Lemma trace_records_sound_witness :
  ∃ e0,
    epidemic_new 1 triangle (mkIC 7 [0] 10 MaxTime) true = Ok e0 ∧
    ∀ e w, observable (λ _, 0) e0 world0 e w →
      ∃ new, trace w = trace world0 ++ new ∧
             Forall (record_ok triangle 7 (e_infected e)) new.
Proof.
  apply (trace_records_sound (λ _, 0) 1 triangle (mkIC 7 [0] 10 MaxTime)
           true world0).
  - apply (bool_decide_unpack _). vm_compute. reflexivity.
  - apply (bool_decide_unpack _). vm_compute. reflexivity.
Defined.

(** X12.  The records of a run appear in step order: along the part of
    the trace the run has written, the steps [t] never decrease. *)
Theorem trace_in_step_order (rand : nat → Z) (p : Q) (g : graph)
    (ic : InitialCondition) (out : bool) (w0 : World) :
  graph_wf g → seeds_ok g ic →
  ∃ e0,
    epidemic_new p g ic out = Ok e0 ∧
    ∀ e w, observable rand e0 w0 e w →
      ∃ new, trace w = trace w0 ++ new ∧
             StronglySorted Z.le (rec_t <$> new).
Proof.
  intros Hg Hs.
  destruct (start_state p g ic out Hg Hs) as (e0 & Hnew & HI & HB & _).
  exists e0. split; [done|]. intros e w Hobs.
  destruct (observable_sorted rand _ e0 w0 e w HI HB Hobs)
    as (new & Hnew' & Hsort & _).
  by exists new.
Qed.

Lemma trace_in_step_order_witness :
  ∃ e0,
    epidemic_new 1 triangle (mkIC 7 [0] 10 MaxTime) true = Ok e0 ∧
    ∀ e w, observable (λ _, 0) e0 world0 e w →
      ∃ new, trace w = trace world0 ++ new ∧
             StronglySorted Z.le (rec_t <$> new).
Proof.
  apply (trace_in_step_order (λ _, 0) 1 triangle (mkIC 7 [0] 10 MaxTime)
           true world0).
  - apply (bool_decide_unpack _). vm_compute. reflexivity.
  - apply (bool_decide_unpack _). vm_compute. reflexivity.
Defined.

(** X13.  Counting in a run from distinct seeds inside [[0, n)]: each
    arc is tried at most once, so the number [d] of calls to [rand()] is
    at most the number of arcs of the graph; at most one record is
    printed per call, none when the output is NULL; [cascade_links] is at
    most [d], hence at most the number of arcs, and at most the number of
    records printed when a trace is kept. *)
Theorem run_counters (rand : nat → Z) (p : Q) (g : graph)
    (ic : InitialCondition) (out : bool) (w0 : World) :
  graph_wf g → seeds_ok g ic →
  ∃ e0,
    epidemic_new p g ic out = Ok e0 ∧
    ∀ e w, observable rand e0 w0 e w →
      ∃ new (d : nat),
        trace w = trace w0 ++ new ∧
        rand_calls w = (rand_calls w0 + d)%nat ∧
        (length new ≤ d ≤ total_arcs g)%nat ∧
        (out = false → new = []) ∧
        0 ≤ e_cascade_links e ≤ Z.of_nat d ∧
        (out = true → e_cascade_links e ≤ Z.of_nat (length new)).
Proof.
  intros Hg Hs.
  destruct (epidemic_new_Inv p g ic out Hg Hs)
    as (e0 & Hnew & HI & _ & Hb0 & _).
  pose proof (epidemic_new_fields _ _ _ _ _ Hnew)
    as (Hg0 & _ & _ & _ & _ & Hout & _ & Hl0 & _).
  exists e0. split; [done|]. intros e w Hobs.
  destruct (observable_counters rand _ e0 w0 e w HI Hobs)
    as (new & d & Htr & Hd & Hlen & Hoff & Hl & Hon).
  pose proof (observable_draws rand _ e0 w0 e w HI Hb0 Hobs) as Hdraws.
  pose proof (Inv_observable _ _ _ _ _ _ HI Hobs) as HIe.
  pose proof (observable_static _ _ _ _ _ _ HI Hobs) as Hst.
  assert (sum_list_with (degree (e_g e0)) (popped (e_active e))
          ≤ total_arcs g)%nat as Hsum.
  { rewrite Hg0. apply degree_sum_le; [done| |].
    - pose proof (inv_nodup _ _ HIe) as Hnd.
      rewrite (pushed_split _ (Inv_qlin _ _ HIe)) in Hnd.
      by apply NoDup_app in Hnd as (? & _).
    - intros x Hx%(popped_pushed _ _ (Inv_qlin _ _ HIe)).
      apply (inv_pushed _ _ HIe) in Hx. apply time_of_pos in Hx.
      apply aget_in_range in Hx.
      rewrite (inv_len _ _ HIe), (st_g _ _ Hst), Hg0 in Hx. done. }
  exists new, d. rewrite (st_output _ _ Hst), Hout, Hl0 in *.
  split; [done|]. split; [done|]. split; [lia|]. split; [done|].
  split; [lia|]. intros Ho. specialize (Hon Ho). lia.
Qed.

Lemma run_counters_witness :
  ∃ e0,
    epidemic_new 1 triangle (mkIC 7 [0] 10 MaxTime) true = Ok e0 ∧
    ∀ e w, observable (λ _, 0) e0 world0 e w →
      ∃ new (d : nat),
        trace w = trace world0 ++ new ∧
        rand_calls w = (rand_calls world0 + d)%nat ∧
        (length new ≤ d ≤ total_arcs triangle)%nat ∧
        (true = false → new = []) ∧
        0 ≤ e_cascade_links e ≤ Z.of_nat d ∧
        (true = true → e_cascade_links e ≤ Z.of_nat (length new)).
Proof.
  apply (run_counters (λ _, 0) 1 triangle (mkIC 7 [0] 10 MaxTime)
           true world0).
  - apply (bool_decide_unpack _). vm_compute. reflexivity.
  - apply (bool_decide_unpack _). vm_compute. reflexivity.
Defined.

(** ** scascade.c: a run whose trials all fail *)

Section AllFail.

Variable rand_seq : nat → Z.

Lemma for_links_fail u t vs :
  ∀ e w f e' w',
    (∀ k, success (e_p e) (rand_seq k) = false) →
    for_links rand_seq e w u t vs = Ok (f, e', w') →
    f = Continue ∧ e' = e ∧ trace w' = trace w.
Proof.
  induction vs as [|v vs IH]; intros e w f e' w' Hfail H; simpl in H.
  - by injection H as <- <- <-.
  - unfold trial in H. rewrite Hfail in H. simpl in H.
    destruct (IH _ _ _ _ _ Hfail H) as (-> & -> & ->). done.
Qed.

Lemma run_body_fail e w f e' w' :
  (∀ k, success (e_p e) (rand_seq k) = false) →
  run_body rand_seq e w = Ok (f, e', w') →
  ∃ u q' t,
    queue_get (e_active e) = Ok (u, q') ∧ e' = set_active e q' ∧
    aget (e_infected e) u = Ok t ∧ trace w' = trace w ∧
    (f = Return → e_stop_criterion e = MaxTime ∧ e_bound e < t).
Proof.
  intros Hfail Hb. unfold run_body in Hb.
  destruct (queue_get (e_active e)) as [[u q']|]; [|done]. simpl in Hb.
  destruct (aget (e_infected e) u) as [t|] eqn:Ht; [|done]. simpl in Hb.
  exists u, q', t.
  destruct (Stopc_eqb (e_stop_criterion e) MaxTime && (e_bound e <? t))
    eqn:Hexit.
  - injection Hb as <- <- <-. do 4 (split; [done|]). intros _.
    apply andb_true_iff in Hexit as [Hs Hlt]. split; [|lia].
    by destruct (e_stop_criterion e).
  - destruct (links_of (e_g e) u) as [vs|]; [|done]. simpl in Hb.
    destruct (for_links_fail u t vs (set_active e q') w f e' w' Hfail Hb)
      as (-> & -> & ->). done.
Qed.

Lemma at_loop_head_fail e0 w0 e w :
  (∀ k, success (e_p e0) (rand_seq k) = false) →
  at_loop_head rand_seq e0 w0 e w →
  set_active e (e_active e0) = set_active e0 (e_active e0) ∧
  trace w = trace w0.
Proof.
  intros Hfail H. induction H as [|e w e' w' H [IHe IHw] Hne Hb]; [done|].
  assert (e_p e = e_p e0) as Hp
    by (change (e_p (set_active e (e_active e0))
                = e_p (set_active e0 (e_active e0))); by rewrite IHe).
  destruct (run_body_fail e w Continue e' w') as (u & q' & t & _ & -> & _ & Hw & _);
    [by rewrite Hp | done |].
  split; [exact IHe | congruence].
Qed.

End AllFail.

(** X14.  When every trial fails, the run from distinct seeds inside
    [[0, n)] infects nobody and prints nothing: it returns with the
    infection times, [num_infected], [cascade_links] and [t] that
    construction set and with the trace untouched, having emptied the
    queue unless the depth bound is below 1. *)
Theorem failed_trials_change_nothing (rand : nat → Z) (p : Q) (g : graph)
    (ic : InitialCondition) (out : bool) (w0 : World) :
  graph_wf g → seeds_ok g ic →
  (∀ k, success p (rand k) = false) →
  ∃ e0 e' w',
    epidemic_new p g ic out = Ok e0 ∧
    epidemic_run rand e0 w0 = Some (Ok (e', w')) ∧
    e_infected e' = e_infected e0 ∧
    e_num_infected e' = ic_num_infected ic ∧
    e_cascade_links e' = 0 ∧ e_t e' = 1 ∧
    trace w' = trace w0 ∧
    (queue_empty (e_active e') = true ∨
     (ic_stop_criterion ic = MaxTime ∧ ic_bound ic < 1)).
Proof.
  intros Hg Hs Hfail.
  destruct (start_state p g ic out Hg Hs)
    as (e0 & Hnew & HI & _ & _ & _ & Htimes).
  pose proof (epidemic_new_fields _ _ _ _ _ Hnew)
    as (_ & Hb0 & Hs0 & Hp0 & _ & _ & Hn0 & Hl0 & Ht0).
  rewrite <- Hp0 in Hfail.
  destruct (epidemic_run_total rand _ e0 w0 HI)
    as (e' & w' & Hrun & Hfin & _).
  exists e0, e', w'. split; [done|]. split; [done|].
  assert (∀ e w, at_loop_head rand e0 w0 e w →
            e_infected e = e_infected e0 ∧
            e_num_infected e = e_num_infected e0 ∧
            e_cascade_links e = e_cascade_links e0 ∧ e_t e = e_t e0 ∧
            e_p e = e_p e0 ∧ e_stop_criterion e = e_stop_criterion e0 ∧
            e_bound e = e_bound e0 ∧ trace w = trace w0) as Hhead.
  { intros e w Hh.
    destruct (at_loop_head_fail rand e0 w0 e w Hfail Hh) as [He Hw].
    split; [exact (f_equal e_infected He)|].
    split; [exact (f_equal e_num_infected He)|].
    split; [exact (f_equal e_cascade_links He)|].
    split; [exact (f_equal e_t He)|].
    split; [exact (f_equal e_p He)|].
    split; [exact (f_equal e_stop_criterion He)|].
    split; [exact (f_equal e_bound He) | done]. }
  destruct Hfin as [[Hh Hemp] | (e1 & w1 & Hh & Hne & Hb)].
  - destruct (Hhead _ _ Hh) as (-> & -> & -> & -> & _ & _ & _ & ->).
    rewrite Hn0, Hl0, Ht0. do 5 (split; [done|]). by left.
  - destruct (Hhead _ _ Hh) as (Hi & Hn & Hl & Ht & Hp & Hst & Hbd & Hw).
    destruct (run_body_fail rand e1 w1 Return e' w')
      as (u & q' & t & _ & -> & Hu & Hw' & Hret); [by rewrite Hp | done |].
    simpl. rewrite Hi, Hn, Hl, Ht, Hn0, Hl0, Ht0, Hw', Hw.
    do 5 (split; [done|]). right.
    destruct (Hret eq_refl) as [Hmax Hlt].
    split; [congruence|].
    rewrite Hi in Hu. apply time_of_Ok in Hu. rewrite Htimes in Hu.
    rewrite Hbd, Hb0 in Hlt. destruct (decide _); lia.
Qed.

Lemma failed_trials_change_nothing_witness :
  ∃ e0 e' w',
    epidemic_new (1 # 2) line5 (mkIC 7 [0] 2 MaxTime) true = Ok e0 ∧
    epidemic_run (λ _, RAND_MAX) e0 world0 = Some (Ok (e', w')) ∧
    e_infected e' = e_infected e0 ∧
    e_num_infected e' = ic_num_infected (mkIC 7 [0] 2 MaxTime) ∧
    e_cascade_links e' = 0 ∧ e_t e' = 1 ∧
    trace w' = trace world0 ∧
    (queue_empty (e_active e') = true ∨
     (ic_stop_criterion (mkIC 7 [0] 2 MaxTime) = MaxTime ∧
      ic_bound (mkIC 7 [0] 2 MaxTime) < 1)).
Proof.
  apply (failed_trials_change_nothing (λ _, RAND_MAX) (1 # 2) line5
           (mkIC 7 [0] 2 MaxTime) true world0).
  - apply (bool_decide_unpack _). vm_compute. reflexivity.
  - apply (bool_decide_unpack _). vm_compute. reflexivity.
  - intros _. reflexivity.
Defined.

(** ** scascade.c: choosing seeds at random *)

Lemma filter_ext_in {A} (P Q : A → Prop) `{∀ x, Decision (P x)}
    `{∀ x, Decision (Q x)} (l : list A) :
  (∀ x, x ∈ l → (P x ↔ Q x)) → filter P l = filter Q l.
Proof.
  induction l as [|a l IH]; intros HPQ; [done|].
  rewrite !filter_cons.
  rewrite IH by (intros x Hx; apply HPQ; by right).
  pose proof (HPQ a ltac:(left)) as Ha.
  destruct (decide (P a)), (decide (Q a)); tauto || done.
Qed.

Lemma StronglySorted_filter {A} (R : relation A) (P : A → Prop)
    `{∀ x, Decision (P x)} (l : list A) :
  StronglySorted R l → StronglySorted R (filter P l).
Proof.
  induction 1 as [|a l Hl IH Ha]; [constructor|].
  rewrite filter_cons. destruct (decide (P a)); [|done].
  constructor; [done|].
  rewrite Forall_forall in Ha |- *.
  intros x [_ Hx]%list_elem_of_filter. by apply Ha.
Qed.

Lemma StronglySorted_seqZ (a n : Z) : StronglySorted Z.lt (seqZ a n).
Proof.
  destruct (Z.le_gt_cases n 0) as [Hn|Hn].
  { rewrite seqZ_nil by done. constructor. }
  rewrite <- (Z2Nat.id n) by lia.
  generalize (Z.to_nat n) as k. clear. intros k. revert a.
  induction k as [|k IH]; intros a.
  - rewrite seqZ_nil by done. constructor.
  - rewrite seqZ_cons by lia.
    replace (Z.pred (Z.of_nat (S k))) with (Z.of_nat k) by lia.
    constructor; [apply IH|].
    apply Forall_seqZ. lia.
Qed.

Lemma selected_val num total marks v m :
  aget marks v = Ok m →
  selected num total marks v = Ok (chosen num total m).
Proof.
  intros Hm. unfold selected, chosen. rewrite Hm. simpl.
  destruct (num <? total ÷ 2) eqn:E1, (total ÷ 2 <? num) eqn:E2,
    (m =? 0) eqn:E3; simpl; rewrite ?E2, ?E3; try done; lia.
Qed.

Lemma aget_time_of marks v :
  0 ≤ v < Z.of_nat (length marks) → aget marks v = Ok (time_of marks v).
Proof.
  intros Hv. destruct (aget_total marks v Hv) as [x Hx].
  by rewrite (time_of_Ok _ _ _ Hx).
Qed.

Lemma collect_spec num total marks vs :
  ∀ i out,
    Forall (λ v, 0 ≤ v < Z.of_nat (length marks)) vs →
    (i + length (filter (λ v, chosen num total (time_of marks v) = true) vs)
     ≤ length out)%nat →
    collect num total marks vs (Z.of_nat i) out
    = Ok (take i out
          ++ filter (λ v, chosen num total (time_of marks v) = true) vs
          ++ drop (i + length (filter
                     (λ v, chosen num total (time_of marks v) = true) vs))
               out).
Proof.
  induction vs as [|v vs IH]; intros i out Hvs Hlen.
  - simpl. rewrite Nat.add_0_r. by rewrite take_drop.
  - apply Forall_cons in Hvs as [Hv Hvs].
    simpl. rewrite (selected_val _ _ _ _ _ (aget_time_of _ _ Hv)). simpl.
    rewrite filter_cons in Hlen |- *.
    destruct (decide (chosen num total (time_of marks v) = true)) as [Hc|Hc].
    + rewrite Hc. simpl in Hlen.
      assert (aset out (Z.of_nat i) v = Ok (<[i := v]> out)) as ->.
      { apply aset_Ok. rewrite Nat2Z.id. split; [lia | done]. }
      simpl. replace (Z.of_nat i + 1) with (Z.of_nat (S i)) by lia.
      rewrite IH; [|done|rewrite length_insert; lia].
      f_equal.
      rewrite (take_S_r _ _ v) by (apply list_lookup_insert_eq; lia).
      rewrite take_insert_ge by lia.
      rewrite drop_insert_lt by lia.
      rewrite <- app_assoc. simpl. by rewrite Nat.add_succ_r.
    + apply not_true_is_false in Hc. rewrite Hc. by apply IH.
Qed.

Lemma time_of_cons m ms v :
  0 < v → time_of (m :: ms) v = time_of ms (v - 1).
Proof.
  intros Hv. unfold time_of, aget.
  destruct (Z.ltb_spec v 0), (Z.ltb_spec (v - 1) 0); try lia.
  replace (Z.to_nat v) with (S (Z.to_nat (v - 1))) by lia. done.
Qed.

Lemma filter_index_length (P : Z → bool) (marks : list Z) :
  ∀ a,
    length (filter (λ v, P (time_of marks (v - a)) = true)
              (seqZ a (Z.of_nat (length marks))))
    = length (filter (λ m, P m = true) marks).
Proof.
  induction marks as [|m ms IH]; intros a.
  - by rewrite seqZ_nil.
  - rewrite seqZ_cons by (simpl; lia).
    replace (Z.pred (Z.of_nat (length (m :: ms))))
      with (Z.of_nat (length ms)) by (simpl; lia).
    rewrite !filter_cons.
    replace (time_of (m :: ms) (a - a)) with m
      by (by rewrite Z.sub_diag).
    rewrite (filter_ext_in _ (λ v, P (time_of ms (v - Z.succ a)) = true)).
    2:{ intros x Hx%elem_of_seqZ.
        rewrite time_of_cons by lia.
        by replace (x - a - 1) with (x - Z.succ a) by lia. }
    destruct (decide (P m = true)); simpl; by rewrite IH.
Qed.

Lemma marks_count marks :
  Forall (λ m, m = 0 ∨ m = 1) marks →
  Z.of_nat (length (filter (λ m, negb (m =? 0) = true) marks))
  = count_infected marks ∧
  Z.of_nat (length (filter (λ m, (m =? 0) = true) marks))
  = Z.of_nat (length marks) - count_infected marks.
Proof.
  unfold count_infected.
  induction 1 as [|m ms Hm _ IH]; [done|].
  rewrite !filter_cons. simpl length.
  destruct Hm as [-> | ->]; simpl;
    repeat (destruct (decide _); try done; try lia); simpl; lia.
Qed.

Section SeedingFacts.
Variable rand : nat → Z.

Lemma pick_free_Ok fuel total marks :
  ∀ w v w1,
    pick_free rand fuel total marks w = Some (Ok (v, w1)) →
    ∃ d : nat,
      rand_calls w1 = S (rand_calls w + d) ∧ trace w1 = trace w ∧
      aget marks v = Ok 0 ∧
      Z.rem (rand (rand_calls w + d)) total = v ∧
      ∀ j : nat, (j < d)%nat →
        ∃ m, aget marks (Z.rem (rand (rand_calls w + j)) total) = Ok m ∧
             m ≠ 0.
Proof.
  induction fuel as [|fuel IH]; intros w v w1 Hp; [done|].
  simpl in Hp.
  destruct (aget marks (Z.rem (rand (rand_calls w)) total))
    as [m|] eqn:Hm; [|done].
  destruct (Z.eqb_spec m 0) as [->|Hne].
  - injection Hp as <- <-. exists 0%nat. rewrite Nat.add_0_r.
    split_and!; try done. intros j Hj. lia.
  - apply IH in Hp as (d & Hc & Ht & Hv & Hr & Hj). simpl in *.
    exists (S d). rewrite Nat.add_succ_r.
    split_and!; try done.
    intros [|j] Hlt.
    + rewrite Nat.add_0_r. by exists m.
    + rewrite Nat.add_succ_r. apply Hj. lia.
Qed.

(** No access outside the marks when the residues are node numbers. *)
Lemma pick_free_safe fuel total marks :
  (∀ j, 0 ≤ Z.rem (rand j) total < Z.of_nat (length marks)) →
  ∀ w x, pick_free rand fuel total marks w ≠ Some (Err x).
Proof.
  intros Hr. induction fuel as [|fuel IH]; intros w x; [done|].
  simpl. destruct (aget_total marks _ (Hr (rand_calls w))) as [m ->].
  destruct (m =? 0); [done | apply IH].
Qed.

(** A free node among the next [fuel] residues ends the loop. *)
Lemma pick_free_fuel fuel total marks :
  ∀ w (j : nat),
    (j < fuel)%nat →
    aget marks (Z.rem (rand (rand_calls w + j)) total) = Ok 0 →
    pick_free rand fuel total marks w ≠ None.
Proof.
  induction fuel as [|fuel IH]; intros w j Hj Hfree; [lia|].
  simpl.
  destruct (aget marks (Z.rem (rand (rand_calls w)) total))
    as [m|] eqn:Hm; [|done].
  destruct (Z.eqb_spec m 0) as [->|Hne]; [done|].
  destruct j as [|j].
  { rewrite Nat.add_0_r, Hm in Hfree. congruence. }
  apply (IH (draw w) j); [lia|].
  simpl. by rewrite Nat.add_succ_r in Hfree.
Qed.

(** No free node among the residues to come: the loop never ends. *)
Lemma pick_free_stuck fuel total marks :
  ∀ w,
    (∀ j : nat, ∃ m,
        aget marks (Z.rem (rand (rand_calls w + j)) total) = Ok m ∧
        m ≠ 0) →
    pick_free rand fuel total marks w = None.
Proof.
  induction fuel as [|fuel IH]; intros w Hs; [done|].
  simpl. destruct (Hs 0%nat) as (m & Hm & Hne).
  rewrite Nat.add_0_r in Hm. rewrite Hm.
  destruct (Z.eqb_spec m 0); [done|].
  apply IH. intros j. destruct (Hs (S j)) as (m' & Hm' & Hne').
  exists m'. simpl. by rewrite Nat.add_succ_r in Hm'.
Qed.
End SeedingFacts.

Lemma marks_free marks :
  Forall (λ m, m = 0 ∨ m = 1) marks →
  count_infected marks < Z.of_nat (length marks) →
  ∃ i : nat, marks !! i = Some 0.
Proof.
  unfold count_infected.
  induction 1 as [|m ms Hm Hms IH]; intros Hlt; [simpl in Hlt; lia|].
  destruct Hm as [-> | ->]; [by exists 0%nat|].
  rewrite filter_cons in Hlt. destruct (decide (0 < 1)); [|lia].
  simpl in Hlt. destruct IH as [i Hi]; [lia|]. by exists (S i).
Qed.

Section SeedingLoop.
Variable rand : nat → Z.
Variable total : Z.
Variable c0 : nat.

Lemma marks_ok_start (n : nat) :
  Z.of_nat n = total → marks_ok rand total c0 c0 (replicate n 0).
Proof.
  intros Hn. split_and!.
  - by rewrite length_replicate.
  - apply Forall_replicate. by left.
  - intros v _. rewrite time_of_replicate. split; [done|].
    intros (j & Hj & _). lia.
Qed.

Lemma marks_ok_step fuel marks w v w1 :
  (c0 ≤ rand_calls w)%nat →
  marks_ok rand total c0 (rand_calls w) marks →
  pick_free rand fuel total marks w = Some (Ok (v, w1)) →
  aget marks v = Ok 0 ∧
  (rand_calls w < rand_calls w1)%nat ∧ trace w1 = trace w ∧
  marks_ok rand total c0 (rand_calls w1) (<[Z.to_nat v := 1]> marks) ∧
  count_infected (<[Z.to_nat v := 1]> marks) = count_infected marks + 1.
Proof.
  intros Hc (Hlen & H01 & Hdr) Hp.
  apply pick_free_Ok in Hp as (d & Hc1 & Ht & Hv & Hr & Hj).
  pose proof (aget_in_range _ _ _ Hv) as Hvr.
  pose proof Hv as [_ Hv0]%aget_Ok.
  split_and!; [done | lia | done | | by apply count_infected_insert].
  split_and!.
  - by rewrite length_insert.
  - apply Forall_insert; [done | by right].
  - intros u Hu. destruct (decide (u = v)) as [->|Hne].
    + rewrite time_of_insert_eq by done. split; [intros _ | done].
      exists (rand_calls w + d)%nat. split; [lia | done].
    + rewrite time_of_insert_ne by lia. rewrite (Hdr u Hu).
      split.
      * intros (j & Hjr & Hju). exists j. split; [lia | done].
      * intros (j & Hjr & Hju).
        destruct (decide (j < rand_calls w)%nat) as [Hlt|Hge].
        { exists j. split; [lia | done]. }
        destruct (decide (j = rand_calls w + d)%nat) as [->|Hnd].
        { congruence. }
        destruct (Hj (j - rand_calls w)%nat) as (m & Hm & Hm0); [lia|].
        replace (rand_calls w + (j - rand_calls w))%nat with j in Hm
          by lia.
        rewrite Hju in Hm. apply (Hdr u Hu).
        rewrite (time_of_Ok _ _ _ Hm).
        apply aget_Ok in Hm as [_ Hm].
        eapply Forall_lookup_1 in H01; [|exact Hm]. lia.
Qed.

Lemma pick_loop_Ok fuel k :
  ∀ marks w marks' w',
    (c0 ≤ rand_calls w)%nat →
    marks_ok rand total c0 (rand_calls w) marks →
    pick_loop rand fuel k total marks w = Some (Ok (marks', w')) →
    marks_ok rand total c0 (rand_calls w') marks' ∧
    count_infected marks' = count_infected marks + Z.of_nat k ∧
    (rand_calls w + k ≤ rand_calls w')%nat ∧ trace w' = trace w.
Proof.
  induction k as [|k IH]; intros marks w marks' w' Hc Hok Hp.
  - injection Hp as <- <-. split_and!; [done | lia | lia | done].
  - simpl in Hp.
    destruct (pick_free rand fuel total marks w) as [[[v w1]|]|] eqn:Hpf;
      try done.
    destruct (marks_ok_step _ _ _ _ _ Hc Hok Hpf)
      as (Hv & Hc1 & Ht1 & Hok1 & Hcnt).
    rewrite Hv in Hp. simpl in Hp.
    assert (aset marks v 1 = Ok (<[Z.to_nat v := 1]> marks)) as Hset.
    { apply aset_Ok. split; [by eapply aget_in_range | done]. }
    rewrite Hset in Hp.
    apply IH in Hp as (Hok' & Hcnt' & Hc' & Ht'); [|lia|done].
    split_and!; [done | lia | lia | congruence].
Qed.

(** With non-negative draws the marking loop stays inside the array. *)
Lemma pick_loop_safe fuel k :
  (∀ j, 0 ≤ rand j) → 0 < total →
  ∀ marks w x,
    (c0 ≤ rand_calls w)%nat →
    marks_ok rand total c0 (rand_calls w) marks →
    pick_loop rand fuel k total marks w ≠ Some (Err x).
Proof.
  intros Hr Htot.
  induction k as [|k IH]; intros marks w x Hc Hok; [done|].
  simpl.
  destruct (pick_free rand fuel total marks w) as [[[v w1]|y]|] eqn:Hpf;
    try done.
  - destruct (marks_ok_step _ _ _ _ _ Hc Hok Hpf)
      as (Hv & Hc1 & Ht1 & Hok1 & Hcnt).
    rewrite Hv. simpl.
    assert (aset marks v 1 = Ok (<[Z.to_nat v := 1]> marks)) as ->.
    { apply aset_Ok. split; [by eapply aget_in_range | done]. }
    apply IH; [lia | done].
  - exfalso. revert Hpf. apply pick_free_safe.
    intros j. destruct Hok as (-> & _).
    apply Z.rem_bound_pos; [apply Hr | done].
Qed.

(** With fair draws and enough fuel the marking loop ends. *)
Lemma pick_loop_total (B fuel k : nat) :
  fair rand total B → (B ≤ fuel)%nat →
  ∀ marks w,
    (c0 ≤ rand_calls w)%nat →
    marks_ok rand total c0 (rand_calls w) marks →
    count_infected marks + Z.of_nat k ≤ total →
    pick_loop rand fuel k total marks w ≠ None.
Proof.
  intros Hfair HB.
  induction k as [|k IH]; intros marks w Hc Hok Hcnt; [done|].
  simpl.
  destruct (pick_free rand fuel total marks w) as [[[v w1]|y]|] eqn:Hpf;
    try done.
  - destruct (marks_ok_step _ _ _ _ _ Hc Hok Hpf)
      as (Hv & Hc1 & Ht1 & Hok1 & Hcnt1).
    rewrite Hv. simpl.
    assert (aset marks v 1 = Ok (<[Z.to_nat v := 1]> marks)) as ->.
    { apply aset_Ok. split; [by eapply aget_in_range | done]. }
    apply IH; [lia | done | lia].
  - exfalso. revert Hpf.
    pose proof Hok as (Hlen & H01 & _).
    destruct (marks_free marks H01) as [i Hi]; [lia|].
    pose proof (lookup_lt_Some _ _ _ Hi) as Hil.
    destruct (Hfair (rand_calls w) (Z.of_nat i)) as (j & Hj & Hres);
      [lia|].
    apply (pick_free_fuel rand fuel total marks w j); [lia|].
    rewrite Hres. apply aget_Ok. rewrite Nat2Z.id. split; [lia | done].
Qed.
End SeedingLoop.

Lemma chosen_filter_length num total marks :
  Forall (λ m, m = 0 ∨ m = 1) marks →
  Z.of_nat (length marks) = total →
  Z.of_nat (length (filter (λ v, chosen num total (time_of marks v) = true)
                      (seqZ 0 total)))
  = if num <? total ÷ 2 then count_infected marks
    else if total ÷ 2 <? num then total - count_infected marks
    else 0.
Proof.
  intros H01 Hlen.
  rewrite (filter_ext_in _
             (λ v, chosen num total (time_of marks (v - 0)) = true))
    by (intros x _; by rewrite Z.sub_0_r).
  rewrite <- Hlen at 1.
  rewrite (filter_index_length (chosen num total) marks 0).
  destruct (marks_count marks H01) as [H1 H0].
  unfold chosen.
  destruct (Z.ltb_spec num (total ÷ 2)), (Z.ltb_spec (total ÷ 2) num);
    try lia; simpl.
  - rewrite <- H1. f_equal. f_equal. apply filter_ext_in. intros m _.
    by rewrite orb_false_r.
  - by rewrite <- Hlen, <- H0.
  - rewrite (filter_ext_in _ (λ _, False)); [|done].
    clear. induction marks as [|m ms IH]; [done|].
    rewrite filter_cons. by destruct (decide False).
Qed.

Section SeedingRun.
Variable rand : nat → Z.

Lemma infect_randomly_Ok fuel ic total w ic' w' :
  ic_infect_randomly rand fuel ic total w = Some (Ok (ic', w')) →
  ∃ marks,
    ic_num_infected ic < total ∧
    marks_ok rand total (rand_calls w) (rand_calls w') marks ∧
    count_infected marks
    = (if ic_num_infected ic <=? total ÷ 2 then ic_num_infected ic
       else total - ic_num_infected ic) ∧
    (Z.of_nat (rand_calls w) + count_infected marks
     ≤ Z.of_nat (rand_calls w')) ∧
    trace w' = trace w ∧
    ic' = ic_with_infected ic
            (filter (λ v, chosen (ic_num_infected ic) total
                            (time_of marks v) = true) (seqZ 0 total)
             ++ drop (length
                        (filter (λ v, chosen (ic_num_infected ic) total
                                        (time_of marks v) = true)
                           (seqZ 0 total)))
                  (ic_infected ic)) ∧
    (length (filter (λ v, chosen (ic_num_infected ic) total
                            (time_of marks v) = true) (seqZ 0 total))
     ≤ length (ic_infected ic))%nat.
Proof.
  unfold ic_infect_randomly. intros Hrun.
  destruct (Z.ltb_spec (ic_num_infected ic) total) as [Hlt|]; [|done].
  simpl in Hrun.
  set (k := if ic_num_infected ic <=? total ÷ 2 then ic_num_infected ic
            else total - ic_num_infected ic) in *.
  assert (0 ≤ ic_num_infected ic) as Hn0 by (unfold ic_num_infected; lia).
  assert (0 ≤ k) as Hk0 by (unfold k; destruct (_ <=? _); lia).
  destruct (pick_loop rand fuel (Z.to_nat k) total _ w)
    as [[[marks w1]|]|] eqn:Hpl; try done.
  apply (pick_loop_Ok rand total (rand_calls w)) in Hpl
    as (Hok & Hcnt & Hc & Ht);
    [|lia|apply marks_ok_start; lia].
  rewrite count_infected_replicate in Hcnt.
  pose proof Hok as (Hlen & H01 & _).
  pose proof (chosen_filter_length (ic_num_infected ic) total marks
                H01 Hlen) as Hfl.
  assert (length (filter (λ v, chosen (ic_num_infected ic) total
                                 (time_of marks v) = true) (seqZ 0 total))
          ≤ length (ic_infected ic))%nat as Hroom.
  { unfold ic_num_infected in *.
    destruct (Z.ltb_spec (Z.of_nat (length (ic_infected ic))) (total ÷ 2)),
      (Z.ltb_spec (total ÷ 2) (Z.of_nat (length (ic_infected ic))));
      destruct (Z.leb_spec (Z.of_nat (length (ic_infected ic)))
                  (total ÷ 2)); lia. }
  change 0 with (Z.of_nat 0) in Hrun at 2.
  rewrite collect_spec in Hrun.
  - injection Hrun as <- <-.
    exists marks. split_and!; try done; lia.
  - apply Forall_seqZ. lia.
  - simpl. exact Hroom.
Qed.
End SeedingRun.

Lemma fair_id (total : Z) :
  0 < total → fair (λ k, Z.of_nat k) total (Z.to_nat total).
Proof.
  intros Htot c v Hv.
  exists (Z.to_nat ((v - Z.of_nat c) mod total)).
  pose proof (Z.mod_pos_bound (v - Z.of_nat c) total Htot) as Hb.
  split; [lia|].
  rewrite Z.rem_mod_nonneg by lia.
  rewrite Nat2Z.inj_add, Z2Nat.id by lia.
  rewrite Zplus_mod_idemp_r.
  replace (Z.of_nat c + (v - Z.of_nat c)) with v by lia.
  apply Z.mod_small. lia.
Qed.

(** X15.  When [ic_infect_randomly] returns and [num_infected] differs
    from [total_nodes/2], the seeds it stores are [num_infected] distinct
    nodes of [[0, total_nodes)] in increasing order: the residues
    [rand() % total_nodes] of its calls when [num_infected] is below
    [total_nodes/2], the nodes that are no such residue when it is above.
    Identifier, bound and criterion are kept, nothing is printed. *)
Theorem random_seeds_distinct (rand : nat → Z) (fuel : nat)
    (ic ic' : InitialCondition) (total : Z) (w w' : World) :
  ic_infect_randomly rand fuel ic total w = Some (Ok (ic', w')) →
  ic_num_infected ic ≠ total ÷ 2 →
  StronglySorted Z.lt (ic_infected ic') ∧
  Forall (λ v, 0 ≤ v < total) (ic_infected ic') ∧
  ic_num_infected ic' = ic_num_infected ic ∧
  (ic_num_infected ic < total ÷ 2 →
   ∀ v, v ∈ ic_infected ic' ↔
        0 ≤ v < total ∧ drawn rand total (rand_calls w) (rand_calls w') v) ∧
  (total ÷ 2 < ic_num_infected ic →
   ∀ v, v ∈ ic_infected ic' ↔
        0 ≤ v < total ∧
        ¬ drawn rand total (rand_calls w) (rand_calls w') v) ∧
  ic_id ic' = ic_id ic ∧ ic_bound ic' = ic_bound ic ∧
  ic_stop_criterion ic' = ic_stop_criterion ic ∧
  trace w' = trace w.
Proof.
  intros Hrun Hne.
  apply infect_randomly_Ok in Hrun
    as (marks & Hlt & Hok & Hcnt & Hc & Ht & -> & Hroom).
  pose proof Hok as (Hlen & H01 & Hdr).
  pose proof (chosen_filter_length (ic_num_infected ic) total marks H01 Hlen)
    as Hfl.
  set (S := filter (λ v, chosen (ic_num_infected ic) total
                           (time_of marks v) = true) (seqZ 0 total)) in *.
  assert (length S = length (ic_infected ic)) as HS.
  { unfold ic_num_infected in *.
    destruct (Z.ltb_spec (Z.of_nat (length (ic_infected ic))) (total ÷ 2)),
      (Z.ltb_spec (total ÷ 2) (Z.of_nat (length (ic_infected ic))));
      destruct (Z.leb_spec (Z.of_nat (length (ic_infected ic)))
                  (total ÷ 2)); lia. }
  simpl. rewrite HS, drop_all, app_nil_r.
  assert (∀ v, 0 ≤ v < total → time_of marks v = 0 ∨ time_of marks v = 1)
    as Hbit.
  { intros v Hv. rewrite <- Hlen in Hv.
    destruct (aget_total marks v Hv) as [m Hm].
    rewrite (time_of_Ok _ _ _ Hm). apply aget_Ok in Hm as [_ Hm].
    by eapply Forall_lookup_1 in H01. }
  assert (∀ v, v ∈ S ↔ 0 ≤ v < total ∧
                 chosen (ic_num_infected ic) total (time_of marks v) = true)
    as HinS.
  { intros v. unfold S. rewrite list_elem_of_filter, elem_of_seqZ.
    split; intros [? ?]; (split; [done || lia | done || lia]). }
  split_and!; try done.
  - apply StronglySorted_filter, StronglySorted_seqZ.
  - apply Forall_forall. intros v Hv%HinS. tauto.
  - unfold ic_num_infected. simpl. by rewrite HS.
  - intros Hlow v. rewrite HinS. split; intros [Hv Hch]; (split; [done|]).
    + apply (Hdr v Hv). unfold chosen in Hch.
      destruct (Hbit v Hv) as [H0|H1]; [|done].
      rewrite H0 in Hch. simpl in Hch.
      destruct (Z.ltb_spec (ic_num_infected ic) (total ÷ 2)),
        (Z.ltb_spec (total ÷ 2) (ic_num_infected ic)); simpl in Hch;
        done || lia.
    + apply (Hdr v Hv) in Hch. unfold chosen. rewrite Hch. simpl.
      destruct (Z.ltb_spec (ic_num_infected ic) (total ÷ 2)); [done | lia].
  - intros Hhigh v. rewrite HinS. split; intros [Hv Hch]; (split; [done|]).
    + intros Hd. apply (Hdr v Hv) in Hd. unfold chosen in Hch.
      rewrite Hd in Hch. simpl in Hch.
      destruct (Z.ltb_spec (ic_num_infected ic) (total ÷ 2)); [lia|].
      simpl in Hch. by rewrite andb_false_r in Hch.
    + unfold chosen. destruct (Hbit v Hv) as [H0|H1].
      * rewrite H0. simpl.
        destruct (Z.ltb_spec (total ÷ 2) (ic_num_infected ic)); [|lia].
        by rewrite orb_true_r.
      * exfalso. apply Hch. by apply (Hdr v Hv).
Qed.

Lemma random_seeds_distinct_witness :
  StronglySorted Z.lt [1; 2; 4; 5; 6; 7; 8; 9] ∧
  Forall (λ v, 0 ≤ v < 10) [1; 2; 4; 5; 6; 7; 8; 9].
Proof.
  pose (rand := λ k : nat, Z.of_nat k * 7 + 3).
  pose (ic := mkIC 5 (replicate 8 0) 4 NumInfected).
  destruct (random_seeds_distinct rand 10 ic
              (mkIC 5 [1; 2; 4; 5; 6; 7; 8; 9] 4 NumInfected) 10
              world0 (mkWorld 2 []))
    as (Hs & Hr & _).
  - vm_compute. reflexivity.
  - vm_compute. discriminate.
  - split; [exact Hs | exact Hr].
Defined.

(** X16.  When [num_infected] equals [total_nodes/2] the second loop of
    [ic_infect_randomly] stores nothing: the draws are made and thrown
    away, and the seed array is returned as it came.  Coming from
    [ic_init], as in [ic_import], that is [num_infected] times node 0,
    which are not distinct seeds once [num_infected ≥ 2]. *)
Theorem random_seeds_half (rand : nat → Z) (fuel : nat)
    (ic0 ic ic' : InitialCondition) (n total : Z) (w w' : World) :
  ic_init ic0 n = Ok ic →
  n = total ÷ 2 →
  ic_infect_randomly rand fuel ic total w = Some (Ok (ic', w')) →
  ic_infected ic' = replicate (Z.to_nat n) 0 ∧
  (2 ≤ n → ¬ NoDup (ic_infected ic')) ∧
  Z.of_nat (rand_calls w) + n ≤ Z.of_nat (rand_calls w').
Proof.
  intros Hinit Hn Hrun. unfold ic_init in Hinit.
  destruct (Z.ltb_spec n 0) as [|Hn0]; [done|].
  injection Hinit as <-.
  apply infect_randomly_Ok in Hrun
    as (marks & Hlt & Hok & Hcnt & Hc & Ht & -> & Hroom).
  pose proof Hok as (Hlen & H01 & _).
  pose proof (chosen_filter_length
                (ic_num_infected (ic_with_infected ic0
                                    (replicate (Z.to_nat n) 0)))
                total marks H01 Hlen) as Hfl.
  unfold ic_num_infected in *. simpl in *.
  rewrite length_replicate in *. rewrite Z2Nat.id in * by lia.
  destruct (Z.ltb_spec n (total ÷ 2)), (Z.ltb_spec (total ÷ 2) n); try lia.
  destruct (Z.leb_spec n (total ÷ 2)); [|lia].
  assert (length (filter (λ v, chosen n total (time_of marks v) = true)
                    (seqZ 0 total)) = 0%nat) as Hfl0 by lia.
  apply length_zero_iff_nil in Hfl0. rewrite Hfl0.
  simpl. split_and!; [done | | lia].
  intros H2 Hnd.
  destruct (Z.to_nat n) as [|[|k]] eqn:Hk; try lia.
  simpl in Hnd. apply NoDup_cons in Hnd as [Hnd _]. apply Hnd. by left.
Qed.

Lemma random_seeds_half_witness :
  ic_infected (mkIC 5 [0; 0] 0 MaxTime) = replicate (Z.to_nat 2) 0 ∧
  ¬ NoDup (ic_infected (mkIC 5 [0; 0] 0 MaxTime)).
Proof.
  pose (rand := λ k : nat, Z.of_nat k * 7 + 3).
  destruct (random_seeds_half rand 10 (mkIC 5 [] 0 MaxTime)
              (mkIC 5 [0; 0] 0 MaxTime) (mkIC 5 [0; 0] 0 MaxTime) 2 5
              world0 (mkWorld 2 []))
    as (Hs & Hd & _).
  - vm_compute. reflexivity.
  - vm_compute. reflexivity.
  - vm_compute. reflexivity.
  - split; [exact Hs | apply Hd; lia].
Defined.

Lemma infect_randomly_safe (rand : nat → Z) fuel ic total w x :
  (∀ j, 0 ≤ rand j) → ic_num_infected ic < total →
  ic_infect_randomly rand fuel ic total w ≠ Some (Err x).
Proof.
  intros Hr Hlt Hrun. unfold ic_infect_randomly in Hrun.
  destruct (Z.ltb_spec (ic_num_infected ic) total); [|lia].
  simpl in Hrun.
  set (k := if ic_num_infected ic <=? total ÷ 2 then ic_num_infected ic
            else total - ic_num_infected ic) in *.
  assert (0 ≤ ic_num_infected ic) as Hn0 by (unfold ic_num_infected; lia).
  assert (0 ≤ k) as Hk0 by (unfold k; destruct (_ <=? _); lia).
  destruct (pick_loop rand fuel (Z.to_nat k) total _ w)
    as [[[marks w1]|y]|] eqn:Hpl; try done.
  - apply (pick_loop_Ok rand total (rand_calls w)) in Hpl
      as (Hok & Hcnt & _); [|lia|apply marks_ok_start; lia].
    rewrite count_infected_replicate in Hcnt.
    pose proof Hok as (Hlen & H01 & _).
    pose proof (chosen_filter_length (ic_num_infected ic) total marks
                  H01 Hlen) as Hfl.
    change 0 with (Z.of_nat 0) in Hrun at 2.
    rewrite collect_spec in Hrun; [done| |].
    { apply Forall_seqZ. lia. }
    simpl. unfold ic_num_infected in *.
    destruct (Z.ltb_spec (Z.of_nat (length (ic_infected ic))) (total ÷ 2)),
      (Z.ltb_spec (total ÷ 2) (Z.of_nat (length (ic_infected ic))));
      destruct (Z.leb_spec (Z.of_nat (length (ic_infected ic)))
                  (total ÷ 2)); lia.
  - revert Hpl. apply (pick_loop_safe rand total (rand_calls w));
      [done | lia | lia | apply marks_ok_start; lia].
Qed.

(** X17.  With the non-negative values [rand()] returns,
    [ic_infect_randomly] never reads or writes outside its arrays: it
    stops on the assertion exactly when [num_infected ≥ total_nodes], and
    otherwise either returns or is still drawing when the fuel ends. *)
Theorem random_seeds_in_bounds (rand : nat → Z) (fuel : nat)
    (ic : InitialCondition) (total : Z) (w : World) :
  (∀ j, 0 ≤ rand j) →
  (ic_infect_randomly rand fuel ic total w = Some (Err AssertionFailed)
   ↔ total ≤ ic_num_infected ic) ∧
  ic_infect_randomly rand fuel ic total w ≠ Some (Err OutOfBounds).
Proof.
  intros Hr.
  destruct (Z.lt_ge_cases (ic_num_infected ic) total) as [Hlt|Hge].
  - pose proof (infect_randomly_safe rand fuel ic total w AssertionFailed
                  Hr Hlt) as Ha.
    pose proof (infect_randomly_safe rand fuel ic total w OutOfBounds
                  Hr Hlt) as Hb.
    split; [|done]. split; [done | lia].
  - assert (ic_infect_randomly rand fuel ic total w
            = Some (Err AssertionFailed)) as ->.
    { unfold ic_infect_randomly.
      destruct (Z.ltb_spec (ic_num_infected ic) total); [lia | done]. }
    split; [|done]. split; [done | done].
Qed.

Lemma random_seeds_in_bounds_witness :
  ic_infect_randomly (λ k : nat, Z.of_nat k) 10 (mkIC 5 [0; 0; 0] 0 MaxTime)
    3 world0
  = Some (Err AssertionFailed).
Proof.
  destruct (random_seeds_in_bounds (λ k : nat, Z.of_nat k) 10
              (mkIC 5 [0; 0; 0] 0 MaxTime) 3 world0) as [[_ H] _].
  - intros j. lia.
  - apply H. vm_compute. discriminate.
Defined.

(** X18.  [ic_infect_randomly] returns whenever [num_infected] is below
    [total_nodes] and the draws are fair -- every window of [B]
    consecutive calls of [rand()] yields every residue -- each
    [do]-[while] loop then needing at most [B] draws. *)
Theorem random_seeds_terminate (rand : nat → Z) (B fuel : nat)
    (ic : InitialCondition) (total : Z) (w : World) :
  (∀ j, 0 ≤ rand j) →
  fair rand total B → (B ≤ fuel)%nat →
  ic_num_infected ic < total →
  ∃ ic' w', ic_infect_randomly rand fuel ic total w = Some (Ok (ic', w')).
Proof.
  intros Hr Hfair HB Hlt.
  assert (0 ≤ ic_num_infected ic) as Hn0 by (unfold ic_num_infected; lia).
  destruct (ic_infect_randomly rand fuel ic total w)
    as [[[ic' w']|x]|] eqn:Hrun.
  - by exists ic', w'.
  - exfalso. revert Hrun. by apply infect_randomly_safe.
  - exfalso. unfold ic_infect_randomly in Hrun.
    destruct (Z.ltb_spec (ic_num_infected ic) total); [|done].
    simpl in Hrun.
    set (k := if ic_num_infected ic <=? total ÷ 2 then ic_num_infected ic
              else total - ic_num_infected ic) in *.
    destruct (pick_loop rand fuel (Z.to_nat k) total _ w)
      as [[[marks w1]|y]|] eqn:Hpl; try done.
    { by destruct (collect _ _ _ _ _ _). }
    revert Hpl.
    apply (pick_loop_total rand total (rand_calls w) B);
      [done | done | lia | apply marks_ok_start; lia |].
    rewrite count_infected_replicate. unfold k.
    destruct (_ <=? _); lia.
Qed.

Lemma random_seeds_terminate_witness :
  ∃ ic' w',
    ic_infect_randomly (λ k : nat, Z.of_nat k) 5
      (mkIC 5 [0; 0; 0; 0] 0 MaxTime) 5 world0
    = Some (Ok (ic', w')).
Proof.
  apply (random_seeds_terminate (λ k : nat, Z.of_nat k) 5 5
           (mkIC 5 [0; 0; 0; 0] 0 MaxTime) 5 world0).
  - intros j. lia.
  - apply (fair_id 5). lia.
  - lia.
  - vm_compute. reflexivity.
Defined.

(** X19.  [ic_infect_randomly] need not return: when [rand()] yields one
    residue only and at least two nodes are to be marked
    ([2 ≤ num_infected ≤ total_nodes - 2]), the second [do]-[while] loop
    draws the marked node for ever, whatever the fuel. *)
Theorem random_seeds_may_loop (rand : nat → Z) (fuel : nat)
    (ic : InitialCondition) (total v0 : Z) (w : World) :
  (∀ j, Z.rem (rand j) total = v0) → 0 ≤ v0 < total →
  2 ≤ ic_num_infected ic ≤ total - 2 →
  ic_infect_randomly rand fuel ic total w = None.
Proof.
  intros Hres Hv0 Hnum. unfold ic_infect_randomly.
  destruct (Z.ltb_spec (ic_num_infected ic) total); [|lia]. simpl.
  set (k := if ic_num_infected ic <=? total ÷ 2 then ic_num_infected ic
            else total - ic_num_infected ic).
  assert (2 ≤ k) as Hk by (unfold k; destruct (_ <=? _); lia).
  destruct (Z.to_nat k) as [|[|k']] eqn:Ek; try lia.
  destruct fuel as [|fuel]; [done|].
  set (marks := replicate (Z.to_nat total) 0).
  assert (aget marks v0 = Ok 0) as Hfree.
  { apply aget_Ok. split; [lia|]. apply lookup_replicate. split; [done|lia]. }
  assert (pick_free rand (S fuel) total marks w = Some (Ok (v0, draw w)))
    as Hfirst by (simpl; by rewrite Hres, Hfree).
  assert (aset marks v0 1 = Ok (<[Z.to_nat v0 := 1]> marks)) as Hset.
  { apply aset_Ok. split; [|done]. unfold marks.
    rewrite length_replicate. lia. }
  cbn [pick_loop]. rewrite Hfirst, Hfree.
  cbn -[pick_free pick_loop]. rewrite Hset.
  rewrite pick_free_stuck; [done|].
  intros j. exists 1. rewrite Hres. split; [|done].
  apply aget_Ok. split; [lia|].
  apply list_lookup_insert_eq. unfold marks. rewrite length_replicate. lia.
Qed.

Lemma random_seeds_may_loop_witness :
  ic_infect_randomly (λ _, 7) 1000 (mkIC 5 [0; 0] 0 MaxTime) 4 world0 = None.
Proof.
  apply (random_seeds_may_loop (λ _, 7) 1000 (mkIC 5 [0; 0] 0 MaxTime) 4 3
           world0).
  - intros j. reflexivity.
  - lia.
  - vm_compute. split; discriminate.
Defined.

(** ** scascade.c: reading initial conditions and bounds *)

Lemma scan_int_Some inp z rest :
  scan_int inp = Some (z, rest) ↔ inp = Some z :: rest.
Proof.
  destruct inp as [|[y|] inp]; simpl; split; try done.
  - by intros [= -> ->].
  - by intros [= -> ->].
Qed.

Lemma read_nodes_Ok n :
  ∀ (j : nat) inf inp inf' rest,
    (j + n ≤ length inf)%nat →
    read_nodes n (Z.of_nat j) inf inp = Ok (inf', rest) →
    ∃ zs, length zs = n ∧ inp = (Some <$> zs) ++ rest ∧
          inf' = take j inf ++ zs ++ drop (j + n) inf.
Proof.
  induction n as [|n IH]; intros j inf inp inf' rest Hlen Hrd.
  - injection Hrd as <- <-. exists []. split_and!; [done..|].
    simpl. by rewrite Nat.add_0_r, take_drop.
  - simpl in Hrd.
    destruct (scan_int inp) as [[z rest1]|] eqn:Hs; [|done].
    apply scan_int_Some in Hs as ->.
    assert (aset inf (Z.of_nat j) z = Ok (<[j := z]> inf)) as Hset.
    { apply aset_Ok. rewrite Nat2Z.id. split; [lia | done]. }
    rewrite Hset in Hrd. simpl in Hrd.
    replace (Z.of_nat j + 1) with (Z.of_nat (S j)) in Hrd by lia.
    apply IH in Hrd as (zs & Hzs & -> & ->);
      [|rewrite length_insert; lia].
    exists (z :: zs). split_and!; [simpl; lia | done |].
    rewrite (take_S_r _ _ z) by (apply list_lookup_insert_eq; lia).
    rewrite take_insert_ge by lia.
    rewrite drop_insert_lt by lia.
    rewrite <- app_assoc. simpl. by rewrite Nat.add_succ_r.
Qed.

Lemma read_nodes_format zs :
  ∀ (j : nat) inf rest,
    (j + length zs ≤ length inf)%nat →
    read_nodes (length zs) (Z.of_nat j) inf ((Some <$> zs) ++ rest)
    = Ok (take j inf ++ zs ++ drop (j + length zs) inf, rest).
Proof.
  induction zs as [|z zs IH]; intros j inf rest Hlen.
  - simpl. by rewrite Nat.add_0_r, take_drop.
  - simpl in Hlen. cbn [length read_nodes fmap list_fmap app scan_int].
    assert (aset inf (Z.of_nat j) z = Ok (<[j := z]> inf)) as ->.
    { apply aset_Ok. rewrite Nat2Z.id. split; [lia | done]. }
    simpl. replace (Z.of_nat j + 1) with (Z.of_nat (S j)) by lia.
    rewrite IH by (rewrite length_insert; lia).
    rewrite (take_S_r _ _ z) by (apply list_lookup_insert_eq; lia).
    rewrite take_insert_ge by lia.
    rewrite drop_insert_lt by lia.
    rewrite <- app_assoc. simpl. by rewrite Nat.add_succ_r.
Qed.

Lemma read_nodes_in_bounds n :
  ∀ (j : nat) inf inp,
    (j + n ≤ length inf)%nat →
    read_nodes n (Z.of_nat j) inf inp ≠ Err OutOfBounds.
Proof.
  induction n as [|n IH]; intros j inf inp Hlen; [done|].
  simpl. destruct (scan_int inp) as [[z rest1]|]; [|done].
  assert (aset inf (Z.of_nat j) z = Ok (<[j := z]> inf)) as ->.
  { apply aset_Ok. rewrite Nat2Z.id. split; [lia | done]. }
  simpl. replace (Z.of_nat j + 1) with (Z.of_nat (S j)) by lia.
  apply IH. rewrite length_insert. lia.
Qed.

Section ImportFacts.
Variable rand : nat → Z.

Lemma import_one_Ok fuel inp w ic rest w' :
  import_one rand fuel inp 0 w = Some (Ok (ic, rest, w')) →
  inp = ic_line ic ++ rest ∧ ic_infected ic ≠ [] ∧ unbounded ic ∧ w' = w.
Proof.
  unfold import_one. intros Hi.
  destruct (scan_int inp) as [[id inp1]|] eqn:Hs1; [|done].
  destruct (scan_int inp1) as [[num inp2]|] eqn:Hs2; [|done].
  apply scan_int_Some in Hs1 as ->. apply scan_int_Some in Hs2 as ->.
  destruct (Z.ltb_spec 0 num) as [Hnum|]; [|done].
  unfold ic_init in Hi. destruct (Z.ltb_spec num 0); [lia|].
  simpl in Hi.
  destruct (read_nodes _ 0 _ inp2) as [[inf inp3]|] eqn:Hrd; [|done].
  injection Hi as <- <- <-.
  change (read_nodes ?n 0 ?a ?b) with (read_nodes n (Z.of_nat 0) a b)
    in Hrd.
  apply read_nodes_Ok in Hrd as (zs & Hzs & -> & ->);
    [|rewrite length_replicate; lia].
  rewrite drop_ge by (rewrite length_replicate; lia).
  simpl. rewrite app_nil_r.
  split_and!; [|destruct zs; [simpl in *; lia | done]|done|done].
  unfold ic_line, ic_num_infected. simpl.
  by rewrite Hzs, Z2Nat.id by lia.
Qed.

Lemma import_one_format fuel ic rest w :
  ic_infected ic ≠ [] → unbounded ic →
  import_one rand fuel (ic_line ic ++ rest) 0 w = Some (Ok (ic, rest, w)).
Proof.
  intros Hne [Hb Hst]. unfold import_one, ic_line. simpl.
  assert (0 < ic_num_infected ic) as Hnum.
  { unfold ic_num_infected. destruct (ic_infected ic); [done | simpl; lia]. }
  destruct (Z.ltb_spec 0 (ic_num_infected ic)); [|lia].
  unfold ic_init. destruct (Z.ltb_spec (ic_num_infected ic) 0); [lia|].
  simpl. unfold ic_num_infected. rewrite Nat2Z.id.
  change (read_nodes ?n 0 ?a ?b) with (read_nodes n (Z.of_nat 0) a b).
  rewrite read_nodes_format by (rewrite length_replicate; lia).
  rewrite drop_ge by (rewrite length_replicate; lia).
  simpl. rewrite app_nil_r.
  destruct ic as [id inf b st]. simpl in *. by subst.
Qed.

(** Without random seeds, reading one epidemic ends, and fails on an
    assertion only. *)
Lemma import_one_fails fuel inp w :
  (∃ r, import_one rand fuel inp 0 w = Some (Ok r)) ∨
  import_one rand fuel inp 0 w = Some (Err AssertionFailed).
Proof.
  unfold import_one.
  destruct (scan_int inp) as [[id inp1]|]; [|by right].
  destruct (scan_int inp1) as [[num inp2]|]; [|by right].
  destruct (Z.ltb_spec 0 num) as [Hnum|]; [|by right].
  unfold ic_init. destruct (Z.ltb_spec num 0); [lia|].
  simpl.
  pose proof (read_nodes_in_bounds (Z.to_nat num) 0
                (replicate (Z.to_nat num) 0) inp2) as Hnb.
  change (Z.of_nat 0) with 0 in Hnb.
  destruct (read_nodes _ 0 _ inp2) as [[inf inp3]|[]]; simpl.
  - left. by eexists.
  - by right.
  - exfalso. apply Hnb; [|done]. rewrite length_replicate. lia.
Qed.
End ImportFacts.

Section ImportLoop.
Variable rand : nat → Z.

Lemma import_loop_Ok fuel n :
  ∀ inp w ics rest w',
    import_loop rand fuel n inp 0 w = Some (Ok (ics, rest, w')) →
    length ics = n ∧ inp = concat (ic_line <$> ics) ++ rest ∧
    Forall (λ c, ic_infected c ≠ [] ∧ unbounded c) ics ∧ w' = w.
Proof.
  induction n as [|n IH]; intros inp w ics rest w' Hl.
  - injection Hl as <- <- <-. by split_and!.
  - simpl in Hl.
    destruct (import_one rand fuel inp 0 w) as [[[[ic inp1] w1]|]|] eqn:H1;
      try done.
    simpl in Hl.
    destruct (import_loop rand fuel n inp1 0 w1)
      as [[[[ics1 inp2] w2]|]|] eqn:H2; try done.
    injection Hl as <- <- <-.
    apply import_one_Ok in H1 as (-> & Hne & Hub & ->).
    apply IH in H2 as (<- & -> & Hall & ->).
    split_and!; [done | | by constructor | done].
    simpl. by rewrite <- app_assoc.
Qed.

Lemma import_loop_format fuel ics :
  ∀ rest w,
    Forall (λ c, ic_infected c ≠ [] ∧ unbounded c) ics →
    import_loop rand fuel (length ics) (concat (ic_line <$> ics) ++ rest)
      0 w
    = Some (Ok (ics, rest, w)).
Proof.
  induction ics as [|ic ics IH]; intros rest w Hall; [done|].
  apply Forall_cons in Hall as [[Hne Hub] Hall].
  cbn [length import_loop fmap list_fmap concat].
  rewrite <- app_assoc, import_one_format by done.
  cbn [and_then]. by rewrite IH.
Qed.

Lemma import_loop_fails fuel n :
  ∀ inp w,
    (∃ r, import_loop rand fuel n inp 0 w = Some (Ok r)) ∨
    import_loop rand fuel n inp 0 w = Some (Err AssertionFailed).
Proof.
  induction n as [|n IH]; intros inp w.
  - left. by eexists.
  - simpl. destruct (import_one_fails rand fuel inp w)
      as [[[[ic inp1] w1] ->] | ->]; [|by right].
    simpl. destruct (IH inp1 w1) as [[[[ics inp2] w2] ->] | ->];
      [|by right].
    left. by eexists.
Qed.
End ImportLoop.

(** X20.  Reading seeds from the file ([total_nodes = 0]), [ic_import]
    accepts exactly the format its comment gives -- the number of
    epidemics, at least one, then for each the identifier, the number of
    seeds, at least one, and that many nodes -- and returns the initial
    conditions in file order, each with bound 0 and the criterion
    [MaxTime], without calling [rand()].  The nodes are not looked at.
    Any other input stops on an assertion. *)
Theorem import_accepts_format (rand : nat → Z) (fuel : nat) (inp : input)
    (w : World) :
  (∀ ics rest w',
     ic_import rand fuel (Some inp) 0 w = Some (Ok (ics, rest, w')) ↔
     inp = ic_file ics ++ rest ∧ ics ≠ [] ∧
     Forall (λ c, ic_infected c ≠ [] ∧ unbounded c) ics ∧ w' = w) ∧
  ((∃ r, ic_import rand fuel (Some inp) 0 w = Some (Ok r)) ∨
   ic_import rand fuel (Some inp) 0 w = Some (Err AssertionFailed)).
Proof.
  split.
  - intros ics rest w'. split.
    + unfold ic_import. intros Hi.
      destruct (scan_int inp) as [[n inp1]|] eqn:Hs; [|done].
      apply scan_int_Some in Hs as ->.
      destruct (Z.ltb_spec 0 n) as [Hn|]; [|done]. simpl in Hi.
      apply import_loop_Ok in Hi as (Hlen & -> & Hall & ->).
      split_and!; try done.
      * unfold ic_file. simpl. do 2 f_equal. lia.
      * intros ->. simpl in Hlen. lia.
    + intros (-> & Hne & Hall & ->). unfold ic_import, ic_file. simpl.
      destruct (Z.ltb_spec 0 (Z.of_nat (length ics))) as [|Hle].
      * simpl. rewrite Nat2Z.id. by apply import_loop_format.
      * destruct ics; [done | simpl in Hle; lia].
  - unfold ic_import.
    destruct (scan_int inp) as [[n inp1]|]; [|by right].
    destruct (0 <? n); [|by right]. simpl.
    apply import_loop_fails.
Qed.

Lemma bounds_loop_Ok stop k :
  ∀ (i : nat) ics inp ics' rest,
    (i + k ≤ length ics)%nat →
    bounds_loop k i ics stop inp = Ok (ics', rest) →
    ∃ bs, length bs = k ∧
          inp = bounds_file (zip (ic_id <$> take k (drop i ics)) bs) ++ rest ∧
          ics' = take i ics
                 ++ zip_with (λ c b, ic_with_bound c b stop)
                      (take k (drop i ics)) bs
                 ++ drop (i + k) ics.
Proof.
  induction k as [|k IH]; intros i ics inp ics' rest Hlen Hb.
  - injection Hb as <- <-. exists []. split_and!; [done..|].
    simpl. by rewrite Nat.add_0_r, take_drop.
  - simpl in Hb.
    destruct (scan_int inp) as [[id inp1]|] eqn:Hs1; [|done].
    destruct (scan_int inp1) as [[b inp2]|] eqn:Hs2; [|done].
    apply scan_int_Some in Hs1 as ->. apply scan_int_Some in Hs2 as ->.
    destruct (ics !! i) as [c|] eqn:Hc; [|done].
    destruct (Z.eqb_spec id (ic_id c)) as [->|]; [|done]. simpl in Hb.
    apply IH in Hb as (bs & Hbs & -> & ->); [|rewrite length_insert; lia].
    exists (b :: bs).
    rewrite drop_insert_lt by lia.
    rewrite (drop_S ics c i Hc). cbn [take fmap list_fmap zip zip_with].
    split_and!; [simpl; lia | done |].
    rewrite (take_S_r _ _ (ic_with_bound c b stop))
      by (apply list_lookup_insert_eq; by eapply lookup_lt_Some).
    rewrite take_insert_ge by lia.
    rewrite drop_insert_lt by lia.
    rewrite <- app_assoc. simpl. by rewrite Nat.add_succ_r.
Qed.

Lemma bounds_loop_format stop bs :
  ∀ (i : nat) ics rest,
    (i + length bs ≤ length ics)%nat →
    bounds_loop (length bs) i ics stop
      (bounds_file (zip (ic_id <$> take (length bs) (drop i ics)) bs) ++ rest)
    = Ok (take i ics
          ++ zip_with (λ c b, ic_with_bound c b stop)
               (take (length bs) (drop i ics)) bs
          ++ drop (i + length bs) ics, rest).
Proof.
  induction bs as [|b bs IH]; intros i ics rest Hlen.
  - simpl. by rewrite Nat.add_0_r, take_drop.
  - simpl in Hlen.
    destruct (lookup_lt_is_Some_2 ics i) as [c Hc]; [lia|].
    rewrite (drop_S ics c i Hc).
    cbn [length take fmap list_fmap zip zip_with bounds_file concat app
         bounds_loop scan_int].
    rewrite Hc, Z.eqb_refl. cbn [negb].
    specialize (IH (S i) (<[i := ic_with_bound c b stop]> ics) rest).
    rewrite length_insert, drop_insert_lt in IH by lia.
    unfold bounds_file in IH. rewrite IH by lia.
    rewrite (take_S_r _ _ (ic_with_bound c b stop))
      by (apply list_lookup_insert_eq; lia).
    rewrite take_insert_ge by lia.
    rewrite drop_insert_lt by lia.
    rewrite <- app_assoc. simpl. by rewrite Nat.add_succ_r.
Qed.

Lemma bounds_loop_fails stop k :
  ∀ (i : nat) ics inp,
    (i + k ≤ length ics)%nat →
    (∃ r, bounds_loop k i ics stop inp = Ok r) ∨
    bounds_loop k i ics stop inp = Err AssertionFailed.
Proof.
  induction k as [|k IH]; intros i ics inp Hlen.
  - left. by eexists.
  - simpl.
    destruct (scan_int inp) as [[id inp1]|]; [|by right].
    destruct (scan_int inp1) as [[b inp2]|]; [|by right].
    destruct (lookup_lt_is_Some_2 ics i) as [c ->]; [lia|].
    destruct (id =? ic_id c); [|by right]. simpl.
    apply IH. rewrite length_insert. lia.
Qed.

(** X21.  [ic_import_bounds] over all [n] initial conditions accepts
    exactly the inputs that list, in the order of the array, each
    identifier with a bound: the bounds are matched by position and the
    identifier is only compared.  It then stores the bounds and the
    criterion and leaves identifiers and seeds alone.  Any other input,
    such as the same lines in another order, stops on an assertion. *)
Theorem bounds_by_position (ics : list InitialCondition) (stop : Stopc)
    (inp : input) :
  (∀ ics' rest,
     ic_import_bounds ics (Z.of_nat (length ics)) stop (Some inp)
     = Ok (ics', rest) ↔
     ics ≠ [] ∧
     ∃ bs, length bs = length ics ∧
           inp = bounds_file (zip (ic_id <$> ics) bs) ++ rest ∧
           ics' = zip_with (λ c b, ic_with_bound c b stop) ics bs) ∧
  ((∃ r, ic_import_bounds ics (Z.of_nat (length ics)) stop (Some inp) = Ok r)
   ∨ ic_import_bounds ics (Z.of_nat (length ics)) stop (Some inp)
     = Err AssertionFailed).
Proof.
  unfold ic_import_bounds. rewrite Nat2Z.id.
  destruct (Z.ltb_spec 0 (Z.of_nat (length ics))) as [Hpos|Hle]; simpl.
  - assert (ics ≠ []) as Hne by (intros ->; simpl in Hpos; lia).
    split; [|apply bounds_loop_fails; lia].
    intros ics' rest. split.
    + intros Hb. apply bounds_loop_Ok in Hb as (bs & Hbs & -> & ->); [|lia].
      split; [done|]. exists bs.
      rewrite drop_0, firstn_all. cbn [Nat.add app].
      by rewrite drop_all, app_nil_r.
    + intros (_ & bs & Hbs & -> & ->).
      pose proof (bounds_loop_format stop bs 0 ics rest) as Hf.
      rewrite Hbs, drop_0, firstn_all in Hf. cbn [Nat.add app] in Hf.
      rewrite drop_all, app_nil_r in Hf. apply Hf. lia.
  - split; [|by right].
    intros ics' rest. split; [done|]. intros [Hne _].
    destruct ics; [done | simpl in Hle; lia].
Qed.

(** ** scascade.c: the driver *)

Section OneRun.
Variable rand : nat → Z.

End OneRun.

Lemma Forall3_fmap_same {A B C} (P : A → B → C → Prop) (f : A → A)
    (l : list A) :
  (∀ x y z, P (f x) y z → P x y z) →
  ∀ k k', Forall3 P (f <$> l) k k' → Forall3 P l k k'.
Proof.
  intros Hf. induction l as [|x l IH]; intros k k' H3.
  - inversion H3. constructor.
  - apply Forall3_cons_inv_l in H3 as (y & k2 & z & k2' & -> & -> & HP & H3).
    constructor; [by apply Hf | by apply IH].
Qed.

Section Batch.
Variable rand : nat → Z.
Variable p : Q.
Variable g : graph.
Variable epidemic_output data_output : bool.
Hypothesis Hg : graph_wf g.


End Batch.




Lemma ic_import_format (rand : nat → Z) fuel ics rest w :
  ics ≠ [] → Forall (λ c, ic_infected c ≠ [] ∧ unbounded c) ics →
  ic_import rand fuel (Some (ic_file ics ++ rest)) 0 w
  = Some (Ok (ics, rest, w)).
Proof.
  intros Hne Hall. unfold ic_import, ic_file. simpl.
  destruct (Z.ltb_spec 0 (Z.of_nat (length ics))) as [|Hle].
  - simpl. rewrite Nat2Z.id. by apply import_loop_format.
  - destruct ics; [done | simpl in Hle; lia].
Qed.

Lemma ic_import_fails (rand : nat → Z) fuel f w :
  (∃ r, ic_import rand fuel f 0 w = Some (Ok r)) ∨
  ic_import rand fuel f 0 w = Some (Err AssertionFailed).
Proof.
  unfold ic_import. destruct f as [inp|]; [|by right].
  destruct (scan_int inp) as [[n inp1]|]; [|by right].
  destruct (0 <? n); [|by right]. simpl.
  apply import_loop_fails.
Qed.

Lemma ic_import_bounds_fails ics stop f :
  (∃ r, ic_import_bounds ics (Z.of_nat (length ics)) stop f = Ok r) ∨
  ic_import_bounds ics (Z.of_nat (length ics)) stop f = Err AssertionFailed.
Proof.
  unfold ic_import_bounds.
  destruct (0 <? Z.of_nat (length ics)); [|by right]. simpl.
  destruct f as [inp|]; [|by right].
  apply bounds_loop_fails. lia.
Qed.











(** X25.  [main] cannot take more than one sample: with a number of
    samples other than 1 it never reaches the loop over the epidemics,
    whatever the lists and the graph -- it stops on an assertion, the one
    on the number of samples at the latest. *)
Theorem main_one_sample_only (rand : nat → Z) (p : Q) (g : graph)
    (maxtime sample_epidemics : Z) (stop : Stopc)
    (ic_list : option (option input)) (bounds_list : option input)
    (epidemic_output data_output : bool) (w : World) :
  sample_epidemics ≠ 1 →
  main_run rand p maxtime sample_epidemics stop ic_list bounds_list g
    epidemic_output data_output w
  = Some (Err AssertionFailed).
Proof.
  intros Hs. unfold main_run.
  assert (∀ ics w1,
            and_then
              (Some (if negb (maxtime =? 0)
                     then Ok ((λ c, ic_with_bound c maxtime MaxTime) <$> ics)
                     else ic_import_bounds ics (Z.of_nat (length ics)) stop
                            bounds_list ≫= λ '(ics', _), Ok ics'))
              (λ ics2,
                 if negb (sample_epidemics =? 1)
                 then Some (Err AssertionFailed)
                 else and_then
                        (epidemics_loop rand ics2 p g sample_epidemics
                           epidemic_output data_output [] w1)
                        (λ '(_, log, w2), Some (Ok (log, w2))))
            = Some (Err AssertionFailed)) as Hrest.
  { intros ics w1.
    destruct (Z.eqb_spec sample_epidemics 1) as [|_]; [done|].
    destruct (negb (maxtime =? 0)); [done|].
    destruct (ic_import_bounds_fails ics stop bounds_list)
      as [[[ics' rest] ->] | ->]; done. }
  destruct ic_list as [f|].
  - destruct (ic_import_fails rand 0 f w) as [[[[ics rest] w1] ->] | ->];
      [|done].
    cbn [and_then]. apply Hrest.
  - change ic_trivial with (Ok (mkIC 0 [0] 0 MaxTime)). cbn [and_then].
    apply Hrest.
Qed.

Lemma main_one_sample_only_witness :
  main_run (λ _, 0) 1 2 3 MaxTime None None line5 true true world0
  = Some (Err AssertionFailed).
Proof.
  apply (main_one_sample_only (λ _, 0) 1 line5 2 3 MaxTime None None
           true true world0).
  discriminate.
Defined.

(** ** scascade.c: the options of [main] *)

Lemma same_params_start stop0 stop1 :
  same_params (default_params stop0) (default_params stop1).
Proof. unfold same_params. simpl. split_and!; try done; by right. Qed.

Lemma set_option_same ps ps' o r :
  same_params ps ps' → set_option ps o = Parsed r →
  ∃ r', set_option ps' o = Parsed r' ∧ same_params r r'.
Proof.
  intros (Hp & Hm & Hs & Ht & Hg & Hi & Hb & Ho & Hd & Hst & Hinv1 & Hinv2)
    Hset.
  destruct o; simpl in Hset |- *; try done.
  1-6,10: injection Hset as <-; eexists; split; [done|];
    unfold same_params; simpl; split_and!; done.
  - rewrite Hb. destruct (m_bounds_list_path ps) eqn:Eb; [done|].
    injection Hset as <-. eexists. split; [done|].
    unfold same_params. simpl. rewrite ?Eb.
    split_and!; try done; by left.
  - rewrite Hm. destruct (Z.leb_spec (m_maxtime ps) 0); [|done].
    injection Hset as <-. eexists. split; [done|].
    unfold same_params. simpl. split_and!; try done; by left.
  - rewrite Hm. destruct (Z.leb_spec (m_maxtime ps) 0); [|done].
    injection Hset as <-. eexists. split; [done|].
    unfold same_params. simpl. split_and!; try done; by left.
Qed.

Lemma parse_options_same opts :
  ∀ ps ps' r,
    same_params ps ps' → parse_options opts ps = Parsed r →
    ∃ r', parse_options opts ps' = Parsed r' ∧ same_params r r'.
Proof.
  induction opts as [|o opts IH]; intros ps ps' r Hsame Hparse.
  - injection Hparse as <-. by exists ps'.
  - simpl in Hparse |- *.
    destruct (set_option ps o) as [ps1| |] eqn:Hset; try done.
    destruct (set_option_same ps ps' o ps1 Hsame Hset) as (ps1' & -> & Hs1).
    by apply (IH ps1).
Qed.

Lemma params_asserts_bound ps :
  params_asserts ps = Ok () →
  m_bounds_list_path ps = true ∨ 0 < m_maxtime ps.
Proof.
  unfold params_asserts, main_asserts. intros Ha.
  destruct (negb _); [done|]. destruct (negb _); [done|].
  destruct (negb _); [done|].
  destruct (m_bounds_list_path ps); [by left|]. right.
  simpl in Ha. destruct (Z.ltb_spec 0 (m_maxtime ps)); [done|].
  by simpl in Ha.
Qed.

(** X26.  Whatever the options, once they are parsed and the assertions
    of [main] hold, the run is in one of two modes: a global bound
    ([-t] with a positive value, no list of bounds, the depth criterion)
    or a list of bounds ([-a] or [-b]) with a global bound that is zero
    or negative.  In both, [stop_criterion], declared without a value,
    has been given one by an option: the parameters do not depend on
    what it held before. *)
Theorem options_fix_criterion (opts : list option_arg) (stop0 : Stopc)
    (ps : Params) :
  parse_options opts (default_params stop0) = Parsed ps →
  params_asserts ps = Ok () →
  (∀ stop1, parse_options opts (default_params stop1) = Parsed ps) ∧
  ((m_bounds_list_path ps = false ∧ 0 < m_maxtime ps ∧
    m_stop_criterion ps = MaxTime) ∨
   (m_bounds_list_path ps = true ∧ m_maxtime ps ≤ 0)).
Proof.
  intros Hparse Hassert.
  pose proof (params_asserts_bound ps Hassert) as Hmode.
  split.
  - intros stop1.
    destruct (parse_options_same opts _ (default_params stop1) ps
                (same_params_start stop0 stop1) Hparse)
      as (ps' & Hparse' & Hp & Hm & Hs & Ht & Hg & Hi & Hb & Ho & Hd & Hst
          & Hinv1 & _).
    rewrite Hparse'. f_equal.
    assert (m_stop_criterion ps' = m_stop_criterion ps) as Hstop.
    { destruct Hst as [|[Hb0 Hm0]]; [done|].
      destruct Hmode as [Hb1|Hm1]; [congruence | lia]. }
    destruct ps, ps'. simpl in *. by subst.
  - destruct (parse_options_same opts _ (default_params stop0) ps
                (same_params_start stop0 stop0) Hparse)
      as (ps' & _ & _ & _ & _ & _ & _ & _ & _ & _ & _ & _ & Hinv1 & Hinv2).
    destruct (m_bounds_list_path ps) eqn:Eb.
    + right. split; [done|]. by apply Hinv1.
    + left. destruct Hmode as [|Hm]; [done|].
      split; [done|]. split; [done|]. apply Hinv2; [done | lia].
Qed.

Lemma options_fix_criterion_witness :
  parse_options [Opt_p (1 # 2); Opt_g; Opt_t (-5); Opt_b]
    (default_params MaxTime)
  = Parsed (mkParams (1 # 2) (-5) 1 1 true false true false false
              NumInfected).
Proof.
  destruct (options_fix_criterion
              [Opt_p (1 # 2); Opt_g; Opt_t (-5); Opt_b] NumInfected
              (mkParams (1 # 2) (-5) 1 1 true false true false false
                 NumInfected)) as [H _].
  - reflexivity.
  - reflexivity.
  - apply H.
Defined.

Section Idle.
Variable rand : nat → Z.

(** With the depth criterion and a bound below 1 the run returns at the
    first node it takes from the queue. *)
Lemma epidemic_run_idle seeds e w :
  Inv seeds e → e_stop_criterion e = MaxTime → e_bound e < 1 →
  ∃ e', epidemic_run rand e w = Some (Ok (e', w)) ∧
        e_id e' = e_id e ∧ e_t e' = e_t e ∧
        e_num_infected e' = e_num_infected e ∧ e_g e' = e_g e ∧
        e_cascade_links e' = e_cascade_links e.
Proof.
  intros HI Hstop Hb. unfold epidemic_run. cbn [run_fuel].
  destruct (queue_empty (e_active e)) eqn:Hemp; [by exists e|].
  pose proof (Inv_qlin _ _ HI) as Hq.
  apply queue_empty_false in Hemp.
  assert (qbegin (e_active e) < qend (e_active e)) as Hlt
    by (destruct Hq; lia).
  destruct (queue_get_lin _ Hq Hlt) as (u & Hu & Hget).
  assert (0 < time_of (e_infected e) u) as Hpos.
  { apply (inv_pushed _ _ HI). unfold pushed.
    apply list_elem_of_lookup. exists (Z.to_nat (qbegin (e_active e))).
    destruct Hq as ((? & ?) & ? & ?).
    rewrite lookup_take_lt by lia. done. }
  pose proof (time_of_pos _ _ Hpos) as Ht.
  assert (run_body rand e w
          = Ok (Return,
                set_active e (mkQueue (qsize (e_active e))
                                (qbegin (e_active e) + 1)
                                (qend (e_active e)) (qnodes (e_active e))),
                w)) as Hbody.
  { unfold run_body. rewrite Hget. simpl. rewrite Ht. simpl. rewrite Hstop.
    simpl.
    destruct (Z.ltb_spec (e_bound e) (time_of (e_infected e) u));
      [done | lia]. }
  rewrite Hbody. by eexists.
Qed.
End Idle.

Section IdleBatch.
Variable rand : nat → Z.
Variable p : Q.
Variable g : graph.
Variable epidemic_output data_output : bool.
Hypothesis Hg : graph_wf g.

Lemma run_sample_idle ic log w :
  seeds_ok g ic → ic_stop_criterion ic = MaxTime → ic_bound ic < 1 →
  run_sample rand p g ic 1 epidemic_output data_output log w
  = Some (Ok (log ++ idle_lines g data_output ic, w)).
Proof.
  intros Hs Hstop Hb.
  destruct (start_state p g ic epidemic_output Hg Hs)
    as (e0 & Hnew & HI & _).
  pose proof (epidemic_new_fields _ _ _ _ _ Hnew)
    as (Hg0 & Hb0 & Hs0 & _ & Hid0 & _ & Hn0 & Hl0 & Ht0).
  destruct (epidemic_run_idle rand _ e0 w HI) as (e' & Hrun & Hid & Ht & Hn
                                                  & Hg' & Hl);
    [congruence | lia |].
  unfold run_sample. rewrite Hnew. cbn [and_then]. rewrite Hrun.
  cbn [and_then].
  rewrite Hid, Ht, Hn, Hg', Hl, Hid0, Ht0, Hn0, Hg0, Hl0.
  unfold say, idle_lines. destruct data_output; [|by rewrite app_nil_r].
  by rewrite <- app_assoc.
Qed.

Lemma epidemics_loop_idle ics :
  ∀ log w,
    Forall (λ c, seeds_ok g c ∧ ic_stop_criterion c = MaxTime ∧
                 ic_bound c < 1) ics →
    epidemics_loop rand ics p g 1 epidemic_output data_output log w
    = Some (Ok (ic_clean <$> ics,
                log ++ concat (idle_lines g data_output <$> ics), w)).
Proof.
  induction ics as [|ic ics IH]; intros log w Hall.
  - simpl. by rewrite app_nil_r.
  - apply Forall_cons in Hall as [(Hs & Hstop & Hb) Hall].
    cbn [epidemics_loop]. change (Z.to_nat 1) with 1%nat.
    cbn [samples_loop]. rewrite run_sample_idle by done.
    cbn [and_then]. rewrite IH by done. cbn [and_then].
    simpl. by rewrite <- app_assoc.
Qed.
End IdleBatch.

(** X27.  A negative global bound passes the assertions of [main] when
    [-a] or [-b] follows it, and then wins over the list of bounds: the
    list is not read, every epidemic gets the negative bound with the
    depth criterion and returns at the first node it takes from the
    queue.  Nothing is drawn or traced, and the data output shows each
    epidemic stopped at t = 1 with its seeds and no link. *)
Theorem negative_bound_idles (rand : nat → Z) (opts : list option_arg)
    (stop0 : Stopc) (ps : Params) (ics : list InitialCondition)
    (rest : input) (bounds_list : option input) (g : graph) (w : World) :
  parse_options opts (default_params stop0) = Parsed ps →
  params_asserts ps = Ok () →
  m_maxtime ps < 0 → m_sample_epidemics ps = 1 → m_threads ps = 1 →
  m_ic_list_path ps = true →
  graph_wf g → ics ≠ [] →
  Forall (λ c, ic_infected c ≠ [] ∧ unbounded c) ics →
  Forall (seeds_ok g) ics →
  m_bounds_list_path ps = true ∧
  main_checked rand ps (Some (ic_file ics ++ rest)) bounds_list g w
  = Some (Ok (concat (idle_lines g (m_data_output ps) <$> ics), w)).
Proof.
  intros Hparse Hassert Hneg Hsample _ Hic Hg Hne Hfmt Hseeds.
  split.
  { destruct (params_asserts_bound ps Hassert); [done | lia]. }
  unfold main_checked. rewrite Hassert, Hic, Hsample. cbn [and_then].
  unfold main_run. rewrite ic_import_format by done. cbn [and_then].
  destruct (Z.eqb_spec (m_maxtime ps) 0) as [|_]; [lia|].
  cbn [negb and_then]. change (negb (1 =? 1)) with false. cbv iota.
  rewrite epidemics_loop_idle; [|done|].
  - cbn [and_then]. simpl. do 3 f_equal.
    rewrite <- list_fmap_compose. done.
  - apply Forall_fmap. apply Forall_forall. intros c Hc. simpl.
    rewrite Forall_forall in Hseeds. split; [|split; [done | lia]].
    apply (Hseeds c Hc).
Qed.

Lemma negative_bound_idles_witness :
  main_checked (λ _, 0)
    (mkParams (1 # 2) (-5) 1 1 true true true true true NumInfected)
    (Some (ic_file [mkIC 7 [0] 0 MaxTime; mkIC 8 [1; 3] 0 MaxTime] ++ []))
    None line5 world0
  = Some (Ok ([Started 7 1 1 1 5; Stopped 7 1 1 1 5 0;
               Started 8 1 1 2 5; Stopped 8 1 1 2 5 0], world0)).
Proof.
  destruct (negative_bound_idles (λ _, 0)
              [Opt_p (1 # 2); Opt_g; Opt_i; Opt_o true; Opt_e true;
               Opt_t (-5); Opt_b]
              MaxTime
              (mkParams (1 # 2) (-5) 1 1 true true true true true NumInfected)
              [mkIC 7 [0] 0 MaxTime; mkIC 8 [1; 3] 0 MaxTime] [] None line5
              world0) as [_ H].
  - reflexivity.
  - reflexivity.
  - reflexivity.
  - reflexivity.
  - reflexivity.
  - reflexivity.
  - apply (bool_decide_unpack _). vm_compute. reflexivity.
  - discriminate.
  - repeat constructor; discriminate.
  - apply (bool_decide_unpack _). vm_compute. reflexivity.
  - exact H.
Defined.
